(** * NFT aggregator demo: the data layer of [src/lib/api.ts]

    A shallow embedding of the response-shaping code of the dashboard:
    marketplace-name formatting, image resolution, the listings cache,
    the listings and wallet fetchers and the even split of the
    marketplace distribution.

    Conventions of the embedding.
    - A JavaScript string is a [string] of 8-bit characters (the UTF-8
      bytes of the text).  [toLowerCase] and [toUpperCase] act on the
      ASCII letters only, so the development speaks about ASCII text;
      bytes above 127 are carried along unchanged.
    - A field of an upstream JSON record is an [option string]: [None] is
      JSON [null] (or an absent property), and a field is truthy when it
      is [Some] non-empty string.  The one field that the code uses
      without testing it, the timestamp of an ownership row, has a type
      of its own.
    - The network, the clock and [Math.random] are inputs of the functions
      that use them (a record of oracles); a rejected promise or a thrown
      exception is the [Throws] case of [outcome].
    - [console.log] and [console.error] calls have no effect on results
      and are left out. *)

From Stdlib Require Import ZArith Lia Ascii.
From stdpp Require Import base option list strings pretty gmap fin_maps.

Local Open Scope Z_scope.

(** ** JavaScript string primitives *)

Module Js.

(** Character classes, by character code. *)
Definition code (c : ascii) : N := N_of_ascii c.

Definition is_upper (c : ascii) : bool := ((65 <=? code c) && (code c <=? 90))%N.
Definition is_lower (c : ascii) : bool := ((97 <=? code c) && (code c <=? 122))%N.
Definition is_digit (c : ascii) : bool := ((48 <=? code c) && (code c <=? 57))%N.

Definition lower_char (c : ascii) : ascii :=
  if is_upper c then ascii_of_N (code c + 32) else c.
Definition upper_char (c : ascii) : ascii :=
  if is_lower c then ascii_of_N (code c - 32) else c.

Fixpoint map_chars (f : ascii → ascii) (s : string) : string :=
  match s with
  | EmptyString => EmptyString
  | String c t => String (f c) (map_chars f t)
  end.

(** [s.toLowerCase()], [s.toUpperCase()] *)
Definition toLowerCase : string → string := map_chars lower_char.
Definition toUpperCase : string → string := map_chars upper_char.

(** [s.startsWith(p)] *)
Fixpoint startsWith (s p : string) {struct p} : bool :=
  match p, s with
  | EmptyString, _ => true
  | String _ _, EmptyString => false
  | String a p', String b s' => if Ascii.eqb a b then startsWith s' p' else false
  end.

(** [s.includes(p)]: [p] starts at some position of [s]. *)
Fixpoint includes (s p : string) : bool :=
  startsWith s p ||
  match s with
  | EmptyString => false
  | String _ t => includes t p
  end.

(** [s.endsWith(p)]: some suffix of [s] is exactly [p]. *)
Fixpoint endsWith (s p : string) : bool :=
  String.eqb s p ||
  match s with
  | EmptyString => false
  | String _ t => endsWith t p
  end.

(** [s.charAt(0)] and [s.slice(1)] *)
Definition charAt0 (s : string) : string :=
  match s with
  | EmptyString => EmptyString
  | String c _ => String c EmptyString
  end.
Definition slice1 (s : string) : string :=
  match s with
  | EmptyString => EmptyString
  | String _ t => t
  end.

(** The string without its first [n] characters: what
    [url.replace('ipfs://', '')] leaves of a string that starts with
    these seven characters. *)
Fixpoint drop_chars (n : nat) (s : string) : string :=
  match n, s with
  | O, _ => s
  | S _, EmptyString => EmptyString
  | S n', String _ t => drop_chars n' t
  end.

(** [s.split(' ')]: the pieces between the spaces; never an empty list. *)
Fixpoint split_space (s : string) : list string :=
  match s with
  | EmptyString => [EmptyString]
  | String c t =>
      if Ascii.eqb c " " then EmptyString :: split_space t
      else match split_space t with
           | w :: ws => String c w :: ws
           | [] => [String c EmptyString]
           end
  end.

(** [l.join(' ')] *)
Fixpoint join_space (l : list string) : string :=
  match l with
  | [] => EmptyString
  | [w] => w
  | w :: ws => w +:+ " " +:+ join_space ws
  end.

(** [s.replace(re, '')] for a regular expression [re] that ends in [$]
    and has no [g] flag: the leftmost position from which the rest of
    the string matches is found and the string is cut there.  [m t]
    says that the whole of [t] matches the pattern before the [$]. *)
Fixpoint cut_at_match (m : string → bool) (s : string) : string :=
  if m s then EmptyString
  else match s with
       | EmptyString => EmptyString
       | String c t => String c (cut_at_match m t)
       end.

Fixpoint all_digits (s : string) : bool :=
  match s with
  | EmptyString => true
  | String c t => is_digit c && all_digits t
  end.

(** [\d+] against a whole string *)
Definition digits1 (s : string) : bool :=
  match s with
  | EmptyString => false
  | String _ _ => all_digits s
  end.

(** [_v\d+] with flag [i], against a whole string *)
Definition match_v_digits (s : string) : bool :=
  match s with
  | String u (String v r) =>
      Ascii.eqb u "_" && (Ascii.eqb v "v" || Ascii.eqb v "V") && digits1 r
  | _ => false
  end.

(** [_\d+] against a whole string *)
Definition match_digits (s : string) : bool :=
  match s with
  | String u r => Ascii.eqb u "_" && digits1 r
  | EmptyString => false
  end.

(** [s.replace(/[-_]/g, ' ')] *)
Definition sep_char (c : ascii) : ascii :=
  if Ascii.eqb c "-" || Ascii.eqb c "_" then " "%char else c.
Definition separators_to_spaces : string → string := map_chars sep_char.

(** [encodeURIComponent(s)] on the UTF-8 bytes of [s]: letters, digits
    and [- _ . ! ~ * ' ( )] stay, every other byte becomes [%XX]. *)
Definition hex_digit (n : N) : ascii :=
  if (n <? 10)%N then ascii_of_N (48 + n) else ascii_of_N (55 + n).

Definition uri_unreserved (c : ascii) : bool :=
  is_upper c || is_lower c || is_digit c ||
  existsb (Ascii.eqb c) ["-"; "_"; "."; "!"; "~"; "*"; "'"; "("; ")"]%char.

Fixpoint encodeURIComponent (s : string) : string :=
  match s with
  | EmptyString => EmptyString
  | String c t =>
      if uri_unreserved c then String c (encodeURIComponent t)
      else String "%" (String (hex_digit (code c / 16))
                         (String (hex_digit (code c mod 16)) (encodeURIComponent t)))
  end.

(** Truthiness of a nullable string field: [null] and [''] are falsy. *)
Definition truthy (f : option string) : bool :=
  match f with
  | Some (String _ _) => true
  | _ => false
  end.

(** The string of a field that the code has tested truthy. *)
Definition str (f : option string) : string := default EmptyString f.

(** [f || d] *)
Definition or_else (f : option string) (d : string) : string :=
  if truthy f then str f else d.

End Js.

(** ** Marketplace display names ([formatMarketplaceName]) *)

Module Format.
Import Js.

(** The second step of the function: each word gets its first letter in
    upper case and the rest in lower case. *)
Definition capitalize (word : string) : string :=
  toUpperCase (charAt0 word) +:+ toLowerCase (slice1 word).

Definition strip_suffixes (name : string) : string :=
  separators_to_spaces
    (cut_at_match match_digits (cut_at_match match_v_digits name)).

Definition formatMarketplaceName (name : string) : string :=
  match name with
  | EmptyString => "Unknown"
  | _ =>
      if includes (toLowerCase name) "topaz" then "Topaz (Deprecated)"
      else if includes (toLowerCase name) "tradeport" then "TradePort"
      else if includes (toLowerCase name) "bluemove" then "Bluemove"
      else join_space (map capitalize (split_space (strip_suffixes name)))
  end.

End Format.

(** ** Exceptions and rejected promises *)

Inductive outcome (A : Type) : Type :=
  | Returns (a : A)
  | Throws (error : string).
Arguments Returns {A} a.
Arguments Throws {A} error.

(** Sequencing of [await]s and calls: the first exception wins.  With
    these instances stdpp's [x ← a; k] is the monadic bind. *)
Global Instance outcome_ret : MRet outcome := λ A a, Returns a.
Global Instance outcome_bind : MBind outcome := λ A B k x,
  match x with
  | Returns a => k a
  | Throws e => Throws e
  end.

(** [try { body } catch (error) { handler }] *)
Definition try_catch {A} (body : outcome A) (handler : string → outcome A) : outcome A :=
  match body with
  | Returns a => Returns a
  | Throws e => handler e
  end.

(** [await Promise.all(l)]: every value, or the first rejection. *)
Fixpoint all_outcomes {A} (l : list (outcome A)) : outcome (list A) :=
  match l with
  | [] => Returns []
  | x :: rest => a ← x; r ← all_outcomes rest; Returns (a :: r)
  end.

(** ** Image resolution ([convertIpfsUrl], [getBestImageUrl]) *)

Module Image.
Import Js.

(** [cdn_asset_uris] of a token, as the GraphQL queries select it: each
    field a string or [null]. *)
Record CdnAssetUris := {
  cdn_image_uri : option string;
  asset_uri : option string;
  cdn_animation_uri : option string;
  raw_animation_uri : option string;
  raw_image_uri : option string;
  cdn_json_uri : option string;
}.

(** The fields that the code reads from a linked JSON document, each a
    string or [null]. *)
Record Metadata := {
  image : option string;
  image_url : option string;
  imageUrl : option string;
  animation_url : option string;
  animationUrl : option string;
}.

(** The [Response] of [fetch(url)]: [response.ok] and the promise
    [response.json()], which rejects on a body that is not JSON (and
    stands here also for a body whose fields cannot be read). *)
Record Response := {
  ok : bool;
  json : outcome Metadata;
}.

(** The network as seen by [getBestImageUrl]: [fetch(url, ...)] resolves
    to a response or rejects. *)
Definition Fetch := string → outcome Response.

Definition convertIpfsUrl (url : string) : string :=
  match url with
  | EmptyString => url
  | _ =>
      if startsWith url "ipfs://"
      then "https://ipfs.io/ipfs/" +:+ drop_chars 7 url
      else url
  end.

Definition is_image_name (uri : string) : bool :=
  endsWith uri ".jpg" || endsWith uri ".jpeg" || endsWith uri ".png" ||
  endsWith uri ".gif" || endsWith uri ".webp" || endsWith uri ".svg".

Definition is_video_name (uri : string) : bool :=
  endsWith uri ".mp4" || endsWith uri ".webm" || endsWith uri ".mov".

Definition is_json_name (uri : string) : bool := endsWith uri ".json".

(** One block of the function either executes a [return] ([Some]) or
    falls through to the next block ([None]); it may also throw. *)
Definition Step := outcome (option string).

Definition and_then (s : Step) (next : Step) : Step :=
  match s with
  | Returns None => next
  | other => other
  end.
Infix ">>>" := and_then (at level 65, right associativity).

Definition when (guard : bool) (s : Step) : Step :=
  if guard then s else Returns None.

Definition returns (u : string) : Step := Returns (Some u).

(** The chain [if (metadata.image) return ...; if (metadata.image_url) ...] *)
Definition read_image_field (metadata : Metadata) : Step :=
  when (truthy (image metadata)) (returns (convertIpfsUrl (str (image metadata)))) >>>
  when (truthy (image_url metadata)) (returns (convertIpfsUrl (str (image_url metadata)))) >>>
  when (truthy (imageUrl metadata)) (returns (convertIpfsUrl (str (imageUrl metadata)))) >>>
  when (truthy (animation_url metadata)) (returns (convertIpfsUrl (str (animation_url metadata)))) >>>
  when (truthy (animationUrl metadata)) (returns (convertIpfsUrl (str (animationUrl metadata)))).

(** The [try { fetch; if (response.ok) { json; read } } catch { log }]
    block shared by the three linked-JSON sources. *)
Definition fetch_linked_json (fetch : Fetch) (url : string) : Step :=
  try_catch
    (response ← fetch url;
     if ok response
     then metadata ← json response; read_image_field metadata
     else Returns None)
    (λ _, Returns None).

Definition raw_image_step (raw : string) : Step :=
  let imageUrl := convertIpfsUrl raw in
  let uri := toLowerCase imageUrl in
  if is_image_name uri then returns imageUrl
  else if is_video_name uri then returns imageUrl
  else returns imageUrl.

(** [tokenName] is only logged and is not a parameter here. *)
Definition getBestImageUrl (fetch : Fetch) (cdnAssetUris : option CdnAssetUris)
    (token_uri : option string) : outcome string :=
  match cdnAssetUris with
  | None => Returns EmptyString
  | Some u =>
      let asset := str (asset_uri u) in
      r ← (when (truthy (cdn_image_uri u)) (returns (str (cdn_image_uri u))) >>>
           when (truthy (raw_image_uri u)) (raw_image_step (str (raw_image_uri u))) >>>
           when (truthy (cdn_animation_uri u)) (returns (str (cdn_animation_uri u))) >>>
           when (truthy (raw_animation_uri u))
             (returns (convertIpfsUrl (str (raw_animation_uri u)))) >>>
           when (truthy (asset_uri u))
             (when (is_image_name (toLowerCase asset)) (returns (convertIpfsUrl asset))) >>>
           when (truthy (cdn_json_uri u)) (fetch_linked_json fetch (str (cdn_json_uri u))) >>>
           when (truthy (asset_uri u) && negb (truthy (cdn_json_uri u))
                 && is_json_name (toLowerCase asset))
             (fetch_linked_json fetch (convertIpfsUrl asset)) >>>
           when (truthy token_uri
                 && (negb (truthy (asset_uri u)) || negb (truthy (cdn_json_uri u))))
             (fetch_linked_json fetch (convertIpfsUrl (str token_uri))) >>>
           when (truthy (asset_uri u) && negb (is_json_name (toLowerCase asset)))
             (returns (convertIpfsUrl asset)));
      Returns (default EmptyString r)
  end.

(** A record that exposes nothing. *)
Definition no_uris : CdnAssetUris :=
  {| cdn_image_uri := None; asset_uri := None; cdn_animation_uri := None;
     raw_animation_uri := None; raw_image_uri := None; cdn_json_uri := None |}.

Definition only_asset (a : string) : CdnAssetUris :=
  {| cdn_image_uri := None; asset_uri := Some a; cdn_animation_uri := None;
     raw_animation_uri := None; raw_image_uri := None; cdn_json_uri := None |}.

Definition only_cdn_json (j : string) : CdnAssetUris :=
  {| cdn_image_uri := None; asset_uri := None; cdn_animation_uri := None;
     raw_animation_uri := None; raw_image_uri := None; cdn_json_uri := Some j |}.

(** A network where every request is rejected. *)
Definition offline : Fetch := λ _, Throws "TypeError: Failed to fetch".

(** A network that serves one JSON document at one address. *)
Definition serving (url : string) (m : Metadata) : Fetch :=
  λ u, if String.eqb u url then Returns {| ok := true; json := Returns m |}
       else Throws "TypeError: Failed to fetch".

End Image.

(** ** [JSON.stringify] of a flat object literal *)

Module Json.
Import Js.

(** The property values that the cache keys are made of. *)
Inductive value :=
  | Undefined
  | Bool (b : bool)
  | Number (n : Z)
  | Str (s : string).

(** An object literal: its properties in the order they are written. *)
Definition object := list (string * value).

Definition dquote : string := String (ascii_of_N 34) EmptyString.
Definition backslash : string := String (ascii_of_N 92) EmptyString.

Definition lower_hex_digit (n : N) : ascii :=
  if (n <? 10)%N then ascii_of_N (48 + n) else ascii_of_N (87 + n).

(** The escapes of [JSON.stringify]: the quote, the backslash and the
    control characters. *)
Definition escape_char (c : ascii) : string :=
  if (code c =? 34)%N then backslash +:+ dquote
  else if (code c =? 92)%N then backslash +:+ backslash
  else if (code c =? 8)%N then backslash +:+ "b"
  else if (code c =? 12)%N then backslash +:+ "f"
  else if (code c =? 10)%N then backslash +:+ "n"
  else if (code c =? 13)%N then backslash +:+ "r"
  else if (code c =? 9)%N then backslash +:+ "t"
  else if (code c <? 32)%N
       then backslash +:+ "u00" +:+
            String (lower_hex_digit (code c / 16))
              (String (lower_hex_digit (code c mod 16)) EmptyString)
  else String c EmptyString.

Fixpoint escape (s : string) : string :=
  match s with
  | EmptyString => EmptyString
  | String c t => escape_char c +:+ escape t
  end.

Definition quote (s : string) : string := dquote +:+ escape s +:+ dquote.

(** Numbers are the integers that page numbers and sizes are, written
    with all their digits: so [JSON.stringify] writes the safe integers
    (up to [2^53 - 1] either side of 0).  [NaN] and the infinities,
    which it writes [null], and the numbers that it writes with an
    exponent are not values of the embedding. *)
Definition stringify_value (v : value) : option string :=
  match v with
  | Undefined => None
  | Bool true => Some "true"
  | Bool false => Some "false"
  | Number n => Some (pretty n)
  | Str s => Some (quote s)
  end.

Definition stringify_property (p : string * value) : option string :=
  text ← stringify_value p.2; Some (quote p.1 +:+ ":" +:+ text).

Fixpoint join_comma (l : list string) : string :=
  match l with
  | [] => EmptyString
  | [x] => x
  | x :: rest => x +:+ "," +:+ join_comma rest
  end.

(** [JSON.stringify(o)]: properties whose value is [undefined] are
    left out. *)
Definition stringify (o : object) : string :=
  "{" +:+ join_comma (omap stringify_property o) +:+ "}".

Definition of_string (f : option string) : value :=
  match f with
  | Some s => Str s
  | None => Undefined
  end.

End Json.

(** ** Records *)

(** The display record [NFT] of [src/types].  [price] (a floating-point
    division of the listed amount by 10^8) and [token_properties] (a
    [JSON.parse] that swallows its own errors) never influence another
    field and are not part of the embedding. *)
Module NFT.
Record t := {
  id : string;
  name : string;
  description : string;
  image_url : string;
  marketplace : string;
  collection_name : string;
  creator_address : string;
  owner_address : string;
  created_at : string;
  listing_id : option string;
  collection_id : option string;
  token_uri : option string;
  hasCompleteMetadata : option bool;
}.
End NFT.

(** What a fetcher resolves to: [{ nfts, total }]. *)
Record Page := {
  nfts : list NFT.t;
  total : Z;
}.

(** The empty-result sentinel [{ nfts: [], total: 0 }]. *)
Definition empty_page : Page := {| nfts := []; total := 0 |}.

(** [current_token_data] of an upstream row. *)
Module TokenData.
Record t := {
  token_uri : option string;
  token_name : option string;
  description : option string;
  cdn_asset_uris : option Image.CdnAssetUris;
  collection_name : option string;
  creator_address : option string;
  collection_id : option string;
}.
(** [{}] *)
Definition empty : t :=
  {| token_uri := None; token_name := None; description := None;
     cdn_asset_uris := None; collection_name := None;
     creator_address := None; collection_id := None |}.
End TokenData.

(** [collection_data] of a listing row. *)
Module CollectionData.
Record t := {
  collection_name : option string;
  uri : option string;
  creator_address : option string;
  description : option string;
}.
Definition empty : t :=
  {| collection_name := None; uri := None; creator_address := None;
     description := None |}.
End CollectionData.

(** A row of [current_nft_marketplace_listings]. *)
Module Listing.
Record t := {
  token_name : option string;
  token_data_id : option string;
  seller : option string;
  marketplace : option string;
  listing_id : option string;
  last_transaction_timestamp : option string;
  collection_id : option string;
  collection_data : option CollectionData.t;
  current_token_data : option TokenData.t;
}.
End Listing.

(** A row of [current_token_ownerships_v2].  Its timestamp goes to
    [new Date] untested, which tells a property that is absent
    ([undefined]) from one that is [null]. *)
Module Ownership.
Inductive timestamp :=
  | Absent
  | Null
  | Text (s : string).

Record t := {
  token_data_id : option string;
  current_token_data : option TokenData.t;
  last_transaction_timestamp : timestamp;
}.
End Ownership.

(** ** The GraphQL gateway *)

Module Gateway.

(** The array a query asks for, as found in [data.data]: absent or
    [null], present but not an array, or the rows. *)
Inductive rows (A : Type) :=
  | Missing
  | NotAnArray
  | Rows (l : list A).
Arguments Missing {A}.
Arguments NotAnArray {A}.
Arguments Rows {A} l.

(** [data.data] of a decoded body. [count] is
    [current_nft_marketplace_listings_aggregate?.aggregate?.count]. *)
Record Data (A : Type) := {
  table : rows A;
  count : option Z;
}.
Arguments table {A} d.
Arguments count {A} d.

(** The decoded body: [errors] tells whether [data.errors] is truthy. *)
Record Body (A : Type) := {
  errors : bool;
  data : option (Data A);
}.
Arguments errors {A} b.
Arguments data {A} b.

(** The [Response] of the POST; [json] rejects on a body that is not
    JSON, and stands also for a body that is JSON [null]. *)
Record Response (A : Type) := {
  ok : bool;
  json : outcome (Body A);
}.
Arguments ok {A} r.
Arguments json {A} r.

(** The variable parts of the query text of [fetchActiveListings]. *)
Record ListingsQuery := {
  limit : Z;
  offset : Z;
  marketplaceFilter : string;
  collectionFilter : string;
  orderPart : string;
}.

(** The variable parts of the query text of [fetchNFTs]. *)
Record WalletQuery := {
  owner_address : string;
  wallet_collectionFilter : string;
  wallet_limit : Z;
  wallet_offset : Z;
  wallet_orderPart : string;
}.

End Gateway.

(** Everything outside the program that its functions consult. *)
Record World := {
  (** [fetch(url)] of a linked metadata document *)
  fetch : Image.Fetch;
  (** [fetchWithRetry(APTOS_NFT_INDEXER_ENDPOINT, ...)]: rejects on a
      transport failure *)
  listings_indexer : Gateway.ListingsQuery → outcome (Gateway.Response Listing.t);
  (** [fetchWithRetry(APTOS_INDEXER_ENDPOINT, ...)] *)
  wallet_indexer : Gateway.WalletQuery → outcome (Gateway.Response Ownership.t);
  (** [Date.now()] at the cache check and at the cache store *)
  now_at_check : Z;
  now_at_store : Z;
  (** [new Date(s).toISOString()]: a [RangeError] on an invalid date *)
  toISOString : string → outcome string;
  (** [new Date().toISOString()] *)
  current_time_iso : string;
  (** [Math.random().toString(36).substring(7)] in the callback of the
      row at the given index *)
  random_id : nat → string;
}.

(** ** The listings cache *)

(** The object [listingsCache] as a finite map.  Its keys are JSON texts
    of objects and begin with a brace, so no key names a property that a
    JavaScript object inherits, and [listingsCache[key]] is the entry or
    [undefined]. *)
Module Cache.

Record ListingsCache := {
  timestamp : Z;
  data : Page;
  params : string;
}.

(** [5 * 60 * 1000] *)
Definition CACHE_EXPIRATION : Z := 5 * 60 * 1000.

(** The test at the head of [fetchActiveListings]:
    [!skipCache && listingsCache[cacheKey]] and then the age check. *)
Definition lookup (listingsCache : gmap string ListingsCache) (skipCache : bool)
    (cacheKey : string) (now : Z) : option Page :=
  if negb skipCache then
    match listingsCache !! cacheKey with
    | Some cacheEntry =>
        if now - timestamp cacheEntry <? CACHE_EXPIRATION
        then Some (data cacheEntry) else None
    | None => None
    end
  else None.

(** [listingsCache[cacheKey] = { timestamp: Date.now(), data: result, params: cacheKey }] *)
Definition store (listingsCache : gmap string ListingsCache) (cacheKey : string)
    (now : Z) (result : Page) : gmap string ListingsCache :=
  <[cacheKey := {| timestamp := now; data := result; params := cacheKey |}]> listingsCache.

(** [invalidateListingsCache(specificParams?)]: [None] is a call
    without argument; an object is always truthy. *)
Definition invalidateListingsCache (specificParams : option Json.object)
    (listingsCache : gmap string ListingsCache) : gmap string ListingsCache :=
  match specificParams with
  | Some o =>
      let cacheKey := Json.stringify o in
      match listingsCache !! cacheKey with
      | Some _ => delete cacheKey listingsCache
      | None => listingsCache
      end
  | None =>
      foldl (λ cache key, delete key cache) listingsCache
        (map fst (map_to_list listingsCache))
  end.

End Cache.

(** [array.slice(start, end)] with integer arguments: a negative index
    counts from the end, and both are clamped to the array. *)
Definition js_slice {A} (l : list A) (start stop : Z) : list A :=
  let len := Z.of_nat (length l) in
  let k := if start <? 0 then Z.max (len + start) 0 else Z.min start len in
  let final := if stop <? 0 then Z.max (len + stop) 0 else Z.min stop len in
  take (Z.to_nat (final - k)) (drop (Z.to_nat k) l).

(** ** Active listings ([fetchActiveListings]) *)

Module Listings.
Import Js.

(** The argument of [fetchActiveListings]; [None] is a property that is
    [undefined].  [orderByClause] is destructured and never used. *)
Record Params := {
  page : option Z;
  pageSize : option Z;
  collection : option string;
  marketplace : option string;
  sortOrder : option string;
  hideIncompleteMetadata : option bool;
  skipCache : option bool;
}.

(** [fetchActiveListings()] *)
Definition no_params : Params :=
  {| page := None; pageSize := None; collection := None; marketplace := None;
     sortOrder := None; hideIncompleteMetadata := None; skipCache := None |}.

Definition the_page (p : Params) : Z := default 1 (page p).
Definition the_pageSize (p : Params) : Z := default 10 (pageSize p).
Definition the_sortOrder (p : Params) : string := default "timestamp_desc" (sortOrder p).
Definition hiding (p : Params) : bool := default false (hideIncompleteMetadata p).
Definition skipping (p : Params) : bool := default false (skipCache p).

(** [{ page, pageSize, collection, marketplace, sortOrder, hideIncompleteMetadata }] *)
Definition cacheParams (p : Params) : Json.object :=
  [ ("page", Json.Number (the_page p));
    ("pageSize", Json.Number (the_pageSize p));
    ("collection", Json.of_string (collection p));
    ("marketplace", Json.of_string (marketplace p));
    ("sortOrder", Json.Str (the_sortOrder p));
    ("hideIncompleteMetadata", Json.Bool (hiding p)) ].

Definition cacheKey (p : Params) : string := Json.stringify (cacheParams p).

Definition orderPart (sortOrder : string) : string :=
  if String.eqb sortOrder "" then "order_by: {last_transaction_timestamp: desc}"
  else if String.eqb sortOrder "timestamp_desc" then "order_by: {last_transaction_timestamp: desc}"
  else if String.eqb sortOrder "timestamp_asc" then "order_by: {last_transaction_timestamp: asc}"
  else if String.eqb sortOrder "price_desc" then "order_by: {price: desc}"
  else if String.eqb sortOrder "price_asc" then "order_by: {price: asc}"
  else if String.eqb sortOrder "version_desc" then "order_by: {last_transaction_version: desc}"
  else if String.eqb sortOrder "version_asc" then "order_by: {last_transaction_version: asc}"
  else "order_by: {last_transaction_timestamp: desc}".

Definition queryLimit (p : Params) : Z :=
  if truthy (marketplace p) then the_pageSize p * 5
  else if hiding p then the_pageSize p * 3
  else the_pageSize p.

Definition queryOffset (p : Params) : Z :=
  if hiding p || truthy (marketplace p) then 0
  else (the_page p - 1) * the_pageSize p.

Definition marketplaceFilter (marketplace : option string) : string :=
  if truthy marketplace then
    let m := str marketplace in
    if String.eqb (toLowerCase m) "topaz"
    then "marketplace: {_eq: " +:+ Json.dquote +:+ "topaz" +:+ Json.dquote +:+ "}"
    else if includes (toLowerCase m) "tradeport"
    then "marketplace: {_in: [" +:+ Json.dquote +:+ "tradeport_v1" +:+ Json.dquote +:+ ", "
                                +:+ Json.dquote +:+ "tradeport_v2" +:+ Json.dquote +:+ "]}"
    else "marketplace: {_ilike: " +:+ Json.dquote +:+ m +:+ Json.dquote +:+ "}"
  else "".

Definition collectionFilter (collection : option string) : string :=
  if truthy collection
  then ", collection_data: {collection_name: {_ilike: " +:+ Json.dquote +:+ "%"
       +:+ str collection +:+ "%" +:+ Json.dquote +:+ "}}"
  else "".

Definition smallQuery (p : Params) : Gateway.ListingsQuery :=
  {| Gateway.limit := queryLimit p;
     Gateway.offset := queryOffset p;
     Gateway.marketplaceFilter := marketplaceFilter (marketplace p);
     Gateway.collectionFilter := collectionFilter (collection p);
     Gateway.orderPart := orderPart (the_sortOrder p) |}.

(** The [filter] callback: Topaz rows are all kept, the others need a
    token name. *)
Definition has_token_name (listing : Listing.t) : bool :=
  if truthy (Listing.marketplace listing)
     && includes (toLowerCase (str (Listing.marketplace listing))) "topaz"
  then true
  else truthy (Listing.token_name listing)
       || match Listing.current_token_data listing with
          | Some tokenData => truthy (TokenData.token_name tokenData)
          | None => false
          end.

Definition placeholder (text : string) : string :=
  "https://via.placeholder.com/500x500?text=" +:+ encodeURIComponent text.

Definition nonempty (s : string) : bool :=
  match s with
  | EmptyString => false
  | String _ _ => true
  end.

(** A [null] inside a template literal *)
Definition interpolate (f : option string) : string := default "null" f.

(** [tokenData.cdn_asset_uris ? await getBestImageUrl(...) : ''] *)
Definition resolved_image (w : World) (tokenData : TokenData.t) : outcome string :=
  match TokenData.cdn_asset_uris tokenData with
  | Some uris => Image.getBestImageUrl (fetch w) (Some uris) (TokenData.token_uri tokenData)
  | None => Returns EmptyString
  end.

(** The [map] callback: one row to one display record. [index] is the
    position of the row among the rows kept by the filter. *)
Definition toNFT (w : World) (index : nat) (listing : Listing.t) : outcome NFT.t :=
  let tokenData := default TokenData.empty (Listing.current_token_data listing) in
  let collectionData := default CollectionData.empty (Listing.collection_data listing) in
  resolved ← resolved_image w tokenData;
  let imageUrl :=
    if nonempty resolved then resolved
    else placeholder (or_else (Listing.token_name listing) (random_id w index)) in
  let hasCompleteName :=
    truthy (Listing.token_name listing) || truthy (TokenData.token_name tokenData) in
  let hasDescription := truthy (TokenData.description tokenData) in
  let hasImage := nonempty imageUrl in
  let hasCompleteMetadata := hasCompleteName && hasDescription && hasImage in
  created ← (if truthy (Listing.last_transaction_timestamp listing)
             then toISOString w (str (Listing.last_transaction_timestamp listing))
             else Returns (current_time_iso w));
  Returns
    {| NFT.id := or_else (Listing.token_data_id listing)
                   ("listing-" +:+ interpolate (Listing.listing_id listing));
       NFT.name :=
         or_else (Listing.token_name listing)
           (or_else (TokenData.token_name tokenData)
              ("NFT #" +:+ or_else (Listing.listing_id listing) "Unknown"));
       NFT.description :=
         or_else (TokenData.description tokenData)
           (or_else (CollectionData.description collectionData) "No description available");
       NFT.image_url := imageUrl;
       NFT.marketplace :=
         Format.formatMarketplaceName (or_else (Listing.marketplace listing) "Unknown");
       NFT.collection_name :=
         or_else (CollectionData.collection_name collectionData) "Unknown Collection";
       NFT.creator_address := or_else (CollectionData.creator_address collectionData) "";
       NFT.owner_address := or_else (Listing.seller listing) "";
       NFT.created_at := created;
       NFT.listing_id := Some (or_else (Listing.listing_id listing) "");
       NFT.collection_id :=
         Some (or_else (TokenData.collection_id tokenData)
                 (or_else (Listing.collection_id listing) ""));
       NFT.token_uri :=
         Some (or_else (TokenData.token_uri tokenData)
                 (or_else (CollectionData.uri collectionData) ""));
       NFT.hasCompleteMetadata := Some hasCompleteMetadata |}.

(** [nft.hasCompleteMetadata] as a condition *)
Definition complete (nft : NFT.t) : bool := default false (NFT.hasCompleteMetadata nft).

(** [count || listings.length] *)
Definition totalCount (count : option Z) (listings : list Listing.t) : Z :=
  match count with
  | Some n => if n =? 0 then Z.of_nat (length listings) else n
  | None => Z.of_nat (length listings)
  end.

(** The records after the metadata filter, before pagination. *)
Definition filteredNfts (p : Params) (nfts : list NFT.t) : list NFT.t :=
  if hiding p then List.filter complete nfts else nfts.

Definition paginatedNfts (p : Params) (filtered : list NFT.t) : list NFT.t :=
  if hiding p then
    let startIndex := (the_page p - 1) * the_pageSize p in
    js_slice filtered startIndex (startIndex + the_pageSize p)
  else filtered.

(** The part of the function after a decoded body with rows. *)
Definition shape (w : World) (p : Params) (count : option Z) (listings : list Listing.t)
    : outcome Page :=
  nfts ← all_outcomes (imap (toNFT w) (List.filter has_token_name listings));
  let filtered := filteredNfts p nfts in
  Returns {| nfts := paginatedNfts p filtered;
             total := if hiding p then Z.of_nat (length filtered)
                      else totalCount count listings |}.

(** The body of the [try] block: the page to return and the cache
    after it.  The cache is written as the last step, so a thrown
    exception leaves the cache it started with. *)
Definition fetch_fresh (w : World) (p : Params)
    (listingsCache : gmap string Cache.ListingsCache)
    : outcome (Page * gmap string Cache.ListingsCache) :=
  response ← listings_indexer w (smallQuery p);
  if negb (Gateway.ok response) then Returns (empty_page, listingsCache)
  else
    body ← Gateway.json response;
    if Gateway.errors body then Returns (empty_page, listingsCache)
    else match Gateway.data body with
         | None => Returns (empty_page, listingsCache)
         | Some d =>
             match Gateway.table d with
             | Gateway.Missing => Returns (empty_page, listingsCache)
             | Gateway.NotAnArray => Throws "TypeError: listings.filter is not a function"
             | Gateway.Rows listings =>
                 result ← shape w p (Gateway.count d) listings;
                 Returns (result,
                          Cache.store listingsCache (cacheKey p) (now_at_store w) result)
             end
         end.

Definition fetchActiveListings (w : World) (p : Params)
    (listingsCache : gmap string Cache.ListingsCache)
    : outcome Page * gmap string Cache.ListingsCache :=
  match Cache.lookup listingsCache (skipping p) (cacheKey p) (now_at_check w) with
  | Some cached => (Returns cached, listingsCache)
  | None =>
      match try_catch (fetch_fresh w p listingsCache)
              (λ _, Returns (empty_page, listingsCache)) with
      | Returns (result, cache) => (Returns result, cache)
      | Throws e => (Throws e, listingsCache)
      end
  end.

End Listings.

(** ** Wallet NFTs ([fetchNFTs]) *)

Module Wallet.
Import Js.

(** The argument of [fetchNFTs]. *)
Record Params := {
  address : option string;
  page : option Z;
  pageSize : option Z;
  collection : option string;
  marketplace : option string;
  sortOrder : option string;
}.

Definition the_page (p : Params) : Z := default 1 (page p).
Definition the_pageSize (p : Params) : Z := default 10 (pageSize p).

(** Price sorting is not offered for wallet NFTs. *)
Definition orderPart (sortOrder : option string) : string :=
  if truthy sortOrder then
    let s := str sortOrder in
    if String.eqb s "timestamp_desc" then "order_by: {last_transaction_timestamp: desc}"
    else if String.eqb s "timestamp_asc" then "order_by: {last_transaction_timestamp: asc}"
    else if String.eqb s "version_desc" then "order_by: {last_transaction_version: desc}"
    else if String.eqb s "version_asc" then "order_by: {last_transaction_version: asc}"
    else "order_by: {last_transaction_timestamp: desc}"
  else "order_by: {last_transaction_timestamp: desc}".

Definition collectionFilter (collection : option string) : string :=
  if truthy collection
  then ", current_token_data: {collection_name: {_ilike: " +:+ Json.dquote +:+ "%"
       +:+ str collection +:+ "%" +:+ Json.dquote +:+ "}}"
  else "".

Definition simpleQuery (p : Params) : Gateway.WalletQuery :=
  {| Gateway.owner_address := str (address p);
     Gateway.wallet_collectionFilter := collectionFilter (collection p);
     Gateway.wallet_limit := the_pageSize p;
     Gateway.wallet_offset := (the_page p - 1) * the_pageSize p;
     Gateway.wallet_orderPart := orderPart (sortOrder p) |}.

(** [new Date(ownership.last_transaction_timestamp).toISOString()]:
    [new Date(null)] is the epoch, [new Date(undefined)] is an invalid
    date, which [toISOString] refuses. *)
Definition created_at (w : World) (timestamp : Ownership.timestamp) : outcome string :=
  match timestamp with
  | Ownership.Text s => toISOString w s
  | Ownership.Null => Returns "1970-01-01T00:00:00.000Z"
  | Ownership.Absent => Throws "RangeError: Invalid time value"
  end.

(** The [map] callback. *)
Definition toNFT (w : World) (owner : string) (ownership : Ownership.t) : outcome NFT.t :=
  let tokenData := default TokenData.empty (Ownership.current_token_data ownership) in
  resolved ← Listings.resolved_image w tokenData;
  let imageUrl :=
    if Listings.nonempty resolved then resolved
    else Listings.placeholder (or_else (TokenData.token_name tokenData) "NFT") in
  created ← created_at w (Ownership.last_transaction_timestamp ownership);
  Returns
    {| NFT.id := or_else (Ownership.token_data_id ownership) "";
       NFT.name := or_else (TokenData.token_name tokenData) "Unnamed NFT";
       NFT.description := or_else (TokenData.description tokenData) "";
       NFT.image_url := imageUrl;
       NFT.marketplace := "Aptos";
       NFT.collection_name := or_else (TokenData.collection_name tokenData) "";
       NFT.creator_address := or_else (TokenData.creator_address tokenData) "";
       NFT.owner_address := owner;
       NFT.created_at := created;
       NFT.listing_id := None;
       NFT.collection_id := None;
       NFT.token_uri := None;
       NFT.hasCompleteMetadata := None |}.

(** The client-side marketplace filter. *)
Definition filteredNfts (p : Params) (nfts : list NFT.t) : list NFT.t :=
  if truthy (marketplace p)
  then List.filter
         (λ nft, String.eqb (toLowerCase (NFT.marketplace nft))
                            (toLowerCase (str (marketplace p)))) nfts
  else nfts.

(** The body of the [try] block for an address other than ['all']. *)
Definition fetch_owned (w : World) (p : Params) : outcome Page :=
  response ← wallet_indexer w (simpleQuery p);
  if negb (Gateway.ok response) then Returns empty_page
  else
    body ← Gateway.json response;
    if Gateway.errors body then Returns empty_page
    else match Gateway.data body with
         | None => Returns empty_page
         | Some d =>
             match Gateway.table d with
             | Gateway.Missing => Returns empty_page
             | Gateway.NotAnArray => Throws "TypeError: ownerships.map is not a function"
             | Gateway.Rows ownerships =>
                 let total := Z.of_nat (length ownerships) in
                 nfts ← all_outcomes (map (toNFT w (str (address p))) ownerships);
                 Returns {| nfts := filteredNfts p nfts;
                            total := Z.max 20 (total * 2) |}
             end
         end.

Definition fetchNFTs (w : World) (p : Params)
    (listingsCache : gmap string Cache.ListingsCache)
    : outcome Page * gmap string Cache.ListingsCache :=
  if negb (truthy (address p)) then (Returns empty_page, listingsCache)
  else if String.eqb (str (address p)) "all"
  then Listings.fetchActiveListings w
         {| Listings.page := Some (the_page p);
            Listings.pageSize := Some (the_pageSize p);
            Listings.collection := None;
            Listings.marketplace := None;
            Listings.sortOrder := None;
            Listings.hideIncompleteMetadata := None;
            Listings.skipCache := None |}
         listingsCache
  else (try_catch (fetch_owned w p) (λ _, Returns empty_page), listingsCache).

End Wallet.

(** ** Marketplace distribution ([distributeEvenly] in [fetchAggregatorStats]) *)

Module Stats.
Import Js.

(** [Math.floor(100 / n)] for the length [n >= 1] of the list; the
    function is only called on a non-empty list. *)
Definition basePercent (n : Z) : Z := 100 / n.

(** The percentage that the row at [index] is given. *)
Definition percentage (n : Z) (index : nat) : Z :=
  if Z.of_nat index =? n - 1
  then 100 - basePercent n * (n - 1)
  else basePercent n.

(** One turn of the [forEach]: rows without a marketplace are skipped,
    the others write their share under their display name. *)
Definition assign (n : Z) (distribution : gmap string Z)
    (entry : nat * option string) : gmap string Z :=
  if truthy entry.2
  then <[Format.formatMarketplaceName (str entry.2) := percentage n entry.1]> distribution
  else distribution.

(** [distributeEvenly(marketplaces)], which updates the object
    [marketplaceDistribution]; a row is given by its [marketplace]. *)
Definition distributeEvenly (marketplaces : list (option string))
    (marketplaceDistribution : gmap string Z) : gmap string Z :=
  foldl (assign (Z.of_nat (length marketplaces))) marketplaceDistribution
    (imap (λ index item, (index, item)) marketplaces).

(** [Object.values(d).reduce((sum, val) => sum + val, 0)] *)
Definition sum_of_shares (d : gmap string Z) : Z :=
  map_fold (λ _ share sum, sum + share) 0 d.

(** The distribution of [fetchAggregatorStats] when the sales lookup
    gives no sales: the even split over the rows, if there is a row. *)
Definition distribution_without_sales (marketplaces : list (option string)) : gmap string Z :=
  if (0 <? length marketplaces)%nat then distributeEvenly marketplaces ∅ else ∅.

End Stats.


(** ** Definitions used to state and prove the properties *)

(** [every P s]: all characters of [s] satisfy [P]. *)
Fixpoint every (P : ascii → bool) (s : string) : bool :=
  match s with
  | EmptyString => true
  | String c t => P c && every P t
  end.

Definition is_separator (c : ascii) : bool := Ascii.eqb c "-" || Ascii.eqb c "_".
Definition is_space (c : ascii) : bool := Ascii.eqb c " ".

(** Title-casing read character by character: [start] tells whether the
    next character begins a word. *)
Fixpoint title_from (start : bool) (s : string) : string :=
  match s with
  | EmptyString => EmptyString
  | String c t =>
      if Ascii.eqb c " " then String c (title_from true t)
      else String (if start then Js.upper_char c else Js.lower_char c) (title_from false t)
  end.

(** What [capitalize] does to a word whose beginning has (or has not)
    been consumed already. *)
Definition word_case (start : bool) (w : string) : string :=
  if start then Format.capitalize w else Js.toLowerCase w.

(** The names outside the special cases of [formatMarketplaceName]. *)
Definition plain (name : string) : bool :=
  negb (Js.includes (Js.toLowerCase name) "topaz")
  && negb (Js.includes (Js.toLowerCase name) "tradeport")
  && negb (Js.includes (Js.toLowerCase name) "bluemove").

(** *** Image resolution as a table

    The reading of the linked-JSON sources as a list to try in order:
    a source whose fetch is rejected, is not [ok], has an undecodable
    body or has no image field gives nothing, and the next one is tried. *)

Definition first_image_field (m : Image.Metadata) : option string :=
  if Js.truthy (Image.image m) then Some (Image.convertIpfsUrl (Js.str (Image.image m)))
  else if Js.truthy (Image.image_url m) then Some (Image.convertIpfsUrl (Js.str (Image.image_url m)))
  else if Js.truthy (Image.imageUrl m) then Some (Image.convertIpfsUrl (Js.str (Image.imageUrl m)))
  else if Js.truthy (Image.animation_url m)
       then Some (Image.convertIpfsUrl (Js.str (Image.animation_url m)))
  else if Js.truthy (Image.animationUrl m)
       then Some (Image.convertIpfsUrl (Js.str (Image.animationUrl m)))
  else None.

Definition linked_image (fetch : Image.Fetch) (url : string) : option string :=
  match fetch url with
  | Returns response =>
      if Image.ok response then
        match Image.json response with
        | Returns m => first_image_field m
        | Throws _ => None
        end
      else None
  | Throws _ => None
  end.

(** A step that does not throw. *)
Definition quiet (s : Image.Step) : Prop := ∃ r, s = Returns r.

(** No direct source: steps 1 to 5 of the priority list find nothing. *)
Definition no_direct_source (u : Image.CdnAssetUris) : bool :=
  negb (Js.truthy (Image.cdn_image_uri u))
  && negb (Js.truthy (Image.raw_image_uri u))
  && negb (Js.truthy (Image.cdn_animation_uri u))
  && negb (Js.truthy (Image.raw_animation_uri u))
  && negb (Js.truthy (Image.asset_uri u)
           && Image.is_image_name (Js.toLowerCase (Js.str (Image.asset_uri u)))).

(** The linked documents that the guards of the code admit, in order:
    the CDN JSON URI; the [.json] asset URI when there is no CDN JSON
    URI; the token URI when the asset URI or the CDN JSON URI is absent. *)
Definition admitted_sources (u : Image.CdnAssetUris) (token_uri : option string) : list string :=
  (if Js.truthy (Image.cdn_json_uri u) then [Js.str (Image.cdn_json_uri u)] else [])
  ++ (if Js.truthy (Image.asset_uri u) && negb (Js.truthy (Image.cdn_json_uri u))
         && Image.is_json_name (Js.toLowerCase (Js.str (Image.asset_uri u)))
      then [Image.convertIpfsUrl (Js.str (Image.asset_uri u))] else [])
  ++ (if Js.truthy token_uri
         && (negb (Js.truthy (Image.asset_uri u)) || negb (Js.truthy (Image.cdn_json_uri u)))
      then [Image.convertIpfsUrl (Js.str token_uri)] else []).

(** The linked documents that a record names, whatever the guards. *)
Definition named_sources (u : Image.CdnAssetUris) (token_uri : option string) : list string :=
  (if Js.truthy (Image.cdn_json_uri u) then [Js.str (Image.cdn_json_uri u)] else [])
  ++ (if Js.truthy (Image.asset_uri u)
         && Image.is_json_name (Js.toLowerCase (Js.str (Image.asset_uri u)))
      then [Image.convertIpfsUrl (Js.str (Image.asset_uri u))] else [])
  ++ (if Js.truthy token_uri then [Image.convertIpfsUrl (Js.str token_uri)] else []).

(** The first source of the list that yields an image. *)
Fixpoint first_linked_image (fetch : Image.Fetch) (sources : list string) : option string :=
  match sources with
  | [] => None
  | url :: rest =>
      match linked_image fetch url with
      | Some v => Some v
      | None => first_linked_image fetch rest
      end
  end.

(** The last resort: an asset URI that is not a [.json] name is used as
    it is; otherwise the empty string. *)
Definition last_resort (u : Image.CdnAssetUris) : string :=
  if Js.truthy (Image.asset_uri u)
     && negb (Image.is_json_name (Js.toLowerCase (Js.str (Image.asset_uri u))))
  then Image.convertIpfsUrl (Js.str (Image.asset_uri u))
  else "".

Definition resolve_linked (fetch : Image.Fetch) (sources : list string)
    (u : Image.CdnAssetUris) : string :=
  default (last_resort u) (first_linked_image fetch sources).

(** *** Outcomes of the gateway call of [fetchActiveListings] *)

(** The call reaches the rows and shapes them into [payload]. *)
Definition fetch_succeeds (w : World) (p : Listings.Params) (payload : Page) : Prop :=
  ∃ response body d listings,
    listings_indexer w (Listings.smallQuery p) = Returns response
    ∧ Gateway.ok response = true
    ∧ Gateway.json response = Returns body
    ∧ Gateway.errors body = false
    ∧ Gateway.data body = Some d
    ∧ Gateway.table d = Gateway.Rows listings
    ∧ Listings.shape w p (Gateway.count d) listings = Returns payload.

(** The failures of the taxonomy: (a) transport, (b) HTTP status,
    (c) GraphQL errors, (d) a body of an unexpected shape: not JSON, no
    [data], no row array or something else in its place, or rows from
    which no record can be built. *)
Inductive fetch_fails (w : World) (p : Listings.Params) : Prop :=
  | transport_failure e :
      listings_indexer w (Listings.smallQuery p) = Throws e → fetch_fails w p
  | http_failure response :
      listings_indexer w (Listings.smallQuery p) = Returns response →
      Gateway.ok response = false → fetch_fails w p
  | graphql_errors response body :
      listings_indexer w (Listings.smallQuery p) = Returns response →
      Gateway.ok response = true →
      Gateway.json response = Returns body →
      Gateway.errors body = true → fetch_fails w p
  | undecodable_body response e :
      listings_indexer w (Listings.smallQuery p) = Returns response →
      Gateway.ok response = true →
      Gateway.json response = Throws e → fetch_fails w p
  | missing_data response body :
      listings_indexer w (Listings.smallQuery p) = Returns response →
      Gateway.ok response = true →
      Gateway.json response = Returns body →
      Gateway.errors body = false →
      Gateway.data body = None → fetch_fails w p
  | malformed_table response body d :
      listings_indexer w (Listings.smallQuery p) = Returns response →
      Gateway.ok response = true →
      Gateway.json response = Returns body →
      Gateway.errors body = false →
      Gateway.data body = Some d →
      Gateway.table d = Gateway.Missing ∨ Gateway.table d = Gateway.NotAnArray →
      fetch_fails w p
  | malformed_rows response body d listings e :
      listings_indexer w (Listings.smallQuery p) = Returns response →
      Gateway.ok response = true →
      Gateway.json response = Returns body →
      Gateway.errors body = false →
      Gateway.data body = Some d →
      Gateway.table d = Gateway.Rows listings →
      Listings.shape w p (Gateway.count d) listings = Throws e →
      fetch_fails w p.

(** The same call with [skipCache: true]. *)
Definition skipping_cache (p : Listings.Params) : Listings.Params :=
  {| Listings.page := Listings.page p;
     Listings.pageSize := Listings.pageSize p;
     Listings.collection := Listings.collection p;
     Listings.marketplace := Listings.marketplace p;
     Listings.sortOrder := Listings.sortOrder p;
     Listings.hideIncompleteMetadata := Listings.hideIncompleteMetadata p;
     Listings.skipCache := Some true |}.

(** *** Outcomes of the gateway call of [fetchNFTs] *)

(** Every row has a timestamp that [Date] can print. *)
Definition printable_rows (w : World) (ownerships : list Ownership.t) : Prop :=
  Forall (λ o, ∃ iso, Wallet.created_at w (Ownership.last_transaction_timestamp o) = Returns iso)
    ownerships.

(** *** The even split, row by row *)

(** The key under which a row writes its share. *)
Definition display_name (item : option string) : string :=
  Format.formatMarketplaceName (Js.str item).

(** The rows of [distributeEvenly] with their indices, counted from [k]. *)
Definition indexed_from (k : nat) (marketplaces : list (option string))
    : list (nat * option string) :=
  imap (λ index item, ((k + index)%nat, item)) marketplaces.

(** The sum of the shares of the rows [k .. k + len - 1] out of [n]. *)
Fixpoint shares_from (n : Z) (k len : nat) : Z :=
  match len with
  | O => 0
  | S len' => Stats.percentage n k + shares_from n (S k) len'
  end.

(** *** Sample inputs *)

Definition ok_response {A} (rows : list A) (count : option Z) : Gateway.Response A :=
  {| Gateway.ok := true;
     Gateway.json :=
       Returns {| Gateway.errors := false;
                  Gateway.data := Some {| Gateway.table := Gateway.Rows rows;
                                          Gateway.count := count |} |} |}.

(** A world without network: every request is rejected. *)
Definition offline_world : World :=
  {| fetch := Image.offline;
     listings_indexer := λ _, Throws "TypeError: Failed to fetch";
     wallet_indexer := λ _, Throws "TypeError: Failed to fetch";
     now_at_check := 1000;
     now_at_store := 2000;
     toISOString := λ s, Returns s;
     current_time_iso := "2024-01-01T00:00:00.000Z";
     random_id := λ _, "k3x9z" |}.

(** A world whose indexers answer every query with the same rows, at
    the given times of the clock. *)
Definition serving_world (listings : list Listing.t) (ownerships : list Ownership.t)
    (check store : Z) : World :=
  {| fetch := Image.offline;
     listings_indexer := λ _, Returns (ok_response listings None);
     wallet_indexer := λ _, Returns (ok_response ownerships None);
     now_at_check := check;
     now_at_store := store;
     toISOString := λ s, Returns s;
     current_time_iso := "2024-01-01T00:00:00.000Z";
     random_id := λ _, "k3x9z" |}.

Definition sample_token (name description : option string) : TokenData.t :=
  {| TokenData.token_uri := None; TokenData.token_name := name;
     TokenData.description := description; TokenData.cdn_asset_uris := None;
     TokenData.collection_name := None; TokenData.creator_address := None;
     TokenData.collection_id := None |}.

Definition sample_listing (name : option string) (token : option TokenData.t) : Listing.t :=
  {| Listing.token_name := name; Listing.token_data_id := Some "0xabc";
     Listing.seller := Some "0x1"; Listing.marketplace := Some "wapal_v1";
     Listing.listing_id := Some "7";
     Listing.last_transaction_timestamp := Some "2024-05-01T10:00:00";
     Listing.collection_id := None; Listing.collection_data := None;
     Listing.current_token_data := token |}.

(** A row with a name and a description, one with a name only, and one
    named only by its token data. *)
Definition complete_listing : Listing.t :=
  sample_listing (Some "Cool Cat #1") (Some (sample_token (Some "Cool Cat #1") (Some "A cat"))).
Definition bare_listing : Listing.t :=
  sample_listing (Some "Cool Cat #2") (Some (sample_token None None)).
Definition token_named_listing : Listing.t :=
  sample_listing None (Some (sample_token (Some "Foo") None)).

Definition sample_ownership : Ownership.t :=
  {| Ownership.token_data_id := Some "0xabc";
     Ownership.current_token_data := Some (sample_token (Some "Cool Cat #1") None);
     Ownership.last_transaction_timestamp := Ownership.Text "2024-05-01T10:00:00" |}.

Definition hiding_params (page pageSize : Z) : Listings.Params :=
  {| Listings.page := Some page; Listings.pageSize := Some pageSize;
     Listings.collection := None; Listings.marketplace := None;
     Listings.sortOrder := None; Listings.hideIncompleteMetadata := Some true;
     Listings.skipCache := None |}.

Definition wallet_params (address : string) (pageSize : Z) : Wallet.Params :=
  {| Wallet.address := Some address; Wallet.page := Some 1;
     Wallet.pageSize := Some pageSize; Wallet.collection := None;
     Wallet.marketplace := None; Wallet.sortOrder := None |}.

(** * The rest of the data layer and its callers

    Base names and marketplace configurations, the last step of the
    aggregator statistics, and the code of the components that meets
    the data layer: the NFT card, the wallet list and the refresh
    button of the dashboard.

    Further conventions.
    - An object literal used as a table is the list of its own
      properties in the order of their creation; a lookup by a name that
      [Object.prototype] has finds the inherited member.
    - Numbers are whole numbers, as page numbers, counts and shares
      are. *)

(** ** Object literals used as tables *)

Module JsObject.
Import Js.

(** The members that an object literal inherits from [Object.prototype]:
    looked up by name they are functions or objects, all truthy, none
    of them a string or an array. *)
Definition inherited : list string :=
  [ "constructor"; "hasOwnProperty"; "isPrototypeOf"; "propertyIsEnumerable";
    "toLocaleString"; "toString"; "valueOf"; "__proto__";
    "__defineGetter__"; "__defineSetter__"; "__lookupGetter__"; "__lookupSetter__" ].

Definition is_inherited (key : string) : bool := existsb (String.eqb key) inherited.

(** An object with its own properties in the order of their creation. *)
Definition t (V : Type) := list (string * V).

Fixpoint own {V} (o : t V) (key : string) : option V :=
  match o with
  | [] => None
  | (k, v) :: rest => if String.eqb k key then Some v else own rest key
  end.

(** [o[key] = v] for a key other than [__proto__]: an own property
    keeps its place, a new one goes last. *)
Fixpoint set {V} (o : t V) (key : string) (v : V) : t V :=
  match o with
  | [] => [(key, v)]
  | (k, old) :: rest =>
      if String.eqb k key then (k, v) :: rest else (k, old) :: set rest key v
  end.

(** The number that a string of digits writes. *)
Definition digit_value (c : ascii) : N := (code c - 48)%N.

Fixpoint number_from (n : N) (digits : string) : N :=
  match digits with
  | EmptyString => n
  | String c rest => number_from (10 * n + digit_value c)%N rest
  end.

Definition number_of (digits : string) : N := number_from 0%N digits.

(** The keys that are array indices: a canonical numeral below
    [2^32 - 1]. *)
Definition array_index (key : string) : option N :=
  match key with
  | EmptyString => None
  | String c rest =>
      if all_digits key
         && (negb (Ascii.eqb c "0") || String.eqb rest "")
         && (number_of key <? 4294967295)%N
      then Some (number_of key) else None
  end.

Fixpoint insert_index {V} (entry : N * (string * V)) (sorted : list (N * (string * V)))
    : list (N * (string * V)) :=
  match sorted with
  | [] => [entry]
  | e :: rest =>
      if (entry.1 <=? e.1)%N then entry :: sorted else e :: insert_index entry rest
  end.

(** [Object.entries(o)]: the array indices in ascending order, then the
    other keys in the order of their creation. *)
Definition is_array_index (key : string) : bool :=
  match array_index key with
  | Some _ => true
  | None => false
  end.

Definition entries {V} (o : t V) : list (string * V) :=
  (foldr insert_index []
     (omap (λ e, index ← array_index e.1; Some (index, e)) o)).*2
  ++ List.filter (λ e, negb (is_array_index e.1)) o.

End JsObject.

(** ** Base names for grouping ([getBaseMarketplaceName]) *)

Module Names.
Import Js.

(** [s.replace(/[-_]/g, '')] *)
Fixpoint remove_separators (s : string) : string :=
  match s with
  | EmptyString => EmptyString
  | String c t =>
      if Ascii.eqb c "-" || Ascii.eqb c "_" then remove_separators t
      else String c (remove_separators t)
  end.

Definition getBaseMarketplaceName (name : string) : string :=
  match name with
  | EmptyString => "unknown"
  | _ =>
      remove_separators
        (cut_at_match match_digits (cut_at_match match_v_digits (toLowerCase name)))
  end.

End Names.

(** ** Placeholder images for records ([processNFTImageUrl]) *)

Module Process.
Import Js.

(** [nft.image_url = url]: the same record with another image. *)
Definition with_image_url (nft : NFT.t) (url : string) : NFT.t :=
  {| NFT.id := NFT.id nft;
     NFT.name := NFT.name nft;
     NFT.description := NFT.description nft;
     NFT.image_url := url;
     NFT.marketplace := NFT.marketplace nft;
     NFT.collection_name := NFT.collection_name nft;
     NFT.creator_address := NFT.creator_address nft;
     NFT.owner_address := NFT.owner_address nft;
     NFT.created_at := NFT.created_at nft;
     NFT.listing_id := NFT.listing_id nft;
     NFT.collection_id := NFT.collection_id nft;
     NFT.token_uri := NFT.token_uri nft;
     NFT.hasCompleteMetadata := NFT.hasCompleteMetadata nft |}.

Definition processNFTImageUrl (nft : NFT.t) : NFT.t :=
  if Listings.nonempty (NFT.image_url nft)
     && negb (includes (NFT.image_url nft) "undefined")
  then nft
  else if negb (Listings.nonempty (NFT.image_url nft))
  then
    let placeholderName :=
      encodeURIComponent (if Listings.nonempty (NFT.name nft) then NFT.name nft else "NFT") in
    with_image_url nft ("https://via.placeholder.com/500x500?text=" +:+ placeholderName)
  else nft.

End Process.

(** ** The NFT card ([sanitizeText], [isSafeImageUrl], [getImageUrl]) *)

Module Card.
Import Js.

(** [s.replace(/c/g, replacement)] for a single character [c] *)
Fixpoint replace_char (c : ascii) (replacement : string) (s : string) : string :=
  match s with
  | EmptyString => EmptyString
  | String a t =>
      (if Ascii.eqb a c then replacement else String a EmptyString)
      +:+ replace_char c replacement t
  end.

Definition double_quote : ascii := ascii_of_N 34.

(** The five replacements, in the order of the source. *)
Definition sanitizeText (text : option string) : string :=
  if truthy text then
    replace_char "'" "&#039;"
      (replace_char double_quote "&quot;"
         (replace_char "&" "&amp;"
            (replace_char ">" "&gt;"
               (replace_char "<" "&lt;" (str text)))))
  else "".

Definition isSafeImageUrl (url : string) : bool :=
  startsWith url "https://"
  && negb (includes url "javascript:")
  && negb (includes url "data:").

(** [getImageUrl] of a card whose record has the given [image_url]. *)
Definition getImageUrl (image_url : string) : string :=
  match image_url with
  | EmptyString => "/public/fallback-nft.png"
  | _ => if isSafeImageUrl image_url then image_url else "/public/fallback-nft.png"
  end.

(** [colors[marketplace] || 'blue']; [None] is a value that is not a
    string. *)
Definition getMarketplaceColor (marketplace : string) : option string :=
  if String.eqb marketplace "OpenSea" then Some "blue"
  else if String.eqb marketplace "Magic Eden" then Some "purple"
  else if String.eqb marketplace "Blur" then Some "black"
  else if String.eqb marketplace "Topaz" then Some "green"
  else if String.eqb marketplace "Souffl3" then Some "orange"
  else if JsObject.is_inherited marketplace then None
  else Some "blue".

End Card.

(** ** The wallet list ([getUniqueWallets]) *)

Module Wallets.
Section unique.
Context {W K : Type} `{Countable K}.
(** [wallet.name] *)
Variable name : W → K.

(** One turn of the [forEach]: [uniqueWallets] and the keys of [walletMap]. *)
Definition visit (state : list W * gset K) (wallet : W) : list W * gset K :=
  if decide (name wallet ∈ state.2) then state
  else (state.1 ++ [wallet], {[name wallet]} ∪ state.2).

Definition getUniqueWallets (walletList : list W) : list W :=
  (foldl visit ([], ∅) walletList).1.

End unique.
End Wallets.

(** ** Marketplace configurations ([fetchMarketplaceConfigs]) *)

Module Configs.
Import Js.

Record MarketplaceConfig := {
  id : string;
  name : string;
  logo_url : string;
  website_url : string;
  is_connected : bool;
  supported_chains : list string;
  last_synced_at : string;
  rawValues : string;
}.

(** What the function reads from outside: the answer to its one query,
    whose rows are given by their [marketplace], and
    [new Date().toISOString()] at each reading of the clock, counted
    from 0. *)
Record Services := {
  marketplaces_indexer : outcome (Gateway.Response (option string));
  time_at : nat → string;
}.

Definition getDefaultMarketplaces (s : Services) : list MarketplaceConfig :=
  [ {| id := "1"; name := "TradePort";
       logo_url := "https://tradeport.io/logo.png"; website_url := "https://tradeport.io/";
       is_connected := true; supported_chains := ["Aptos"];
       last_synced_at := time_at s 0; rawValues := "tradeport_v1,tradeport_v2" |};
    {| id := "2"; name := "Bluemove";
       logo_url := "https://bluemove.io/logo.png"; website_url := "https://bluemove.io/";
       is_connected := true; supported_chains := ["Aptos"];
       last_synced_at := time_at s 1; rawValues := "bluemove" |};
    {| id := "3"; name := "Rarible";
       logo_url := "https://rarible.io/logo.png"; website_url := "https://rarible.io/";
       is_connected := true; supported_chains := ["Aptos"];
       last_synced_at := time_at s 2; rawValues := "rarible" |};
    {| id := "4"; name := "Wapal";
       logo_url := "https://wapal.io/logo.png"; website_url := "https://wapal.io/";
       is_connected := true; supported_chains := ["Aptos"];
       last_synced_at := time_at s 3; rawValues := "wapal" |} ].

Definition baseNameOf (marketplaceName : string) : string :=
  if includes (toLowerCase marketplaceName) "tradeport" then "tradeport"
  else Names.getBaseMarketplaceName marketplaceName.

(** One turn of the [forEach] over the rows.  A base name that is an
    inherited member is found truthy, is not given an array, and has no
    [includes] to call. *)
Definition group (groupedMarketplaces : JsObject.t (list string)) (item : option string)
    : outcome (JsObject.t (list string)) :=
  let marketplaceName := or_else item "unknown" in
  if includes (toLowerCase marketplaceName) "topaz" then Returns groupedMarketplaces
  else
    let baseName := baseNameOf marketplaceName in
    match JsObject.own groupedMarketplaces baseName with
    | Some versionNames =>
        if bool_decide (marketplaceName ∈ versionNames) then Returns groupedMarketplaces
        else Returns (JsObject.set groupedMarketplaces baseName
                        (versionNames ++ [marketplaceName]))
    | None =>
        if JsObject.is_inherited baseName
        then Throws "TypeError: groupedMarketplaces[baseName].includes is not a function"
        else Returns (JsObject.set groupedMarketplaces baseName [marketplaceName])
    end.

Fixpoint group_all (groupedMarketplaces : JsObject.t (list string))
    (marketplaceItems : list (option string)) : outcome (JsObject.t (list string)) :=
  match marketplaceItems with
  | [] => Returns groupedMarketplaces
  | item :: rest => grouped ← group groupedMarketplaces item; group_all grouped rest
  end.

(** The line terminators, which the [.] of a pattern does not match:
    LF, CR and the bytes of U+2028 and U+2029. *)
Fixpoint no_line_terminator (s : string) : bool :=
  match s with
  | EmptyString => true
  | String c rest =>
      negb ((code c =? 10)%N || (code c =? 13)%N)
      && negb (match s with
               | String a (String b (String d _)) =>
                   (code a =? 226)%N && (code b =? 128)%N
                   && ((code d =? 168)%N || (code d =? 169)%N)
               | _ => false
               end)
      && no_line_terminator rest
  end.

(** [_.*] against a whole string *)
Definition match_underscore_rest (s : string) : bool :=
  match s with
  | String u rest => Ascii.eqb u "_" && no_line_terminator rest
  | EmptyString => false
  end.

(** The [map] callback over the entries. *)
Definition toConfig (s : Services) (index : nat) (entry : string * list string)
    : MarketplaceConfig :=
  let baseName := entry.1 in
  let versionNames := entry.2 in
  let displayName := Format.formatMarketplaceName baseName in
  let rawValues :=
    if String.eqb baseName "tradeport" then "tradeport_v1,tradeport_v2"
    else Json.join_comma versionNames in
  let domainName := cut_at_match match_underscore_rest baseName in
  {| id := pretty (Z.of_nat index + 1);
     name := displayName;
     logo_url := "https://" +:+ domainName +:+ ".io/logo.png";
     website_url := "https://" +:+ domainName +:+ ".io/";
     is_connected := true;
     supported_chains := ["Aptos"];
     last_synced_at := time_at s index;
     rawValues := rawValues |}.

(** The body of the [try] block. *)
Definition fetch_configs (s : Services) : outcome (list MarketplaceConfig) :=
  response ← marketplaces_indexer s;
  if negb (Gateway.ok response) then Returns (getDefaultMarketplaces s)
  else
    body ← Gateway.json response;
    if Gateway.errors body then Returns (getDefaultMarketplaces s)
    else
      match from_option Gateway.table Gateway.Missing (Gateway.data body) with
      | Gateway.Missing => Returns (getDefaultMarketplaces s)
      (* a falsy value is replaced by [[]], a truthy one has no [forEach];
         the defaults either way *)
      | Gateway.NotAnArray => Throws "TypeError: marketplaceItems.forEach is not a function"
      | Gateway.Rows [] => Returns (getDefaultMarketplaces s)
      | Gateway.Rows marketplaceItems =>
          groupedMarketplaces ← group_all [] marketplaceItems;
          match groupedMarketplaces with
          | [] => Returns (getDefaultMarketplaces s)
          | _ => Returns (imap (toConfig s) (JsObject.entries groupedMarketplaces))
          end
      end.

(** The function returns in every case: its [catch] gives the
    defaults. *)
Definition fetchMarketplaceConfigs (s : Services) : list MarketplaceConfig :=
  match fetch_configs s with
  | Returns configs => configs
  | Throws _ => getDefaultMarketplaces s
  end.

End Configs.

(** ** The end of [fetchAggregatorStats]: the distribution of last resort *)

Module Aggregate.
Import Js.

Record AggregatorStats := {
  total_marketplaces : Z;
  total_active_listings : Z;
  total_value_usd : Z;
  marketplace_distribution : gmap string Z;
}.

(** [marketplaceDistribution[name] = percentage]: a number assigned to
    [__proto__] makes no property. *)
Definition set_share (marketplaceDistribution : gmap string Z) (name : string)
    (percentage : Z) : gmap string Z :=
  if String.eqb name "__proto__" then marketplaceDistribution
  else <[name := percentage]> marketplaceDistribution.

(** One turn of the [forEach] over the configurations; the shares are
    those of the even split. *)
Definition assign_config (n : Z) (marketplaceDistribution : gmap string Z)
    (entry : nat * Configs.MarketplaceConfig) : gmap string Z :=
  set_share marketplaceDistribution (Configs.name entry.2) (Stats.percentage n entry.1).

(** [if (Object.keys(marketplaceDistribution).length === 0 &&
    marketplaceConfigs.length > 0) { ... }] *)
Definition from_configs (marketplaceConfigs : list Configs.MarketplaceConfig)
    (marketplaceDistribution : gmap string Z) : gmap string Z :=
  if (size marketplaceDistribution =? 0)%nat && (0 <? length marketplaceConfigs)%nat
  then foldl (assign_config (Z.of_nat (length marketplaceConfigs))) marketplaceDistribution
         (imap (λ index marketplace, (index, marketplace)) marketplaceConfigs)
  else marketplaceDistribution.

Definition default_distribution : gmap string Z :=
  {[ "Tradeport" := 30; "Bluemove" := 30; "Rarible" := 20; "Wapal" := 20 ]}.

(** [if (Object.keys(marketplaceDistribution).length === 0) { ... }] *)
Definition or_default (marketplaceDistribution : gmap string Z) : gmap string Z :=
  if (size marketplaceDistribution =? 0)%nat then default_distribution
  else marketplaceDistribution.

(** [n || fallback] for a number *)
Definition or_number (n fallback : Z) : Z := if n =? 0 then fallback else n.

(** The statistics returned at the end of the [try] block, from the
    configurations and from what the queries before gave: the
    distribution, the count of listings and the value. *)
Definition realStats (marketplaceConfigs : list Configs.MarketplaceConfig)
    (marketplaceDistribution : gmap string Z) (totalActiveListings total_value_usd : Z)
    : AggregatorStats :=
  let distribution := or_default (from_configs marketplaceConfigs marketplaceDistribution) in
  {| total_marketplaces := Z.of_nat (size distribution);
     total_active_listings := or_number totalActiveListings 12000;
     total_value_usd := or_number total_value_usd 2000000;
     marketplace_distribution := distribution |}.

End Aggregate.

(** ** The refresh button of the dashboard ([handleRefresh], [loadListings]) *)

Module Dashboard.
Import Js.

(** The state that the listings tab reads; [listingsPage] is a whole
    number. *)
Record State := {
  listingsPage : Z;
  selectedMarketplace : string;
  searchCollection : string;
  sortOrder : string;
  hideIncompleteMetadata : bool;
}.

Definition pageSize : Z := 8.

(** [s || undefined] *)
Definition or_undefined (s : string) : option string :=
  match s with
  | EmptyString => None
  | _ => Some s
  end.

(** The argument of [fetchActiveListings] in [loadListings]. *)
Definition load_params (st : State) : Listings.Params :=
  {| Listings.page := Some (listingsPage st);
     Listings.pageSize := Some pageSize;
     Listings.collection := or_undefined (searchCollection st);
     Listings.marketplace := or_undefined (selectedMarketplace st);
     Listings.sortOrder := Some (sortOrder st);
     Listings.hideIncompleteMetadata := Some (hideIncompleteMetadata st);
     Listings.skipCache := Some false |}.

(** The argument of [invalidateListingsCache] in [handleRefresh], with
    its properties in the order of the source. *)
Definition refresh_params (st : State) : Json.object :=
  [ ("page", Json.Number (listingsPage st));
    ("pageSize", Json.Number pageSize);
    ("marketplace", Json.of_string (or_undefined (selectedMarketplace st)));
    ("collection", Json.of_string (or_undefined (searchCollection st)));
    ("sortOrder", Json.Str (sortOrder st));
    ("hideIncompleteMetadata", Json.Bool (hideIncompleteMetadata st)) ].

(** [handleRefresh] on the listings tab, as far as the cache goes. *)
Definition handleRefresh (st : State) (listingsCache : gmap string Cache.ListingsCache)
    : gmap string Cache.ListingsCache :=
  Cache.invalidateListingsCache (Some (refresh_params st)) listingsCache.

End Dashboard.

(** ** Definitions used to state the further properties *)

(** The characters that [sanitizeText] replaces. *)
Definition is_markup (c : ascii) : bool :=
  Ascii.eqb c "<" || Ascii.eqb c ">" || Ascii.eqb c Card.double_quote || Ascii.eqb c "'".

Definition is_colon (c : ascii) : bool := Ascii.eqb c ":".

(** The suffix [_v<digits>] that the formatters strip. *)
Definition version_suffix (digits : string) : string := "_v" +:+ digits.

(** The name has no version suffix of its own. *)
Definition unversioned (name : string) : Prop :=
  Js.cut_at_match Js.match_v_digits name = name.

Definition sample_nft (name image : string) : NFT.t :=
  {| NFT.id := "0xabc"; NFT.name := name; NFT.description := "";
     NFT.image_url := image; NFT.marketplace := "Aptos"; NFT.collection_name := "";
     NFT.creator_address := ""; NFT.owner_address := ""; NFT.created_at := "";
     NFT.listing_id := None; NFT.collection_id := None; NFT.token_uri := None;
     NFT.hasCompleteMetadata := None |}.

Definition sample_state (marketplace collection : string) : Dashboard.State :=
  {| Dashboard.listingsPage := 1; Dashboard.selectedMarketplace := marketplace;
     Dashboard.searchCollection := collection; Dashboard.sortOrder := "timestamp_desc";
     Dashboard.hideIncompleteMetadata := false |}.

(** A step that returns no [ipfs://] address. *)
Definition rewritten (s : Image.Step) : Prop :=
  ∀ v, s = Returns (Some v) → Js.startsWith v "ipfs://" = false.

(** A name as the title-casing leaves it, without hyphen or underscore. *)
Definition titled (t : string) : bool :=
  String.eqb (title_from true t) t && every (λ c, negb (is_separator c)) t.

(** The last character of the string is a colon. *)
Fixpoint ends_in_colon (p : string) : bool :=
  match p with
  | EmptyString => false
  | String c EmptyString => is_colon c
  | String _ t => ends_in_colon t
  end.

(** Two argument records of [fetchActiveListings] that differ at most in
    [page] and [skipCache]. *)
Definition same_but_page (p1 p2 : Listings.Params) : Prop :=
  Listings.pageSize p1 = Listings.pageSize p2
  ∧ Listings.collection p1 = Listings.collection p2
  ∧ Listings.marketplace p1 = Listings.marketplace p2
  ∧ Listings.sortOrder p1 = Listings.sortOrder p2
  ∧ Listings.hideIncompleteMetadata p1 = Listings.hideIncompleteMetadata p2.

Definition marketplace_params (page : Z) (marketplace : string) : Listings.Params :=
  {| Listings.page := Some page; Listings.pageSize := Some 8;
     Listings.collection := None; Listings.marketplace := Some marketplace;
     Listings.sortOrder := None; Listings.hideIncompleteMetadata := None;
     Listings.skipCache := None |}.

(** The record without the two fields that can hold a value drawn or
    read during the call: the placeholder of a row without token name
    holds a draw of [Math.random], and the time of a row without
    timestamp is that of the clock. *)
Definition ungenerated (nft : NFT.t) : NFT.t :=
  {| NFT.id := NFT.id nft;
     NFT.name := NFT.name nft;
     NFT.description := NFT.description nft;
     NFT.image_url := "";
     NFT.marketplace := NFT.marketplace nft;
     NFT.collection_name := NFT.collection_name nft;
     NFT.creator_address := NFT.creator_address nft;
     NFT.owner_address := NFT.owner_address nft;
     NFT.created_at := "";
     NFT.listing_id := NFT.listing_id nft;
     NFT.collection_id := NFT.collection_id nft;
     NFT.token_uri := NFT.token_uri nft;
     NFT.hasCompleteMetadata := NFT.hasCompleteMetadata nft |}.

(** Two runs in which the upstream gives the query the same answer,
    over the same network and with the same [Date]; the clock and the
    draws of [Math.random] are free. *)
Definition answers_alike (w1 w2 : World) (query : Gateway.ListingsQuery) : Prop :=
  listings_indexer w1 query = listings_indexer w2 query
  ∧ fetch w1 = fetch w2
  ∧ toISOString w1 = toISOString w2.

(** The two runs draw the same identifiers and read the same time. *)
Definition same_draws (w1 w2 : World) : Prop :=
  random_id w1 = random_id w2 ∧ current_time_iso w1 = current_time_iso w2.

(** Two outcomes of one kind, whose values are related when they are
    values. *)
Definition alike {A} (R : A → A → Prop) (x y : outcome A) : Prop :=
  match x, y with
  | Returns a, Returns b => R a b
  | Throws _, Throws _ => True
  | _, _ => False
  end.

(** The same upstream and network at a later time, with other draws. *)
Definition redrawn (w : World) : World :=
  {| fetch := fetch w;
     listings_indexer := listings_indexer w;
     wallet_indexer := wallet_indexer w;
     now_at_check := now_at_check w + 60000;
     now_at_store := now_at_store w + 60000;
     toISOString := toISOString w;
     current_time_iso := "2024-01-01T00:01:00.000Z";
     random_id := λ _, "q7w2m" |}.

(** The page and the page size are safe integers, which
    [JSON.stringify] writes with all their digits. *)
Definition safe_integer (n : Z) : Prop := -9007199254740991 ≤ n ≤ 9007199254740991.

Definition written_in_full (p : Listings.Params) : Prop :=
  safe_integer (Listings.the_page p) ∧ safe_integer (Listings.the_pageSize p).

(** The wallet tab with a marketplace selected. *)
Definition wallet_marketplace_params (address marketplace : string) : Wallet.Params :=
  {| Wallet.address := Some address; Wallet.page := Some 1;
     Wallet.pageSize := Some 8; Wallet.collection := None;
     Wallet.marketplace := Some marketplace; Wallet.sortOrder := None |}.

(** The marketplace of each row as [fetchMarketplaceConfigs] reads it. *)
Definition marketplaceNames (rows : list (option string)) : list string :=
  (λ item, Js.or_else item "unknown") <$> rows.

(** The names that the Topaz test lets through, and their base names. *)
Definition keptNames (rows : list (option string)) : list string :=
  List.filter (λ n, negb (Js.includes (Js.toLowerCase n) "topaz")) (marketplaceNames rows).

Definition baseNames (rows : list (option string)) : list string :=
  Configs.baseNameOf <$> keptNames rows.

(** The query of [fetchMarketplaceConfigs] is answered with [rows]. *)
Definition answers (s : Configs.Services) (rows : list (option string)) : Prop :=
  ∃ response body d,
    Configs.marketplaces_indexer s = Returns response
    ∧ Gateway.ok response = true
    ∧ Gateway.json response = Returns body
    ∧ Gateway.errors body = false
    ∧ Gateway.data body = Some d
    ∧ Gateway.table d = Gateway.Rows rows.

(** The ways the query of [fetchMarketplaceConfigs] fails to give a
    marketplace: no answer, an answer that is not [ok], a body that is
    not JSON or reports errors, no rows, only Topaz rows, or a row whose
    base name is an inherited member of the grouping object. *)
Inductive configs_fail (s : Configs.Services) : Prop :=
  | configs_transport e :
      Configs.marketplaces_indexer s = Throws e → configs_fail s
  | configs_http response :
      Configs.marketplaces_indexer s = Returns response →
      Gateway.ok response = false → configs_fail s
  | configs_undecodable response e :
      Configs.marketplaces_indexer s = Returns response →
      Gateway.ok response = true →
      Gateway.json response = Throws e → configs_fail s
  | configs_errors response body :
      Configs.marketplaces_indexer s = Returns response →
      Gateway.ok response = true →
      Gateway.json response = Returns body →
      Gateway.errors body = true → configs_fail s
  | configs_no_data response body :
      Configs.marketplaces_indexer s = Returns response →
      Gateway.ok response = true →
      Gateway.json response = Returns body →
      Gateway.errors body = false →
      Gateway.data body = None → configs_fail s
  | configs_no_table response body d :
      Configs.marketplaces_indexer s = Returns response →
      Gateway.ok response = true →
      Gateway.json response = Returns body →
      Gateway.errors body = false →
      Gateway.data body = Some d →
      Gateway.table d = Gateway.Missing ∨ Gateway.table d = Gateway.NotAnArray →
      configs_fail s
  | configs_only_topaz rows :
      answers s rows → baseNames rows = [] → configs_fail s
  | configs_inherited_name rows base :
      answers s rows → base ∈ baseNames rows → JsObject.is_inherited base = true →
      configs_fail s.

(** Services that answer the query with the given rows. *)
Definition serving_rows (rows : list (option string)) : Configs.Services :=
  {| Configs.marketplaces_indexer := Returns (ok_response rows None);
     Configs.time_at := λ _, "2024-01-01T00:00:00.000Z" |}.

(** No upper-case letter, hyphen or underscore. *)
Definition is_canonical (c : ascii) : bool := negb (Js.is_upper c) && negb (is_separator c).

(** The properties that [JSON.stringify] writes: those whose value is
    not [undefined]. *)
Definition is_defined (p : string * Json.value) : bool :=
  match p.2 with
  | Json.Undefined => false
  | _ => true
  end.

Definition defined (o : Json.object) : Json.object := List.filter is_defined o.

(** What is written for a property that is written. *)
Definition render (p : string * Json.value) : string :=
  Json.quote p.1 +:+ ":" +:+ default "" (Json.stringify_value p.2).

(** The characters of a numeral, and those that follow a value. *)
Definition is_number_char (c : ascii) : bool := Js.is_digit c || Ascii.eqb c "-".
Definition is_terminator (c : ascii) : bool := Ascii.eqb c "," || Ascii.eqb c "}".

(** Reading back the first character of an escaped string: the inverse
    of [Json.escape_char]. *)
Definition hex_value (c : ascii) : N :=
  if Js.is_digit c then (Js.code c - 48)%N else (Js.code c - 87)%N.

Definition unescape_char (s : string) : option (ascii * string) :=
  match s with
  | EmptyString => None
  | String c rest =>
      if (Js.code c =? 34)%N then None
      else if (Js.code c =? 92)%N then
        match rest with
        | EmptyString => None
        | String x rest' =>
            if (Js.code x =? 34)%N then Some (ascii_of_N 34, rest')
            else if (Js.code x =? 92)%N then Some (ascii_of_N 92, rest')
            else if Ascii.eqb x "b" then Some (ascii_of_N 8, rest')
            else if Ascii.eqb x "f" then Some (ascii_of_N 12, rest')
            else if Ascii.eqb x "n" then Some (ascii_of_N 10, rest')
            else if Ascii.eqb x "r" then Some (ascii_of_N 13, rest')
            else if Ascii.eqb x "t" then Some (ascii_of_N 9, rest')
            else if Ascii.eqb x "u" then
              match rest' with
              | String _ (String _ (String h (String l rest''))) =>
                  Some (ascii_of_N (16 * hex_value h + hex_value l), rest'')
              | _ => None
              end
            else None
        end
      else Some (c, rest)
  end.

(** The values of which the cache key is made. *)
Definition effective (p : Listings.Params)
    : Z * Z * option string * option string * string * bool :=
  (Listings.the_page p, Listings.the_pageSize p, Listings.collection p,
   Listings.marketplace p, Listings.the_sortOrder p, Listings.hiding p).

(** * Properties *)

(** ** The definitions at work *)

Example format_tradeport_v2 : Format.formatMarketplaceName "tradeport_v2" = "TradePort".
Proof. reflexivity. Qed.

Example format_wapal_v1 : Format.formatMarketplaceName "wapal_v1" = "Wapal".
Proof. reflexivity. Qed.

Example format_two_words : Format.formatMarketplaceName "souffl3-market_2" = "Souffl3 Market".
Proof. reflexivity. Qed.

Example encode_space : Js.encodeURIComponent "Cool Cat #1" = "Cool%20Cat%20%231".
Proof. reflexivity. Qed.

Example ipfs_rewrite : Image.convertIpfsUrl "ipfs://Qm123/1.png" = "https://ipfs.io/ipfs/Qm123/1.png".
Proof. reflexivity. Qed.

Example best_image_asset :
  Image.getBestImageUrl Image.offline (Some (Image.only_asset "ipfs://Qm/a.PNG")) None
  = Returns "https://ipfs.io/ipfs/Qm/a.PNG".
Proof. reflexivity. Qed.

Example stringify_params :
  Json.stringify [("page", Json.Number 2); ("collection", Json.Undefined);
                  ("sortOrder", Json.Str "price_asc"); ("hideIncompleteMetadata", Json.Bool false)]
  = "{" +:+ Json.dquote +:+ "page" +:+ Json.dquote +:+ ":2,"
        +:+ Json.dquote +:+ "sortOrder" +:+ Json.dquote +:+ ":"
        +:+ Json.dquote +:+ "price_asc" +:+ Json.dquote +:+ ","
        +:+ Json.dquote +:+ "hideIncompleteMetadata" +:+ Json.dquote +:+ ":false}".
Proof. vm_compute. reflexivity. Qed.

Example cache_key_of_defaults :
  Listings.cacheKey Listings.no_params
  = "{" +:+ Json.quote "page" +:+ ":1," +:+ Json.quote "pageSize" +:+ ":10,"
        +:+ Json.quote "sortOrder" +:+ ":" +:+ Json.quote "timestamp_desc" +:+ ","
        +:+ Json.quote "hideIncompleteMetadata" +:+ ":false}".
Proof. vm_compute. reflexivity. Qed.

Example slice_second_page : js_slice [1; 2; 3; 4; 5] 2 4 = [3; 4].
Proof. reflexivity. Qed.

Example slice_from_the_end : js_slice [1; 2; 3; 4; 5] (-4) (-2) = [2; 3].
Proof. reflexivity. Qed.

Example format_topaz : Format.formatMarketplaceName "TOPAZ_v2" = "Topaz (Deprecated)".
Proof. reflexivity. Qed.

Example even_split_three :
  Stats.distribution_without_sales [Some "wapal"; Some "rarible"; Some "mercato"]
  = <["Wapal" := 33]> (<["Rarible" := 33]> (<["Mercato" := 34]> ∅)).
Proof. vm_compute. reflexivity. Qed.

(** ** Characters and strings *)

Section string_facts.
Import Js.

Ltac by_chars c := destruct c as [[] [] [] [] [] [] [] []].

Lemma lower_upper_char c : lower_char (upper_char c) = lower_char c.
Proof. by_chars c; reflexivity. Qed.

Lemma lower_lower_char c : lower_char (lower_char c) = lower_char c.
Proof. by_chars c; reflexivity. Qed.

Lemma upper_upper_char c : upper_char (upper_char c) = upper_char c.
Proof. by_chars c; reflexivity. Qed.

Lemma space_upper_char c : Ascii.eqb (upper_char c) " " = Ascii.eqb c " ".
Proof. by_chars c; reflexivity. Qed.

Lemma space_lower_char c : Ascii.eqb (lower_char c) " " = Ascii.eqb c " ".
Proof. by_chars c; reflexivity. Qed.

Lemma separator_upper_char c : is_separator (upper_char c) = is_separator c.
Proof. by_chars c; reflexivity. Qed.

Lemma separator_lower_char c : is_separator (lower_char c) = is_separator c.
Proof. by_chars c; reflexivity. Qed.

Lemma separator_sep_char c : is_separator (sep_char c) = false.
Proof. by_chars c; reflexivity. Qed.

Lemma sep_char_id c : is_separator c = false → sep_char c = c.
Proof. unfold sep_char, is_separator. by intros ->. Qed.

Lemma lower_sep_char c : lower_char (sep_char c) = sep_char (lower_char c).
Proof. by_chars c; reflexivity. Qed.

Lemma sep_char_visible a b :
  is_space a = false → Ascii.eqb a (sep_char b) = true → Ascii.eqb a b = true.
Proof.
  unfold sep_char, is_space. intros Ha.
  destruct (Ascii.eqb b "-" || Ascii.eqb b "_"); [|done].
  intros Hb. by rewrite Hb in Ha.
Qed.

Lemma append_cons c s t : String c s +:+ t = String c (s +:+ t).
Proof. reflexivity. Qed.

Lemma map_chars_append f a b : map_chars f (a +:+ b) = map_chars f a +:+ map_chars f b.
Proof. induction a as [|c a IH]; [done | simpl; by rewrite append_cons, IH]. Qed.

Lemma startsWith_append s rest p : startsWith s p = true → startsWith (s +:+ rest) p = true.
Proof.
  revert s. induction p as [|a p IH]; intros [|b s]; simpl; try done.
  destruct (Ascii.eqb a b); [apply IH | done].
Qed.

Lemma includes_append s rest p : includes s p = true → includes (s +:+ rest) p = true.
Proof.
  induction s as [|b s IH]; simpl.
  - rewrite orb_false_r. intros H. destruct p; [|done].
    destruct rest; reflexivity.
  - intros [H|H]%orb_true_iff; apply orb_true_iff.
    + left. by apply (startsWith_append (String b s)).
    + right. by apply IH.
Qed.

Lemma startsWith_separators s p :
  every (λ c, negb (is_space c)) p = true →
  startsWith (separators_to_spaces s) p = true → startsWith s p = true.
Proof.
  revert s. induction p as [|a p IH]; intros [|b s]; simpl; try done.
  intros [Ha Hp]%andb_true_iff. apply negb_true_iff in Ha.
  destruct (Ascii.eqb a (sep_char b)) eqn:E; [|done].
  rewrite (sep_char_visible a b Ha E). by apply IH.
Qed.

Lemma includes_separators s p :
  every (λ c, negb (is_space c)) p = true →
  includes (separators_to_spaces s) p = true → includes s p = true.
Proof.
  intros Hp. induction s as [|b s IH]; simpl.
  - by destruct p.
  - intros [H|H]%orb_true_iff; apply orb_true_iff.
    + left. by apply (startsWith_separators (String b s)).
    + right. by apply IH.
Qed.

(** A cut leaves a prefix of the string. *)
Lemma cut_at_match_prefix m s : ∃ rest, s = cut_at_match m s +:+ rest.
Proof.
  induction s as [|c s [rest IH]]; simpl.
  - exists "". by destruct (m "").
  - destruct (m (String c s)).
    + by exists (String c s).
    + exists rest. rewrite append_cons. by rewrite <- IH.
Qed.

Lemma includes_cut m s p :
  includes (toLowerCase (cut_at_match m s)) p = true → includes (toLowerCase s) p = true.
Proof.
  destruct (cut_at_match_prefix m s) as [rest E]. intros H.
  rewrite E. unfold toLowerCase. rewrite map_chars_append. by apply includes_append.
Qed.

Lemma lower_separators s :
  toLowerCase (separators_to_spaces s) = separators_to_spaces (toLowerCase s).
Proof.
  induction s as [|c s IH]; simpl; [done|].
  unfold toLowerCase, separators_to_spaces in *. simpl. by rewrite IH, lower_sep_char.
Qed.

(** Where no underscore is left, neither suffix pattern matches. *)
Lemma cut_v_digits_id s :
  every (λ c, negb (is_separator c)) s = true → cut_at_match match_v_digits s = s.
Proof.
  induction s as [|c s IH]; simpl; [done|].
  intros [Hc Hs]%andb_true_iff. rewrite (IH Hs).
  apply negb_true_iff in Hc. unfold is_separator in Hc.
  apply orb_false_iff in Hc as [_ Hc]. rewrite Hc. by destruct s.
Qed.

Lemma cut_digits_id s :
  every (λ c, negb (is_separator c)) s = true → cut_at_match match_digits s = s.
Proof.
  induction s as [|c s IH]; simpl; [done|].
  intros [Hc Hs]%andb_true_iff. rewrite (IH Hs).
  apply negb_true_iff in Hc. unfold is_separator in Hc.
  apply orb_false_iff in Hc as [_ Hc]. by rewrite Hc.
Qed.

Lemma separators_id s :
  every (λ c, negb (is_separator c)) s = true → separators_to_spaces s = s.
Proof.
  induction s as [|c s IH]; simpl; [done|].
  intros [Hc Hs]%andb_true_iff. apply negb_true_iff in Hc.
  unfold separators_to_spaces in *. simpl. by rewrite (IH Hs), sep_char_id.
Qed.

Lemma separators_clean s :
  every (λ c, negb (is_separator c)) (separators_to_spaces s) = true.
Proof.
  induction s as [|c s IH]; simpl; [done|].
  rewrite separator_sep_char. exact IH.
Qed.

Lemma strip_suffixes_id s :
  every (λ c, negb (is_separator c)) s = true → Format.strip_suffixes s = s.
Proof.
  intros H. unfold Format.strip_suffixes.
  by rewrite (cut_v_digits_id s H), (cut_digits_id s H), (separators_id s H).
Qed.

End string_facts.

(** ** Marketplace display names *)

Section format_facts.
Import Js Format.

Lemma split_space_nonempty s : split_space s ≠ [].
Proof.
  induction s as [|c s IH]; simpl; [done|].
  destruct (Ascii.eqb c " "); [done|]. by destruct (split_space s).
Qed.

Lemma join_space_cons c w rest :
  join_space (String c w :: rest) = String c (join_space (w :: rest)).
Proof. by destruct rest. Qed.

Lemma word_case_cons start c w :
  word_case start (String c w)
  = String (if start then upper_char c else lower_char c) (word_case false w).
Proof. by destruct start. Qed.

(** Splitting into words, capitalizing each and joining them again is
    the character-wise title-casing. *)
Lemma join_capitalize_split start s :
  join_space (match split_space s with
              | w :: ws => word_case start w :: map capitalize ws
              | [] => []
              end) = title_from start s.
Proof.
  revert start. induction s as [|c s IH]; intros start.
  - by destruct start.
  - simpl. destruct (Ascii.eqb c " ") eqn:Hc.
    + apply Ascii.eqb_eq in Hc as ->. specialize (IH true).
      destruct (split_space s) as [|w ws] eqn:E; [by destruct (split_space_nonempty s)|].
      simpl in *. rewrite <- IH. by destruct start.
    + specialize (IH false).
      destruct (split_space s) as [|w ws] eqn:E; [by destruct (split_space_nonempty s)|].
      by rewrite word_case_cons, join_space_cons, IH.
Qed.

Lemma title_case_words s :
  join_space (map capitalize (split_space s)) = title_from true s.
Proof.
  rewrite <- join_capitalize_split.
  by destruct (split_space s).
Qed.

Lemma title_from_idempotent start s :
  title_from start (title_from start s) = title_from start s.
Proof.
  revert start. induction s as [|c s IH]; intros start; simpl; [done|].
  destruct (Ascii.eqb c " ") eqn:Hc; simpl.
  - by rewrite Hc, IH.
  - destruct start.
    + by rewrite space_upper_char, Hc, upper_upper_char, IH.
    + by rewrite space_lower_char, Hc, lower_lower_char, IH.
Qed.

Lemma lower_title_from start s : toLowerCase (title_from start s) = toLowerCase s.
Proof.
  revert start. induction s as [|c s IH]; intros start; simpl; [done|].
  unfold toLowerCase in *.
  destruct (Ascii.eqb c " "); simpl; rewrite IH; [done|].
  destruct start; by rewrite ?lower_upper_char, ?lower_lower_char.
Qed.

Lemma title_from_clean start s :
  every (λ c, negb (is_separator c)) s = true →
  every (λ c, negb (is_separator c)) (title_from start s) = true.
Proof.
  revert start. induction s as [|c s IH]; intros start; simpl; [done|].
  intros [Hc Hs]%andb_true_iff.
  destruct (Ascii.eqb c " "); simpl; rewrite IH by done.
  - by rewrite Hc.
  - destruct start; by rewrite ?separator_upper_char, ?separator_lower_char, Hc.
Qed.

Lemma format_plain name :
  name ≠ "" → plain name = true →
  formatMarketplaceName name = title_from true (strip_suffixes name).
Proof.
  intros Hne Hp. unfold plain in Hp.
  apply andb_true_iff in Hp as [[H1 H2]%andb_true_iff H3].
  apply negb_true_iff in H1, H2, H3.
  unfold formatMarketplaceName. destruct name; [done|].
  by rewrite H1, H2, H3, title_case_words.
Qed.

(** A vendor fragment found in the formatted name was already in the
    raw name. *)
Lemma includes_formatted name p :
  every (λ c, negb (is_space c)) p = true →
  includes (toLowerCase (title_from true (strip_suffixes name))) p = true →
  includes (toLowerCase name) p = true.
Proof.
  intros Hp. rewrite lower_title_from. unfold strip_suffixes.
  rewrite lower_separators. intros H%includes_separators; [|done].
  fold (toLowerCase (cut_at_match match_digits (cut_at_match match_v_digits name))) in H.
  by apply includes_cut, includes_cut in H.
Qed.

Lemma plain_formatted name :
  plain name = true → plain (title_from true (strip_suffixes name)) = true.
Proof.
  unfold plain. intros [[H1 H2]%andb_true_iff H3]%andb_true_iff.
  apply negb_true_iff in H1, H2, H3.
  repeat (apply andb_true_iff; split); apply negb_true_iff;
    apply not_true_is_false; intros H;
    (apply includes_formatted in H; [congruence | done]).
Qed.

Lemma plain_cases name :
  plain name = false →
  formatMarketplaceName name = "Unknown"
  ∨ formatMarketplaceName name = "Topaz (Deprecated)"
  ∨ formatMarketplaceName name = "TradePort"
  ∨ formatMarketplaceName name = "Bluemove".
Proof.
  unfold plain, formatMarketplaceName. destruct name; [by left|].
  destruct (includes (toLowerCase (String a name)) "topaz"); [by right; left|].
  destruct (includes (toLowerCase (String a name)) "tradeport"); [by right; right; left|].
  destruct (includes (toLowerCase (String a name)) "bluemove"); [by right; right; right|].
  done.
Qed.

End format_facts.

(** ** Image resolution *)

Section image_facts.
Import Js Image.

Lemma read_image_field_spec m : read_image_field m = Returns (first_image_field m).
Proof.
  unfold read_image_field, first_image_field, when, returns.
  destruct (truthy (image m)); [done|].
  destruct (truthy (image_url m)); [done|].
  destruct (truthy (imageUrl m)); [done|].
  destruct (truthy (animation_url m)); [done|].
  by destruct (truthy (animationUrl m)).
Qed.

(** The [try]/[catch] block never lets an exception out: it gives
    the image of the linked document, or nothing. *)
Lemma fetch_linked_json_spec fetch url :
  fetch_linked_json fetch url = Returns (linked_image fetch url).
Proof.
  unfold fetch_linked_json, linked_image.
  destruct (fetch url) as [response|e]; simpl; [|done].
  destruct (ok response); [|done].
  destruct (json response) as [m|e]; simpl; [|done].
  by rewrite read_image_field_spec.
Qed.

Lemma quiet_when guard s : quiet s → quiet (when guard s).
Proof. destruct guard; [done|]. by exists None. Qed.

Lemma quiet_and_then s next : quiet s → quiet next → quiet (s >>> next).
Proof. intros [[u|] ->] Hn; simpl; [by eexists | done]. Qed.

Lemma quiet_returns u : quiet (returns u).
Proof. by eexists. Qed.

Lemma quiet_raw_image_step raw : quiet (raw_image_step raw).
Proof. unfold raw_image_step. repeat case_match; apply quiet_returns. Qed.

Lemma quiet_fetch_linked_json fetch url : quiet (fetch_linked_json fetch url).
Proof. rewrite fetch_linked_json_spec. by eexists. Qed.

Lemma getBestImageUrl_returns fetch cdnAssetUris token_uri :
  ∃ url, getBestImageUrl fetch cdnAssetUris token_uri = Returns url.
Proof.
  unfold getBestImageUrl. destruct cdnAssetUris as [u|]; [|by eexists].
  match goal with
  | |- ∃ url, mbind _ ?chain = _ => assert (quiet chain) as [r ->]
  end.
  { repeat (apply quiet_and_then || apply quiet_when);
      auto using quiet_returns, quiet_raw_image_step, quiet_fetch_linked_json. }
  by eexists.
Qed.

Lemma no_direct_source_inv u :
  no_direct_source u = true →
  truthy (cdn_image_uri u) = false ∧ truthy (raw_image_uri u) = false
  ∧ truthy (cdn_animation_uri u) = false ∧ truthy (raw_animation_uri u) = false
  ∧ (truthy (asset_uri u) && is_image_name (toLowerCase (str (asset_uri u)))) = false.
Proof.
  unfold no_direct_source. rewrite !andb_true_iff, !negb_true_iff. tauto.
Qed.

(** Without a direct source, the result is the first admitted linked
    document that yields an image, and else the last resort. *)
Lemma getBestImageUrl_linked fetch u token_uri :
  no_direct_source u = true →
  getBestImageUrl fetch (Some u) token_uri
  = Returns (resolve_linked fetch (admitted_sources u token_uri) u).
Proof.
  intros (H1 & H2 & H3 & H4 & H5)%no_direct_source_inv.
  unfold getBestImageUrl, resolve_linked, admitted_sources, last_resort.
  rewrite H1, H2, H3, H4, !fetch_linked_json_spec. simpl.
  destruct (truthy (asset_uri u)) eqn:Ha; simpl in *.
  - rewrite H5. simpl.
    destruct (truthy (cdn_json_uri u)); simpl;
      destruct (is_json_name (toLowerCase (str (asset_uri u)))); simpl;
      rewrite ?andb_false_r, ?andb_true_r; simpl;
      repeat (case_match; simpl; try done).
  - destruct (truthy (cdn_json_uri u)); simpl;
      rewrite ?orb_true_r, ?andb_true_r; simpl;
      repeat (case_match; simpl; try done).
Qed.

(** Step 5: an asset URI with an image extension is the result. *)
Lemma getBestImageUrl_asset fetch a token_uri :
  is_image_name (toLowerCase a) = true →
  getBestImageUrl fetch (Some (only_asset a)) token_uri = Returns (convertIpfsUrl a).
Proof.
  intros H. destruct a as [|c a]; [done|].
  unfold getBestImageUrl, only_asset, when.
  cbn [cdn_image_uri raw_image_uri cdn_animation_uri raw_animation_uri asset_uri
       truthy str default from_option id and_then].
  by rewrite H.
Qed.

(** Step 6 on the CDN JSON URI: [image_url] is read when the document
    has no [image]. *)
Lemma getBestImageUrl_cdn_json fetch j m token_uri :
  j ≠ "" →
  fetch j = Returns {| ok := true; json := Returns m |} →
  truthy (image m) = false →
  truthy (image_url m) = true →
  getBestImageUrl fetch (Some (only_cdn_json j)) token_uri
  = Returns (convertIpfsUrl (str (image_url m))).
Proof.
  intros Hj Hf Hi Hu. rewrite getBestImageUrl_linked by done.
  unfold resolve_linked, admitted_sources. simpl.
  destruct j as [|c j]; [done|]. simpl.
  unfold linked_image at 1. rewrite Hf. simpl.
  unfold first_image_field. by rewrite Hi, Hu.
Qed.

Lemma endsWith_refl s : endsWith s s = true.
Proof. destruct s; cbn [endsWith]; by rewrite String.eqb_refl. Qed.

(** Two endings of one string: one of them ends the other. *)
Lemma endsWith_comparable s p q :
  endsWith s p = true → endsWith s q = true → endsWith p q = true ∨ endsWith q p = true.
Proof.
  induction s as [|c s IH]; cbn [endsWith].
  - rewrite !orb_false_r. intros <-%String.eqb_eq <-%String.eqb_eq. by left.
  - intros [<-%String.eqb_eq|Hp]%orb_true_iff [<-%String.eqb_eq|Hq]%orb_true_iff.
    + left. apply endsWith_refl.
    + left. cbn [endsWith]. apply orb_true_iff. by right.
    + right. cbn [endsWith]. apply orb_true_iff. by right.
    + by apply IH.
Qed.

Lemma json_name_not_image a : is_json_name a = true → is_image_name a = false.
Proof.
  unfold is_json_name, is_image_name. intros Hj.
  repeat (apply orb_false_iff; split);
    apply not_true_is_false; intros Hi;
    by destruct (endsWith_comparable _ _ _ Hj Hi).
Qed.

(** Step 6 on an asset URI with a [.json] name, without CDN JSON URI. *)
Lemma getBestImageUrl_asset_json fetch a m token_uri :
  is_json_name (toLowerCase a) = true →
  fetch (convertIpfsUrl a) = Returns {| ok := true; json := Returns m |} →
  truthy (image m) = false →
  truthy (image_url m) = true →
  getBestImageUrl fetch (Some (only_asset a)) token_uri
  = Returns (convertIpfsUrl (str (image_url m))).
Proof.
  intros Ha Hf Hi Hu.
  assert (truthy (Some a) = true) as Hne by by destruct a.
  rewrite getBestImageUrl_linked.
  - unfold resolve_linked, admitted_sources.
    cbn [cdn_json_uri asset_uri only_asset str default from_option id].
    rewrite Hne, Ha. cbn [truthy negb andb app first_linked_image].
    unfold linked_image at 1. rewrite Hf. simpl.
    unfold first_image_field. by rewrite Hi, Hu.
  - unfold no_direct_source.
    cbn [cdn_image_uri raw_image_uri cdn_animation_uri raw_animation_uri asset_uri
         only_asset str default from_option id].
    by rewrite (json_name_not_image _ Ha), andb_false_r.
Qed.

(** Step 6 on the token URI of a record without any URI of its own. *)
Lemma getBestImageUrl_token_uri fetch t m :
  t ≠ "" →
  fetch (convertIpfsUrl t) = Returns {| ok := true; json := Returns m |} →
  truthy (image m) = false →
  truthy (image_url m) = true →
  getBestImageUrl fetch (Some no_uris) (Some t)
  = Returns (convertIpfsUrl (str (image_url m))).
Proof.
  intros Ht Hf Hi Hu. rewrite getBestImageUrl_linked by done.
  unfold resolve_linked, admitted_sources.
  assert (truthy (Some t) = true) as -> by by destruct t.
  cbn [cdn_json_uri asset_uri no_uris str default from_option id truthy negb andb orb app
       first_linked_image].
  unfold linked_image. rewrite Hf. simpl.
  unfold first_image_field. by rewrite Hi, Hu.
Qed.

Lemma getBestImageUrl_nothing fetch token_uri :
  truthy token_uri = false →
  getBestImageUrl fetch (Some no_uris) token_uri = Returns "".
Proof.
  intros Ht. rewrite getBestImageUrl_linked by done.
  unfold resolve_linked, admitted_sources. simpl. by rewrite Ht.
Qed.

End image_facts.

(** ** The listings cache *)

Section cache_facts.
Import Cache.

Lemma lookup_hit (cache : gmap string ListingsCache) key now entry :
  cache !! key = Some entry →
  now - timestamp entry < CACHE_EXPIRATION →
  lookup cache false key now = Some (data entry).
Proof.
  intros He Hage. unfold lookup. simpl. rewrite He.
  by rewrite (proj2 (Z.ltb_lt _ _) Hage).
Qed.

Lemma lookup_expired (cache : gmap string ListingsCache) key now entry :
  cache !! key = Some entry →
  CACHE_EXPIRATION ≤ now - timestamp entry →
  lookup cache false key now = None.
Proof.
  intros He Hage. unfold lookup. simpl. rewrite He.
  by rewrite (proj2 (Z.ltb_ge _ _) Hage).
Qed.

Lemma lookup_absent (cache : gmap string ListingsCache) skip key now :
  cache !! key = None → lookup cache skip key now = None.
Proof. intros He. unfold lookup. rewrite He. by destruct skip. Qed.

Lemma lookup_skipped (cache : gmap string ListingsCache) key now :
  lookup cache true key now = None.
Proof. done. Qed.

Lemma store_lookup (cache : gmap string ListingsCache) key now result :
  store cache key now result !! key
  = Some {| timestamp := now; data := result; params := key |}.
Proof. apply lookup_insert_eq. Qed.

Lemma foldl_delete_lookup (keys : list string) (cache : gmap string ListingsCache) key :
  foldl (λ c k, delete k c) cache keys !! key
  = if decide (key ∈ keys) then None else cache !! key.
Proof.
  revert cache. induction keys as [|k keys IH]; intros cache.
  - destruct (decide (key ∈ [])) as [H|H]; [by apply elem_of_nil in H | done].
  - cbn [foldl]. rewrite IH.
    destruct (decide (key ∈ keys)) as [Hin|Hnin];
      destruct (decide (key ∈ k :: keys)) as [Hin'|Hnin']; try done.
    + destruct Hnin'. by apply elem_of_cons; right.
    + apply elem_of_cons in Hin' as [->|?]; [apply lookup_delete_eq | done].
    + apply lookup_delete_ne. intros ->. destruct Hnin'. by apply elem_of_cons; left.
Qed.

(** Without argument the function empties the cache. *)
Lemma invalidate_all (cache : gmap string ListingsCache) :
  invalidateListingsCache None cache = ∅.
Proof.
  apply map_eq. intros key. unfold invalidateListingsCache.
  rewrite foldl_delete_lookup, lookup_empty.
  destruct (decide (key ∈ map fst (map_to_list cache))) as [|Hnin]; [done|].
  destruct (cache !! key) as [entry|] eqn:He; [|done].
  destruct Hnin. apply list_elem_of_fmap. exists (key, entry).
  split; [done | by apply elem_of_map_to_list].
Qed.

(** With an object it deletes the entry under the serialized object. *)
Lemma invalidate_one (cache : gmap string ListingsCache) o :
  invalidateListingsCache (Some o) cache = delete (Json.stringify o) cache.
Proof.
  unfold invalidateListingsCache.
  destruct (cache !! Json.stringify o) eqn:He; [done|].
  symmetry. by apply delete_id.
Qed.

End cache_facts.

(** ** Lists, slices and [Promise.all] *)

Section list_facts.
Context {A : Type}.

(** For a start inside the array and a non-negative size, the slice is
    the interval of indices [start .. start + size - 1]. *)
Lemma js_slice_window (l : list A) (start size : Z) :
  0 ≤ start → 0 ≤ size →
  js_slice l start (start + size) = take (Z.to_nat size) (drop (Z.to_nat start) l).
Proof.
  intros Hs Hn. unfold js_slice.
  rewrite (proj2 (Z.ltb_ge start 0)), (proj2 (Z.ltb_ge (start + size) 0)) by lia.
  set (len := Z.of_nat (length l)).
  destruct (Z.le_gt_cases len start) as [Hout|Hin].
  - rewrite !drop_ge; [by rewrite !take_nil | lia | lia].
  - rewrite (Z.min_l start len) by lia.
    destruct (Z.le_gt_cases (start + size) len).
    + by rewrite Z.min_l, Z.add_simpl_l by lia.
    + rewrite Z.min_r by lia.
      rewrite !take_ge; [done | rewrite length_drop; lia | rewrite length_drop; lia].
Qed.

Lemma js_slice_length (l : list A) (start size : Z) :
  0 ≤ size → Z.of_nat (length (js_slice l start (start + size))) ≤ size.
Proof.
  intros Hn. unfold js_slice. rewrite length_take.
  set (len := Z.of_nat (length l)).
  destruct (start <? 0) eqn:E1; destruct (start + size <? 0) eqn:E2; lia.
Qed.

Lemma js_slice_sublist (l : list A) (start stop : Z) x :
  x ∈ js_slice l start stop → x ∈ l.
Proof.
  unfold js_slice. intros H. by apply subseteq_take, subseteq_drop in H.
Qed.

End list_facts.

Section promise_facts.
Context {A B : Type}.

Lemma all_outcomes_cons (x : outcome B) rest r :
  all_outcomes (x :: rest) = Returns r →
  ∃ b bs, x = Returns b ∧ all_outcomes rest = Returns bs ∧ r = b :: bs.
Proof.
  simpl. destruct x as [b|e]; simpl; [|done].
  destruct (all_outcomes rest) as [bs|e]; simpl; [|done].
  intros [= <-]. by exists b, bs.
Qed.

(** Every value of a fulfilled [Promise.all] is the value of one of
    the promises, in order and as many. *)
Lemma all_outcomes_Forall2 (l : list (outcome B)) r :
  all_outcomes l = Returns r → Forall2 (λ x b, x = Returns b) l r.
Proof.
  revert r. induction l as [|x l IH]; intros r.
  - intros [= <-]. constructor.
  - intros (b & bs & -> & Hl & ->)%all_outcomes_cons. constructor; auto.
Qed.

Lemma all_outcomes_length (l : list (outcome B)) r :
  all_outcomes l = Returns r → length r = length l.
Proof. intros H%all_outcomes_Forall2. symmetry. by eapply Forall2_length. Qed.

Lemma all_outcomes_imap_elem (f : nat → A → outcome B) (l : list A) r b :
  all_outcomes (imap f l) = Returns r → b ∈ r →
  ∃ i a, l !! i = Some a ∧ f i a = Returns b.
Proof.
  intros H%all_outcomes_Forall2 Hb.
  apply list_elem_of_lookup in Hb as [i Hi].
  destruct (Forall2_lookup_r _ _ _ _ _ H Hi) as (x & Hx & ->).
  rewrite list_lookup_imap in Hx.
  destruct (l !! i) as [a|] eqn:Ha; [|done].
  simpl in Hx. injection Hx as Hx. by exists i, a.
Qed.

Lemma all_outcomes_returns (l : list (outcome B)) :
  Forall (λ x, ∃ b, x = Returns b) l → ∃ r, all_outcomes l = Returns r.
Proof.
  induction 1 as [|x l [b ->] _ [r IH]]; [by exists []|].
  exists (b :: r). simpl. by rewrite IH.
Qed.

End promise_facts.

(** ** Active listings *)

Section listing_facts.
Import Js Listings.

Lemma or_else_nonempty f d : nonempty d = true → nonempty (or_else f d) = true.
Proof. unfold or_else. by destruct f as [[|c s]|]. Qed.

Lemma or_else_truthy f d : truthy f = true → or_else f d = str f.
Proof. unfold or_else. by intros ->. Qed.

Lemma placeholder_nonempty text : nonempty (placeholder text) = true.
Proof. done. Qed.

(** What the [map] callback returns, field by field. *)
Lemma toNFT_inv w index listing nft :
  toNFT w index listing = Returns nft →
  let tokenData := default TokenData.empty (Listing.current_token_data listing) in
  let collectionData := default CollectionData.empty (Listing.collection_data listing) in
  ∃ resolved,
    resolved_image w tokenData = Returns resolved
    ∧ NFT.image_url nft
      = (if nonempty resolved then resolved
         else placeholder (or_else (Listing.token_name listing) (random_id w index)))
    ∧ NFT.name nft
      = or_else (Listing.token_name listing)
          (or_else (TokenData.token_name tokenData)
             ("NFT #" +:+ or_else (Listing.listing_id listing) "Unknown"))
    ∧ NFT.description nft
      = or_else (TokenData.description tokenData)
          (or_else (CollectionData.description collectionData) "No description available")
    ∧ NFT.hasCompleteMetadata nft
      = Some ((truthy (Listing.token_name listing) || truthy (TokenData.token_name tokenData))
              && truthy (TokenData.description tokenData)
              && nonempty (NFT.image_url nft)).
Proof.
  intros H tokenData collectionData. unfold toNFT in H.
  fold tokenData collectionData in H.
  destruct (resolved_image w tokenData) as [resolved|e]; [|done].
  exists resolved. simpl in H.
  destruct (if truthy (Listing.last_transaction_timestamp listing)
            then toISOString w (str (Listing.last_transaction_timestamp listing))
            else Returns (current_time_iso w)) as [created|e]; [|done].
  simpl in H. injection H as <-. done.
Qed.

(** The three displayed fields are never empty. *)
Lemma toNFT_fields_nonempty w index listing nft :
  toNFT w index listing = Returns nft →
  nonempty (NFT.name nft) = true
  ∧ nonempty (NFT.description nft) = true
  ∧ nonempty (NFT.image_url nft) = true.
Proof.
  intros (resolved & _ & Hi & Hn & Hd & _)%toNFT_inv.
  rewrite Hi, Hn, Hd. split_and!.
  - by do 2 apply or_else_nonempty.
  - by do 2 apply or_else_nonempty.
  - destruct (nonempty resolved) eqn:E; [done | apply placeholder_nonempty].
Qed.

Lemma toNFT_complete w index listing nft :
  toNFT w index listing = Returns nft →
  let tokenData := default TokenData.empty (Listing.current_token_data listing) in
  NFT.hasCompleteMetadata nft = Some true
  ↔ (truthy (Listing.token_name listing) || truthy (TokenData.token_name tokenData)) = true
    ∧ truthy (TokenData.description tokenData) = true.
Proof.
  intros H tokenData.
  destruct (toNFT_fields_nonempty _ _ _ _ H) as (_ & _ & Hi).
  apply toNFT_inv in H as (resolved & _ & _ & _ & _ & Hc).
  fold tokenData in Hc. rewrite Hc, Hi, andb_true_r.
  split.
  - intros [= E]. by apply andb_true_iff.
  - intros E%andb_true_iff. by rewrite E.
Qed.

Lemma shape_inv w p count listings result :
  shape w p count listings = Returns result →
  ∃ records,
    all_outcomes (imap (toNFT w) (List.filter has_token_name listings)) = Returns records
    ∧ nfts result = paginatedNfts p (filteredNfts p records)
    ∧ total result = (if hiding p then Z.of_nat (length (filteredNfts p records))
                      else totalCount count listings).
Proof.
  unfold shape.
  destruct (all_outcomes _) as [records|e]; simpl; [|done].
  intros [= <-]. by exists records.
Qed.

(** A record of the page was built by the callback from a row. *)
Lemma shape_elem w p count listings result nft :
  shape w p count listings = Returns result → nft ∈ nfts result →
  ∃ index listing, listing ∈ listings ∧ toNFT w index listing = Returns nft.
Proof.
  intros (records & Hall & Hn & _)%shape_inv Hin. rewrite Hn in Hin.
  assert (nft ∈ records) as Hrec.
  { unfold paginatedNfts, filteredNfts in Hin.
    destruct (hiding p); [|done].
    apply js_slice_sublist in Hin.
    apply list_elem_of_In, filter_In in Hin as [Hin _]. by apply list_elem_of_In. }
  destruct (all_outcomes_imap_elem _ _ _ _ Hall Hrec) as (i & listing & Hl & Hf).
  exists i, listing. split; [|done].
  apply list_elem_of_lookup_2 in Hl.
  apply list_elem_of_In, filter_In in Hl as [Hl _]. by apply list_elem_of_In.
Qed.

Lemma fetch_fresh_success w p cache payload :
  fetch_succeeds w p payload →
  fetch_fresh w p cache
  = Returns (payload, Cache.store cache (cacheKey p) (now_at_store w) payload).
Proof.
  intros (response & body & d & listings & Hq & Hok & Hj & He & Hd & Ht & Hs).
  unfold fetch_fresh. rewrite Hq. simpl. rewrite Hok. simpl.
  rewrite Hj. simpl. rewrite He, Hd, Ht, Hs. done.
Qed.

Lemma fetch_fresh_failure w p cache :
  fetch_fails w p →
  try_catch (fetch_fresh w p cache) (λ _, Returns (empty_page, cache))
  = Returns (empty_page, cache).
Proof.
  unfold fetch_fresh.
  intros [e Hq | r Hq Hok | r b Hq Hok Hj He | r e Hq Hok Hj | r b Hq Hok Hj He Hd
          | r b d Hq Hok Hj He Hd [Ht|Ht] | r b d l e Hq Hok Hj He Hd Ht Hs];
    rewrite Hq; simpl; try done; rewrite Hok; simpl; try done;
    rewrite Hj; simpl; try done; rewrite He; try done; rewrite Hd; try done;
    rewrite Ht; try done.
  by rewrite Hs.
Qed.

Lemma fetchActiveListings_hit w p cache cached :
  Cache.lookup cache (skipping p) (cacheKey p) (now_at_check w) = Some cached →
  fetchActiveListings w p cache = (Returns cached, cache).
Proof. unfold fetchActiveListings. by intros ->. Qed.

Lemma fetchActiveListings_fresh w p cache payload :
  Cache.lookup cache (skipping p) (cacheKey p) (now_at_check w) = None →
  fetch_succeeds w p payload →
  fetchActiveListings w p cache
  = (Returns payload, Cache.store cache (cacheKey p) (now_at_store w) payload).
Proof.
  intros Hmiss Hs. unfold fetchActiveListings.
  by rewrite Hmiss, (fetch_fresh_success _ _ _ _ Hs).
Qed.

(** The outer [try]/[catch] lets no exception out. *)
Lemma fetchActiveListings_returns w p cache :
  ∃ result, (fetchActiveListings w p cache).1 = Returns result.
Proof.
  unfold fetchActiveListings.
  destruct (Cache.lookup _ _ _ _) as [cached|]; [by eexists|].
  destruct (fetch_fresh w p cache) as [[result cache']|e]; by eexists.
Qed.

(** The taxonomy misses nothing: a call that reaches the gateway either
    succeeds or fails in one of the listed ways. *)
Lemma fetch_succeeds_or_fails w p : (∃ payload, fetch_succeeds w p payload) ∨ fetch_fails w p.
Proof.
  destruct (listings_indexer w (smallQuery p)) as [response|e] eqn:Hq;
    [|right; by eapply transport_failure].
  destruct (Gateway.ok response) eqn:Hok; [|right; by eapply http_failure].
  destruct (Gateway.json response) as [body|e] eqn:Hj;
    [|right; by eapply undecodable_body].
  destruct (Gateway.errors body) eqn:He; [right; by eapply graphql_errors|].
  destruct (Gateway.data body) as [d|] eqn:Hd; [|right; by eapply missing_data].
  destruct (Gateway.table d) as [| |listings] eqn:Ht;
    [right; eapply malformed_table; eauto | right; eapply malformed_table; eauto |].
  destruct (shape w p (Gateway.count d) listings) as [payload|e] eqn:Hs.
  - left. by exists payload, response, body, d, listings.
  - right. by eapply malformed_rows.
Qed.

(** The cache is written by a successful fetch and by nothing else. *)
Lemma cache_written_only_on_success w p cache :
  (fetchActiveListings w p cache).2 = cache
  ∨ ∃ payload,
      fetch_succeeds w p payload
      ∧ fetchActiveListings w p cache
        = (Returns payload, Cache.store cache (cacheKey p) (now_at_store w) payload).
Proof.
  destruct (Cache.lookup cache (skipping p) (cacheKey p) (now_at_check w))
    as [cached|] eqn:Hl.
  { left. by rewrite (fetchActiveListings_hit _ _ _ _ Hl). }
  destruct (fetch_succeeds_or_fails w p) as [[payload Hs]|Hf].
  - right. exists payload. split; [done|]. by apply fetchActiveListings_fresh.
  - left. unfold fetchActiveListings. by rewrite Hl, (fetch_fresh_failure _ _ _ Hf).
Qed.

(** [skipCache: true] changes nothing but the cache test. *)
Lemma fetchActiveListings_skipping w p cache :
  Cache.lookup cache (skipping p) (cacheKey p) (now_at_check w) = None →
  fetchActiveListings w (skipping_cache p) cache = fetchActiveListings w p cache.
Proof.
  intros Hmiss. unfold fetchActiveListings at 2. rewrite Hmiss. reflexivity.
Qed.

End listing_facts.

(** ** Wallet NFTs *)

Section wallet_facts.
Import Js Wallet.

Lemma resolved_image_returns w tokenData :
  ∃ url, Listings.resolved_image w tokenData = Returns url.
Proof.
  unfold Listings.resolved_image.
  destruct (TokenData.cdn_asset_uris tokenData); [|by eexists].
  apply getBestImageUrl_returns.
Qed.

Lemma toNFT_returns w owner ownership :
  (∃ iso, created_at w (Ownership.last_transaction_timestamp ownership) = Returns iso) →
  ∃ nft, toNFT w owner ownership = Returns nft.
Proof.
  intros [iso Hiso]. unfold toNFT.
  destruct (resolved_image_returns w
              (default TokenData.empty (Ownership.current_token_data ownership)))
    as [url ->].
  simpl. rewrite Hiso. simpl. by eexists.
Qed.

Lemma filteredNfts_length p (records : list NFT.t) :
  (length (filteredNfts p records) ≤ length records)%nat.
Proof.
  unfold filteredNfts. destruct (truthy (marketplace p)); [|done].
  apply List.filter_length_le.
Qed.

Lemma fetch_owned_rows w p response body d ownerships :
  wallet_indexer w (simpleQuery p) = Returns response →
  Gateway.ok response = true →
  Gateway.json response = Returns body →
  Gateway.errors body = false →
  Gateway.data body = Some d →
  Gateway.table d = Gateway.Rows ownerships →
  printable_rows w ownerships →
  ∃ records,
    length records = length ownerships
    ∧ fetch_owned w p
      = Returns {| nfts := filteredNfts p records;
                   total := Z.max 20 (Z.of_nat (length ownerships) * 2) |}.
Proof.
  intros Hq Hok Hj He Hd Ht Hrows. unfold fetch_owned.
  rewrite Hq. simpl. rewrite Hok. simpl. rewrite Hj. simpl. rewrite He, Hd, Ht.
  destruct (all_outcomes_returns (map (toNFT w (str (address p))) ownerships))
    as [records Hall].
  { apply Forall_map. eapply Forall_impl; [exact Hrows|].
    intros o Ho. by apply toNFT_returns. }
  exists records. rewrite Hall. simpl. split; [|done].
  by rewrite (all_outcomes_length _ _ Hall), length_map.
Qed.

End wallet_facts.

(** ** The even split of the marketplace distribution *)

Section stats_facts.
Import Js Stats.

Lemma indexed_from_cons k item marketplaces :
  indexed_from k (item :: marketplaces) = (k, item) :: indexed_from (S k) marketplaces.
Proof.
  unfold indexed_from. rewrite imap_cons. f_equal; [by rewrite Nat.add_0_r|].
  apply imap_ext. intros i x _. simpl. f_equal. lia.
Qed.

Lemma sum_of_shares_empty : sum_of_shares ∅ = 0.
Proof. apply map_fold_empty. Qed.

Lemma sum_of_shares_insert (d : gmap string Z) key share :
  d !! key = None → sum_of_shares (<[key := share]> d) = sum_of_shares d + share.
Proof.
  intros Hfresh. unfold sum_of_shares.
  rewrite map_fold_insert_L; [done | intros; lia | done].
Qed.

(** A name that no remaining row has keeps its share. *)
Lemma foldl_assign_other n marketplaces k (d : gmap string Z) key :
  key ∉ display_name <$> marketplaces →
  foldl (assign n) d (indexed_from k marketplaces) !! key = d !! key.
Proof.
  revert k d. induction marketplaces as [|item ms IH]; intros k d Hkey; [done|].
  rewrite indexed_from_cons. cbn [foldl]. rewrite fmap_cons in Hkey.
  apply not_elem_of_cons in Hkey as [Hne Hkey]. rewrite IH by done.
  unfold assign. cbn [fst snd]. destruct (truthy item); [|done].
  by apply lookup_insert_ne.
Qed.

(** With distinct display names, none of them in the distribution yet,
    every row adds its share and finds it under its name. *)
Lemma foldl_assign_distinct n marketplaces k (d : gmap string Z) :
  Forall (λ item, truthy item = true) marketplaces →
  NoDup (display_name <$> marketplaces) →
  Forall (λ item, d !! display_name item = None) marketplaces →
  sum_of_shares (foldl (assign n) d (indexed_from k marketplaces))
  = sum_of_shares d + shares_from n k (length marketplaces)
  ∧ ∀ i item, marketplaces !! i = Some item →
      foldl (assign n) d (indexed_from k marketplaces) !! display_name item
      = Some (percentage n (k + i)).
Proof.
  revert k d. induction marketplaces as [|item ms IH]; intros k d Htruthy Hdistinct Hfresh.
  { split; [simpl; lia | done]. }
  apply Forall_cons in Htruthy as [Hitem Htruthy].
  rewrite fmap_cons in Hdistinct. apply NoDup_cons in Hdistinct as [Hnotin Hdistinct].
  apply Forall_cons in Hfresh as [Hnew Hfresh].
  rewrite indexed_from_cons. cbn [foldl length shares_from].
  unfold assign at 2 4. cbn [fst snd]. rewrite Hitem. fold (display_name item).
  destruct (IH (S k) (<[display_name item := percentage n k]> d)) as [Hsum Hget];
    [done | done | |].
  { apply Forall_forall. intros other Hother.
    rewrite Forall_forall in Hfresh.
    rewrite lookup_insert_ne; [by apply Hfresh|].
    intros Heq. apply Hnotin. rewrite Heq. by apply list_elem_of_fmap_2. }
  split.
  - rewrite Hsum, sum_of_shares_insert by done. lia.
  - intros [|i] other Hother; simpl in Hother.
    + injection Hother as <-. rewrite foldl_assign_other by done.
      by rewrite lookup_insert_eq, Nat.add_0_r.
    + rewrite (Hget i other Hother). do 2 f_equal. lia.
Qed.

(** The shares of the rows [k .. n - 1]: the base share for each row but
    the last, which takes what is left of 100. *)
Lemma shares_from_tail n k len :
  Z.of_nat k + Z.of_nat len = n → (0 < len)%nat →
  shares_from n k len = basePercent n * (Z.of_nat len - 1) + (100 - basePercent n * (n - 1)).
Proof.
  revert k. induction len as [|len IH]; intros k Hn Hlen; [lia|].
  cbn [shares_from]. unfold percentage at 1.
  destruct len as [|len].
  - rewrite (proj2 (Z.eqb_eq _ _)) by lia. simpl. lia.
  - rewrite (proj2 (Z.eqb_neq _ _)) by lia. rewrite IH by lia. lia.
Qed.

(** Where every row has a marketplace and the display names differ, the
    even split is as described: the base share for each row, the rest
    of 100 for the last, 100 in all. *)
Lemma even_split_of_distinct_names (marketplaces : list (option string)) :
  marketplaces ≠ [] →
  Forall (λ item, truthy item = true) marketplaces →
  NoDup (display_name <$> marketplaces) →
  let n := Z.of_nat (length marketplaces) in
  (∀ i item, marketplaces !! i = Some item →
     distribution_without_sales marketplaces !! display_name item
     = Some (if Z.of_nat i =? n - 1 then 100 - 100 / n * (n - 1) else 100 / n))
  ∧ sum_of_shares (distribution_without_sales marketplaces) = 100.
Proof.
  intros Hne Htruthy Hdistinct n.
  assert (0 < length marketplaces)%nat as Hlen by (destruct marketplaces; [done | simpl; lia]).
  unfold distribution_without_sales, distributeEvenly.
  rewrite (proj2 (Nat.ltb_lt _ _) Hlen).
  destruct (foldl_assign_distinct n marketplaces 0 ∅ Htruthy Hdistinct) as [Hsum Hget].
  { apply Forall_forall. intros item _. apply lookup_empty. }
  unfold indexed_from in Hsum, Hget. cbn [Nat.add] in Hsum, Hget. split.
  - intros i item Hi. exact (Hget i item Hi).
  - etrans; [exact Hsum|].
    rewrite sum_of_shares_empty, (shares_from_tail n 0) by lia.
    unfold basePercent. lia.
Qed.

End stats_facts.

(** * The claims *)

Section claims_format.
Import Js Format.

(** C8 (as amended). Formatting is idempotent on every name whose
    formatted form is not the empty string:
    [formatMarketplaceName (formatMarketplaceName s) = formatMarketplaceName s]
    whenever [formatMarketplaceName s] is non-empty. *)
Theorem format_idempotent_unless_empty (s : string) :
  formatMarketplaceName s ≠ "" →
  formatMarketplaceName (formatMarketplaceName s) = formatMarketplaceName s.
Proof.
  intros Hne. destruct (plain s) eqn:Hp.
  - destruct (decide (s = "")) as [->|Hs]; [done|].
    rewrite (format_plain s Hs Hp) in *.
    rewrite format_plain; [| done | by apply plain_formatted].
    rewrite strip_suffixes_id.
    + apply title_from_idempotent.
    + apply title_from_clean, separators_clean.
  - destruct (plain_cases s Hp) as [-> | [-> | [-> | ->]]]; reflexivity.
Qed.

Lemma format_idempotent_unless_empty_witness :
  formatMarketplaceName (formatMarketplaceName "souffl3-market_v2")
  = formatMarketplaceName "souffl3-market_v2".
Proof. apply format_idempotent_unless_empty. vm_compute. discriminate. Defined.

(** C8 as stated fails: a name that is nothing but a version suffix
    formats to the empty string, and the empty string formats to
    ["Unknown"]. *)
Lemma format_not_idempotent_on_bare_suffix :
  formatMarketplaceName "_v1" = ""
  ∧ formatMarketplaceName (formatMarketplaceName "_v1") = "Unknown"
  ∧ formatMarketplaceName (formatMarketplaceName "_v1") ≠ formatMarketplaceName "_v1".
Proof. split_and!; [reflexivity | reflexivity | vm_compute; discriminate]. Qed.

End claims_format.

Section claims_image.
Import Js Image.

(** C2 (as amended). [getBestImageUrl] never throws, and each
    linked-JSON block swallows its failure: a fetch that is rejected,
    is not [ok], has an undecodable body or has no image field yields
    nothing.  Resolution then goes on with the later sources that the
    guards of the code admit (the [.json] asset URI only without a CDN
    JSON URI, the token URI only when the asset URI or the CDN JSON URI
    is absent): without a direct source, the result is the image of the
    first admitted document that yields one, else the asset URI that is
    not a [.json] name, else the empty string. *)
Theorem linked_json_failures_swallowed (fetch : Fetch)
    (cdnAssetUris : option CdnAssetUris) (token_uri : option string) :
  (∃ url, getBestImageUrl fetch cdnAssetUris token_uri = Returns url)
  ∧ (∀ url, fetch_linked_json fetch url = Returns (linked_image fetch url))
  ∧ (∀ u, cdnAssetUris = Some u → no_direct_source u = true →
       getBestImageUrl fetch cdnAssetUris token_uri
       = Returns (resolve_linked fetch (admitted_sources u token_uri) u)).
Proof.
  split_and!.
  - apply getBestImageUrl_returns.
  - apply fetch_linked_json_spec.
  - intros u -> Hu. by apply getBestImageUrl_linked.
Qed.

(** A record whose CDN JSON document is unreachable while the token
    URI serves an image: the token URI is consulted. *)
Lemma linked_json_failures_swallowed_witness :
  getBestImageUrl
    (serving "https://meta.example/7"
       {| image := Some "ipfs://Qm7/7.png"; image_url := None; imageUrl := None;
          animation_url := None; animationUrl := None |})
    (Some (only_cdn_json "https://cdn.example/7.json"))
    (Some "https://meta.example/7")
  = Returns "https://ipfs.io/ipfs/Qm7/7.png".
Proof.
  destruct (linked_json_failures_swallowed
              (serving "https://meta.example/7"
                 {| image := Some "ipfs://Qm7/7.png"; image_url := None; imageUrl := None;
                    animation_url := None; animationUrl := None |})
              (Some (only_cdn_json "https://cdn.example/7.json"))
              (Some "https://meta.example/7")) as (_ & _ & H).
  rewrite (H (only_cdn_json "https://cdn.example/7.json")); reflexivity.
Defined.

(** C2 as stated fails: after the CDN JSON fetch has failed, a [.json]
    asset URI that serves an image is never fetched, and the result is
    the empty string. *)
Lemma linked_json_sources_skipped :
  let fetch := serving "https://nft.example/1.json"
                 {| image := Some "https://nft.example/1.png"; image_url := None;
                    imageUrl := None; animation_url := None; animationUrl := None |} in
  let u := {| cdn_image_uri := None; asset_uri := Some "https://nft.example/1.json";
              cdn_animation_uri := None; raw_animation_uri := None;
              raw_image_uri := None; cdn_json_uri := Some "https://cdn.example/1.json" |} in
  linked_image fetch "https://cdn.example/1.json" = None
  ∧ first_linked_image fetch (named_sources u None) = Some "https://nft.example/1.png"
  ∧ getBestImageUrl fetch (Some u) None = Returns ""
  ∧ getBestImageUrl fetch (Some u) None
    ≠ Returns (resolve_linked fetch (named_sources u None) u).
Proof. split_and!; [reflexivity | reflexivity | reflexivity | vm_compute; discriminate]. Qed.

End claims_image.

Section claims_cache.
Import Cache Listings.

(** C4. Called without argument, [invalidateListingsCache] makes every
    key a miss; called with a params object, it removes the entry under
    the serialized object and leaves every other entry as it was. *)
Theorem invalidate_frame (listingsCache : gmap string ListingsCache) :
  (∀ key, invalidateListingsCache None listingsCache !! key = None)
  ∧ (∀ key skip now, lookup (invalidateListingsCache None listingsCache) skip key now = None)
  ∧ (∀ o, invalidateListingsCache (Some o) listingsCache !! Json.stringify o = None)
  ∧ (∀ o key, key ≠ Json.stringify o →
       invalidateListingsCache (Some o) listingsCache !! key = listingsCache !! key).
Proof.
  split_and!.
  - intros key. by rewrite invalidate_all.
  - intros key skip now. apply lookup_absent. by rewrite invalidate_all.
  - intros o. rewrite invalidate_one. apply lookup_delete_eq.
  - intros o key Hne. rewrite invalidate_one. by apply lookup_delete_ne.
Qed.

(** Two entries; the one under the first key is invalidated and the
    other one stays. *)
Lemma invalidate_frame_witness :
  let first := cacheKey (hiding_params 1 8) in
  let second := cacheKey (hiding_params 2 8) in
  let cache := store (store ∅ first 10 empty_page) second 20 empty_page in
  invalidateListingsCache (Some (cacheParams (hiding_params 1 8))) cache !! second
  = cache !! second.
Proof.
  intros first second cache.
  destruct (invalidate_frame cache) as (_ & _ & _ & H).
  apply H. vm_compute. discriminate.
Defined.

(** C3. A call that misses the cache and fetches successfully returns
    the payload and stores it under its key with the time of the
    store.  A later call with the same key that does not skip the cache
    returns exactly that payload, and leaves the cache alone, while
    [now - timestamp < CACHE_EXPIRATION] (five minutes); from
    [now - timestamp >= CACHE_EXPIRATION] on the entry counts as absent
    and the call does what a call that skips the cache does: it
    fetches. *)
Theorem cache_reuse_iff_fresh (w1 w2 : World) (p1 p2 : Params)
    (cache0 : gmap string ListingsCache) (payload : Page) :
  lookup cache0 (skipping p1) (cacheKey p1) (now_at_check w1) = None →
  fetch_succeeds w1 p1 payload →
  cacheKey p2 = cacheKey p1 →
  skipping p2 = false →
  let first := fetchActiveListings w1 p1 cache0 in
  CACHE_EXPIRATION = 300000
  ∧ first.1 = Returns payload
  ∧ first.2 !! cacheKey p1
    = Some {| timestamp := now_at_store w1; data := payload; params := cacheKey p1 |}
  ∧ (now_at_check w2 - now_at_store w1 < CACHE_EXPIRATION →
     fetchActiveListings w2 p2 first.2 = (Returns payload, first.2))
  ∧ (CACHE_EXPIRATION ≤ now_at_check w2 - now_at_store w1 →
     lookup first.2 (skipping p2) (cacheKey p2) (now_at_check w2) = None
     ∧ fetchActiveListings w2 p2 first.2 = fetchActiveListings w2 (skipping_cache p2) first.2).
Proof.
  intros Hmiss Hok Hkey Hskip first. subst first.
  rewrite (fetchActiveListings_fresh _ _ _ _ Hmiss Hok). simpl.
  split_and!; [done | done | apply store_lookup | |].
  - intros Hage. apply fetchActiveListings_hit. rewrite Hskip, Hkey.
    by apply (lookup_hit _ _ _ _ (store_lookup _ _ _ _)).
  - intros Hage.
    assert (lookup (store cache0 (cacheKey p1) (now_at_store w1) payload)
              (skipping p2) (cacheKey p2) (now_at_check w2) = None) as Hstale.
    { rewrite Hskip, Hkey. by apply (lookup_expired _ _ _ _ (store_lookup _ _ _ _)). }
    split; [done|]. symmetry. by apply fetchActiveListings_skipping.
Qed.

(** One row is fetched and stored at time 2000 and asked for again four
    minutes later, when the upstream would serve another row: the
    second call returns what the first one did. *)
Lemma cache_reuse_iff_fresh_witness :
  let w1 := serving_world [complete_listing] [] 1000 2000 in
  let w2 := serving_world [bare_listing] [] 242000 243000 in
  let first := fetchActiveListings w1 no_params ∅ in
  fetchActiveListings w2 no_params first.2 = (first.1, first.2).
Proof.
  intros w1 w2 first.
  destruct (cache_reuse_iff_fresh w1 w2 no_params no_params ∅
              {| nfts := default [] (match all_outcomes [toNFT w1 0 complete_listing] with
                                     | Returns l => Some l
                                     | Throws _ => None
                                     end);
                 total := 1 |})
    as (_ & H1 & _ & H2 & _).
  - reflexivity.
  - exists (ok_response [complete_listing] None).
    eexists _, _, [complete_listing]. split_and!; reflexivity.
  - reflexivity.
  - reflexivity.
  - fold first in H1, H2. rewrite H1. apply H2. vm_compute. reflexivity.
Defined.

End claims_cache.

Section claims_listings.
Import Js Listings.

Lemma complete_flag nft : complete nft = true → NFT.hasCompleteMetadata nft = Some true.
Proof. unfold complete. by destruct (NFT.hasCompleteMetadata nft) as [[]|]. Qed.

(** C5. With [hideIncompleteMetadata] set, whatever the page and the
    page size, the upstream is asked for three page sizes of rows (five
    with a marketplace filter) from offset 0; the records are filtered
    to those with [hasCompleteMetadata] and the page returned is
    [filtered.slice((page-1)*pageSize, (page-1)*pageSize + pageSize)]:
    all its records are complete and [total] is the length of the
    filtered list.  With a page size that is not negative the page has
    at most [pageSize] records, and for the pages from 1 on it is the
    window [(page-1)*pageSize .. page*pageSize - 1] of the filtered
    list. *)
Theorem metadata_filter_paginates_client_side (w : World) (p : Params)
    (listingsCache : gmap string Cache.ListingsCache)
    (response : Gateway.Response Listing.t) (body : Gateway.Body Listing.t)
    (d : Gateway.Data Listing.t) (listings : list Listing.t) (records : list NFT.t) :
  hiding p = true →
  Cache.lookup listingsCache (skipping p) (cacheKey p) (now_at_check w) = None →
  listings_indexer w (smallQuery p) = Returns response →
  Gateway.ok response = true →
  Gateway.json response = Returns body →
  Gateway.errors body = false →
  Gateway.data body = Some d →
  Gateway.table d = Gateway.Rows listings →
  all_outcomes (imap (toNFT w) (List.filter has_token_name listings)) = Returns records →
  let filtered := List.filter complete records in
  let startIndex := (the_page p - 1) * the_pageSize p in
  Gateway.limit (smallQuery p)
  = (if truthy (marketplace p) then the_pageSize p * 5 else the_pageSize p * 3)
  ∧ Gateway.offset (smallQuery p) = 0
  ∧ ∃ result,
      (fetchActiveListings w p listingsCache).1 = Returns result
      ∧ nfts result = js_slice filtered startIndex (startIndex + the_pageSize p)
      ∧ Forall (λ nft, nft ∈ filtered ∧ NFT.hasCompleteMetadata nft = Some true) (nfts result)
      ∧ total result = Z.of_nat (length filtered)
      ∧ (0 ≤ the_pageSize p → Z.of_nat (length (nfts result)) ≤ the_pageSize p)
      ∧ (1 ≤ the_page p → 0 ≤ the_pageSize p →
         nfts result = take (Z.to_nat (the_pageSize p)) (drop (Z.to_nat startIndex) filtered)).
Proof.
  intros Hhide Hmiss Hq Hok Hj He Hd Ht Hall filtered startIndex.
  assert (shape w p (Gateway.count d) listings
          = Returns {| nfts := js_slice filtered startIndex (startIndex + the_pageSize p);
                       total := Z.of_nat (length filtered) |}) as Hshape.
  { unfold shape. rewrite Hall. simpl.
    unfold paginatedNfts, filteredNfts. by rewrite Hhide. }
  split_and!.
  - simpl. unfold queryLimit. rewrite Hhide. done.
  - simpl. unfold queryOffset. by rewrite Hhide.
  - eexists. split.
    { erewrite fetchActiveListings_fresh; [done | done |].
      by exists response, body, d, listings. }
    simpl. split_and!.
    + done.
    + apply Forall_forall. intros nft Hin%js_slice_sublist. split; [done|].
      apply list_elem_of_In, filter_In in Hin as [_ Hc]. by apply complete_flag.
    + done.
    + intros Hsize. by apply js_slice_length.
    + intros Hpage Hsize. apply js_slice_window; [unfold startIndex; nia | done].
Qed.

(** Three rows, of which two are complete; page 1 of size 1. *)
Lemma metadata_filter_paginates_client_side_witness :
  let w := serving_world [complete_listing; bare_listing; complete_listing] [] 1000 2000 in
  ∃ result nft,
    (fetchActiveListings w (hiding_params 1 1) ∅).1 = Returns result
    ∧ nfts result = [nft]
    ∧ total result = 2.
Proof.
  intros w.
  destruct (metadata_filter_paginates_client_side w (hiding_params 1 1) ∅
              (ok_response [complete_listing; bare_listing; complete_listing] None)
              {| Gateway.errors := false;
                 Gateway.data :=
                   Some {| Gateway.table :=
                             Gateway.Rows [complete_listing; bare_listing; complete_listing];
                           Gateway.count := None |} |}
              {| Gateway.table := Gateway.Rows [complete_listing; bare_listing; complete_listing];
                 Gateway.count := None |}
              [complete_listing; bare_listing; complete_listing]
              (default [] (match all_outcomes
                                   (imap (toNFT w)
                                      [complete_listing; bare_listing; complete_listing]) with
                           | Returns l => Some l
                           | Throws _ => None
                           end)))
    as (_ & _ & result & Hr & _ & _ & Ht & _ & Hn);
    [reflexivity | reflexivity | reflexivity | reflexivity | reflexivity
    | reflexivity | reflexivity | reflexivity | reflexivity |].
  exists result. eexists. split_and!; [exact Hr | | exact Ht].
  apply Hn; vm_compute; discriminate.
Defined.

(** Pages below 1 over the same rows: page 0 is empty, and page -1 of
    size 1 is the slice from the second but last to the last record of
    the filtered list, here its first record. *)
Lemma metadata_filter_pages_below_one :
  let w := serving_world [complete_listing; bare_listing; complete_listing] [] 1000 2000 in
  ∃ first second,
    (fetchActiveListings w (hiding_params 1 2) ∅).1
    = Returns {| nfts := [first; second]; total := 2 |}
    ∧ (fetchActiveListings w (hiding_params 0 2) ∅).1
      = Returns {| nfts := []; total := 2 |}
    ∧ (fetchActiveListings w (hiding_params (-1) 1) ∅).1
      = Returns {| nfts := [first]; total := 2 |}.
Proof. intros w. eexists _, _. split_and!; reflexivity. Qed.

(** C6. When the call reaches the gateway and the gateway fails in one
    of the ways (a) to (d), [fetchActiveListings] returns the sentinel
    [{ nfts: [], total: 0 }], throws nothing, and leaves the listings
    cache as it was. *)
Theorem failures_give_empty_page (w : World) (p : Params)
    (listingsCache : gmap string Cache.ListingsCache) :
  Cache.lookup listingsCache (skipping p) (cacheKey p) (now_at_check w) = None →
  fetch_fails w p →
  fetchActiveListings w p listingsCache = (Returns empty_page, listingsCache).
Proof.
  intros Hmiss Hfails. unfold fetchActiveListings.
  by rewrite Hmiss, (fetch_fresh_failure _ _ _ Hfails).
Qed.

Lemma failures_give_empty_page_witness :
  fetchActiveListings offline_world no_params ∅ = (Returns empty_page, ∅).
Proof.
  apply failures_give_empty_page; [reflexivity|].
  by apply (transport_failure offline_world no_params "TypeError: Failed to fetch").
Defined.

(** C9 (as amended). The records that [fetchActiveListings] builds
    are, in order, those of the rows of the answer that pass the name
    test, and the page is taken from them.  For each of these rows and
    its record, [hasCompleteMetadata] is true if and only if the row has
    a non-empty token name (its own or that of its token data) and a
    non-empty token description; it is [false] otherwise.  The [name],
    [description] and [image_url] of the record itself are never empty,
    since defaults and the placeholder fill them. *)
Theorem complete_flag_reads_upstream_fields (w : World) (p : Params) (payload : Page)
    (listingsCache : gmap string Cache.ListingsCache)
    (response : Gateway.Response Listing.t) (body : Gateway.Body Listing.t)
    (d : Gateway.Data Listing.t) (listings : list Listing.t) :
  Cache.lookup listingsCache (skipping p) (cacheKey p) (now_at_check w) = None →
  listings_indexer w (smallQuery p) = Returns response →
  Gateway.ok response = true →
  Gateway.json response = Returns body →
  Gateway.errors body = false →
  Gateway.data body = Some d →
  Gateway.table d = Gateway.Rows listings →
  shape w p (Gateway.count d) listings = Returns payload →
  ∃ records,
    (fetchActiveListings w p listingsCache).1 = Returns payload
    ∧ all_outcomes (imap (toNFT w) (List.filter has_token_name listings)) = Returns records
    ∧ nfts payload = paginatedNfts p (filteredNfts p records)
    ∧ (∀ nft, nft ∈ nfts payload → nft ∈ records)
    ∧ Forall2
        (λ listing nft,
           let tokenData := default TokenData.empty (Listing.current_token_data listing) in
           NFT.hasCompleteMetadata nft
           = Some ((truthy (Listing.token_name listing)
                    || truthy (TokenData.token_name tokenData))
                   && truthy (TokenData.description tokenData))
           ∧ nonempty (NFT.name nft) = true
           ∧ nonempty (NFT.description nft) = true
           ∧ nonempty (NFT.image_url nft) = true)
        (List.filter has_token_name listings) records.
Proof.
  intros Hmiss Hq Hok Hj He Hd Ht Hs.
  destruct (shape_inv _ _ _ _ _ Hs) as (records & Hall & Hn & _).
  exists records. split_and!; [| done | done | |].
  - erewrite fetchActiveListings_fresh; [done | done |].
    by exists response, body, d, listings.
  - intros nft. rewrite Hn. unfold paginatedNfts, filteredNfts.
    destruct (hiding p); [|done]. intros Hin%js_slice_sublist.
    apply list_elem_of_In, filter_In in Hin as [Hin _]. by apply list_elem_of_In.
  - apply all_outcomes_Forall2 in Hall.
    apply Forall2_same_length_lookup. split.
    { apply Forall2_length in Hall. by rewrite length_imap in Hall. }
    intros i listing nft Hl Hr.
    destruct (Forall2_lookup_r _ _ _ _ _ Hall Hr) as (x & Hx & Hnft).
    rewrite list_lookup_imap, Hl in Hx. simpl in Hx. injection Hx as <-.
    destruct (toNFT_fields_nonempty _ _ _ _ Hnft) as (Hname & Hdesc & Himage).
    split; [|done].
    apply toNFT_inv in Hnft as (resolved & _ & _ & _ & _ & Hc).
    by rewrite Hc, Himage, andb_true_r.
Qed.

(** A row with everything and a row without description: the flag of
    the first is true, that of the second is false. *)
Lemma complete_flag_reads_upstream_fields_witness :
  let w := serving_world [complete_listing; bare_listing] [] 1000 2000 in
  ∃ first second,
    shape w no_params None [complete_listing; bare_listing]
    = Returns {| nfts := [first; second]; total := 2 |}
    ∧ NFT.hasCompleteMetadata first = Some true
    ∧ NFT.hasCompleteMetadata second = Some false.
Proof.
  intros w.
  destruct (shape w no_params None [complete_listing; bare_listing]) as [payload|e] eqn:E;
    [|discriminate E].
  destruct (complete_flag_reads_upstream_fields w no_params payload ∅
              (ok_response [complete_listing; bare_listing] None)
              {| Gateway.errors := false;
                 Gateway.data :=
                   Some {| Gateway.table := Gateway.Rows [complete_listing; bare_listing];
                           Gateway.count := None |} |}
              {| Gateway.table := Gateway.Rows [complete_listing; bare_listing];
                 Gateway.count := None |}
              [complete_listing; bare_listing])
    as (records & _ & Hall & Hn & _ & Hflags);
    [reflexivity | reflexivity | reflexivity | reflexivity | reflexivity | reflexivity
    | reflexivity | exact E |].
  change (List.filter has_token_name [complete_listing; bare_listing])
    with [complete_listing; bare_listing] in Hflags.
  apply Forall2_cons_inv_l in Hflags as (first & rest & [Hfirst _] & Hrest & ->).
  apply Forall2_cons_inv_l in Hrest as (second & rest' & [Hsecond _] & Hnil & ->).
  apply Forall2_nil_inv_l in Hnil as ->.
  exists first, second. split_and!; [|exact Hfirst | exact Hsecond].
  destruct payload as [page total]. cbn [nfts] in Hn. rewrite Hn.
  revert E. unfold shape. rewrite Hall. cbn. by intros [= <- <-].
Defined.

(** C9 as stated fails: a row with a token name and no description
    gives a record whose name, description and image URL are all
    non-empty, and whose flag is false. *)
Lemma complete_flag_not_about_record_fields :
  ∃ nft,
    (fetchActiveListings (serving_world [bare_listing] [] 1000 2000) no_params ∅).1
    = Returns {| nfts := [nft]; total := 1 |}
    ∧ NFT.name nft = "Cool Cat #2"
    ∧ NFT.description nft = "No description available"
    ∧ NFT.image_url nft = "https://via.placeholder.com/500x500?text=Cool%20Cat%20%232"
    ∧ NFT.hasCompleteMetadata nft = Some false.
Proof. eexists. split_and!; reflexivity. Qed.

End claims_listings.

Section claims_resolution.
Import Js Image.

(** C1 (as amended). A record that exposes only an asset URI with an
    image extension resolves to that URI after the [ipfs://] rewrite.
    A record that exposes only a linked JSON document (a CDN JSON URI,
    an asset URI with a [.json] name, or nothing but the token URI)
    whose fetch succeeds with a body that has a non-empty [image_url]
    and no non-empty [image] resolves to the rewritten [image_url].  A record without any URI
    and without token URI resolves to the empty string, and for a
    listing whose resolution is empty the final [image_url] is the
    placeholder URL with the URL-encoded [token_name] of the listing
    row, or with a random identifier when the row has no [token_name];
    it holds the URL-encoded display name when the row has a
    [token_name]. *)
Theorem image_resolution_postcondition :
  (∀ fetch a token_uri,
     is_image_name (toLowerCase a) = true →
     getBestImageUrl fetch (Some (only_asset a)) token_uri = Returns (convertIpfsUrl a))
  ∧ (∀ fetch j m token_uri,
       j ≠ "" →
       fetch j = Returns {| ok := true; json := Returns m |} →
       truthy (image m) = false →
       truthy (image_url m) = true →
       getBestImageUrl fetch (Some (only_cdn_json j)) token_uri
       = Returns (convertIpfsUrl (str (image_url m))))
  ∧ (∀ fetch a m token_uri,
       is_json_name (toLowerCase a) = true →
       fetch (convertIpfsUrl a) = Returns {| ok := true; json := Returns m |} →
       truthy (image m) = false →
       truthy (image_url m) = true →
       getBestImageUrl fetch (Some (only_asset a)) token_uri
       = Returns (convertIpfsUrl (str (image_url m))))
  ∧ (∀ fetch t m,
       t ≠ "" →
       fetch (convertIpfsUrl t) = Returns {| ok := true; json := Returns m |} →
       truthy (image m) = false →
       truthy (image_url m) = true →
       getBestImageUrl fetch (Some no_uris) (Some t)
       = Returns (convertIpfsUrl (str (image_url m))))
  ∧ (∀ fetch token_uri,
       truthy token_uri = false →
       getBestImageUrl fetch (Some no_uris) token_uri = Returns "")
  ∧ (∀ w index listing nft,
       Listings.resolved_image w
         (default TokenData.empty (Listing.current_token_data listing)) = Returns "" →
       Listings.toNFT w index listing = Returns nft →
       NFT.image_url nft
       = "https://via.placeholder.com/500x500?text="
         +:+ encodeURIComponent (or_else (Listing.token_name listing) (random_id w index))
       ∧ (truthy (Listing.token_name listing) = true →
          NFT.image_url nft
          = "https://via.placeholder.com/500x500?text=" +:+ encodeURIComponent (NFT.name nft))).
Proof.
  split_and!.
  - apply getBestImageUrl_asset.
  - apply getBestImageUrl_cdn_json.
  - apply getBestImageUrl_asset_json.
  - apply getBestImageUrl_token_uri.
  - apply getBestImageUrl_nothing.
  - intros w index listing nft Hres (resolved & Hr & Hi & Hn & _)%toNFT_inv.
    rewrite Hres in Hr. injection Hr as <-. simpl in Hi.
    split; [exact Hi|]. intros Hname.
    by rewrite Hi, Hn, !(or_else_truthy _ _ Hname).
Qed.

Lemma image_resolution_postcondition_witness :
  getBestImageUrl offline (Some (only_asset "ipfs://QmX/cat.JPEG")) None
  = Returns "https://ipfs.io/ipfs/QmX/cat.JPEG"
  ∧ getBestImageUrl
      (serving "https://cdn.example/9.json"
         {| image := None; image_url := Some "ipfs://QmY/9.gif"; imageUrl := None;
            animation_url := None; animationUrl := None |})
      (Some (only_cdn_json "https://cdn.example/9.json")) None
    = Returns "https://ipfs.io/ipfs/QmY/9.gif"
  ∧ ∃ nft, Listings.toNFT offline_world 0 bare_listing = Returns nft
           ∧ NFT.image_url nft
             = "https://via.placeholder.com/500x500?text=Cool%20Cat%20%232".
Proof.
  destruct image_resolution_postcondition as (Ha & Hb & _ & _ & _ & Hc).
  split_and!.
  - apply (Ha offline "ipfs://QmX/cat.JPEG" None). reflexivity.
  - apply (Hb _ "https://cdn.example/9.json"
             {| image := None; image_url := Some "ipfs://QmY/9.gif"; imageUrl := None;
                animation_url := None; animationUrl := None |} None);
      [discriminate | reflexivity | reflexivity | reflexivity].
  - destruct (Listings.toNFT offline_world 0 bare_listing) as [nft|e] eqn:E;
      [|discriminate E].
    exists nft. split; [reflexivity|].
    destruct (Hc offline_world 0%nat bare_listing nft) as [H _];
      [reflexivity | exact E | exact H].
Defined.

(** C1 as stated fails in its last part, and in its second part when
    the document has an [image] next to its [image_url]: a row named
    only by its token data is displayed as ["Foo"] while its
    placeholder holds the random identifier; and [image] wins over
    [image_url]. *)
Lemma placeholder_without_display_name :
  (∃ nft,
     Listings.toNFT offline_world 0 token_named_listing = Returns nft
     ∧ NFT.name nft = "Foo"
     ∧ NFT.image_url nft = "https://via.placeholder.com/500x500?text=k3x9z"
     ∧ NFT.image_url nft
       ≠ "https://via.placeholder.com/500x500?text=" +:+ encodeURIComponent (NFT.name nft))
  ∧ getBestImageUrl
      (serving "https://cdn.example/9.json"
         {| image := Some "https://a.example/1.png";
            image_url := Some "https://a.example/2.png"; imageUrl := None;
            animation_url := None; animationUrl := None |})
      (Some (only_cdn_json "https://cdn.example/9.json")) None
    = Returns "https://a.example/1.png".
Proof.
  split; [|reflexivity].
  eexists. split_and!; [reflexivity | reflexivity | reflexivity | vm_compute; discriminate].
Qed.

End claims_resolution.

Section claims_wallet.
Import Js Wallet.

Lemma all_outcomes_throws {A} (l : list (outcome A)) x e :
  x ∈ l → x = Throws e → ∃ e', all_outcomes l = Throws e'.
Proof.
  intros Hin ->. induction l as [|y l IH]; [by apply elem_of_nil in Hin|].
  apply elem_of_cons in Hin as [<-|Hin]; [by exists e|].
  destruct (IH Hin) as [e' He']. simpl.
  destruct y as [a|e'']; simpl; [rewrite He'; by exists e' | by exists e''].
Qed.

Lemma toNFT_throws w owner ownership e :
  created_at w (Ownership.last_transaction_timestamp ownership) = Throws e →
  toNFT w owner ownership = Throws e.
Proof.
  intros He. unfold toNFT.
  destruct (resolved_image_returns w
              (default TokenData.empty (Ownership.current_token_data ownership)))
    as [url ->].
  simpl. by rewrite He.
Qed.

(** C10 (as amended). For an address that is non-empty and not
    ['all'], when the upstream answers with [n] ownership rows whose
    timestamps [Date] can print, [fetchNFTs] reports
    [total = max(20, 2 * n)], whatever the number of NFTs owned, and
    leaves the listings cache alone.  It returns the records of the
    rows it was sent that pass the marketplace filter, all [n] of them
    without such a filter, and does no slicing of its own: at most [n]
    records, whatever [pageSize] is.  When a row has a timestamp that
    [Date] cannot print, the call returns the empty sentinel. *)
Theorem wallet_total_heuristic (w : World) (p : Params)
    (listingsCache : gmap string Cache.ListingsCache)
    (response : Gateway.Response Ownership.t) (body : Gateway.Body Ownership.t)
    (d : Gateway.Data Ownership.t) (ownerships : list Ownership.t) :
  truthy (address p) = true →
  str (address p) ≠ "all" →
  wallet_indexer w (simpleQuery p) = Returns response →
  Gateway.ok response = true →
  Gateway.json response = Returns body →
  Gateway.errors body = false →
  Gateway.data body = Some d →
  Gateway.table d = Gateway.Rows ownerships →
  (printable_rows w ownerships →
   ∃ records,
     all_outcomes (map (toNFT w (str (address p))) ownerships) = Returns records
     ∧ length records = length ownerships
     ∧ fetchNFTs w p listingsCache
       = (Returns {| nfts := filteredNfts p records;
                     total := Z.max 20 (2 * Z.of_nat (length ownerships)) |},
          listingsCache)
     ∧ (length (filteredNfts p records) ≤ length ownerships)%nat
     ∧ (truthy (marketplace p) = false → filteredNfts p records = records))
  ∧ (¬ printable_rows w ownerships →
     fetchNFTs w p listingsCache = (Returns empty_page, listingsCache)).
Proof.
  intros Haddr Hall Hq Hok Hj He Hd Ht.
  assert (fetchNFTs w p listingsCache
          = (try_catch (fetch_owned w p) (λ _, Returns empty_page), listingsCache)) as ->.
  { unfold fetchNFTs. rewrite Haddr. simpl. by rewrite (proj2 (String.eqb_neq _ _) Hall). }
  assert (fetch_owned w p
          = (nfts ← all_outcomes (map (toNFT w (str (address p))) ownerships);
             Returns {| nfts := filteredNfts p nfts;
                        total := Z.max 20 (Z.of_nat (length ownerships) * 2) |})) as ->.
  { unfold fetch_owned. rewrite Hq. simpl. rewrite Hok. simpl. rewrite Hj. simpl.
    by rewrite He, Hd, Ht. }
  split.
  - intros Hrows.
    destruct (all_outcomes_returns (map (toNFT w (str (address p))) ownerships))
      as [records Hrec].
    { apply Forall_map. eapply Forall_impl; [exact Hrows|].
      intros o Ho. by apply toNFT_returns. }
    exists records. rewrite Hrec. simpl.
    assert (length records = length ownerships) as Hlen
      by (by rewrite (all_outcomes_length _ _ Hrec), length_map).
    split_and!; [done | done | by rewrite Z.mul_comm | |].
    + rewrite <- Hlen. apply filteredNfts_length.
    + unfold filteredNfts. by intros ->.
  - intros Hnot.
    assert (∀ o, {∃ iso, created_at w (Ownership.last_transaction_timestamp o) = Returns iso}
                 + {¬ ∃ iso, created_at w (Ownership.last_transaction_timestamp o)
                             = Returns iso}) as Hdec.
    { intros o. destruct (created_at w (Ownership.last_transaction_timestamp o)) as [iso|e];
        [left; by exists iso | right; by intros [iso ?]]. }
    destruct (Forall_Exists_dec _ _ Hdec ownerships) as [Hrows|Hsome]; [by destruct Hnot|].
    apply Exists_exists in Hsome as (o & Hin & Ho).
    destruct (created_at w (Ownership.last_transaction_timestamp o)) as [iso|e] eqn:Hc;
      [destruct Ho; by exists iso|].
    destruct (all_outcomes_throws (map (toNFT w (str (address p))) ownerships)
                (toNFT w (str (address p)) o) e) as [e' ->];
      [by apply list_elem_of_fmap_2 | by apply toNFT_throws | done].
Qed.

(** Two rows for a page of eight: the total reported is 20. *)
Lemma wallet_total_heuristic_witness :
  ∃ result,
    fetchNFTs (serving_world [] [sample_ownership; sample_ownership] 1000 2000)
      (wallet_params "0xcafe" 8) ∅ = (Returns result, ∅)
    ∧ total result = 20.
Proof.
  destruct (wallet_total_heuristic
              (serving_world [] [sample_ownership; sample_ownership] 1000 2000)
              (wallet_params "0xcafe" 8) ∅
              (ok_response [sample_ownership; sample_ownership] None)
              {| Gateway.errors := false;
                 Gateway.data :=
                   Some {| Gateway.table := Gateway.Rows [sample_ownership; sample_ownership];
                           Gateway.count := None |} |}
              {| Gateway.table := Gateway.Rows [sample_ownership; sample_ownership];
                 Gateway.count := None |}
              [sample_ownership; sample_ownership])
    as [Hprintable _];
    [reflexivity | discriminate | reflexivity | reflexivity | reflexivity | reflexivity
    | reflexivity | reflexivity |].
  destruct Hprintable as (records & _ & _ & Hr & _); [repeat constructor; by eexists|].
  eexists. split; [exact Hr | reflexivity].
Defined.

(** C10 as stated fails: three rows sent for a page of one give three
    records, while the total reported is 20. *)
Lemma wallet_page_exceeds_page_size :
  ∃ first second third,
    fetchNFTs
      (serving_world [] [sample_ownership; sample_ownership; sample_ownership] 1000 2000)
      (wallet_params "0xcafe" 1) ∅
    = (Returns {| nfts := [first; second; third]; total := 20 |}, ∅)
    ∧ Wallet.the_pageSize (wallet_params "0xcafe" 1) = 1.
Proof. eexists _, _, _. split; reflexivity. Qed.

(** A row without timestamp: [new Date(undefined)] cannot be printed,
    and the whole call returns the sentinel. *)
Lemma wallet_row_without_timestamp :
  fetchNFTs
    (serving_world []
       [sample_ownership;
        {| Ownership.token_data_id := Some "0xdef"; Ownership.current_token_data := None;
           Ownership.last_transaction_timestamp := Ownership.Absent |}] 1000 2000)
    (wallet_params "0xcafe" 8) ∅
  = (Returns empty_page, ∅).
Proof. reflexivity. Qed.

End claims_wallet.

Section claims_stats.
Import Stats.

(** C7, evaluated where it fails: the two versioned identifiers of
    TradePort share one display name, so the second share overwrites
    the first and the even split sums to 50, not to 100. *)
Lemma even_split_collides_on_display_name :
  distribution_without_sales [Some "tradeport_v1"; Some "tradeport_v2"]
  = {["TradePort" := 50]}
  ∧ sum_of_shares (distribution_without_sales [Some "tradeport_v1"; Some "tradeport_v2"])
    = 50.
Proof. split; vm_compute; reflexivity. Qed.

End claims_stats.

(** * Further properties of the code *)

(** * Further properties *)

(** ** Names *)

Section name_facts.
Import Js Format Names.

Ltac by_chars c := destruct c as [[] [] [] [] [] [] [] []].

Lemma upper_lower_char c : is_upper (lower_char c) = false.
Proof. by_chars c; reflexivity. Qed.

Lemma digit_lower_char c : is_digit c = true → lower_char c = c.
Proof. by_chars c; (reflexivity || discriminate). Qed.

Lemma digit_not_separator c : is_digit c = true → Ascii.eqb c "_" = false.
Proof. by_chars c; (reflexivity || discriminate). Qed.

Lemma lower_char_id c : is_upper c = false → lower_char c = c.
Proof. unfold lower_char. by intros ->. Qed.

Lemma every_append P a b : every P (a +:+ b) = every P a && every P b.
Proof.
  induction a as [|c a IH]; [done|].
  rewrite append_cons. cbn [every]. by rewrite IH, andb_assoc.
Qed.

Lemma every_impl (P Q : ascii → bool) s :
  (∀ c, P c = true → Q c = true) → every P s = true → every Q s = true.
Proof.
  intros HPQ. induction s as [|c s IH]; [done|]. cbn [every].
  intros [Hc Hs]%andb_true_iff. by rewrite (HPQ c Hc), IH.
Qed.

Lemma every_and (P Q : ascii → bool) s :
  every P s = true → every Q s = true → every (λ c, P c && Q c) s = true.
Proof.
  induction s as [|c s IH]; [done|]. cbn [every].
  intros [Hp Hs]%andb_true_iff [Hq Hs']%andb_true_iff. by rewrite Hp, Hq, IH.
Qed.

Lemma every_map_chars P f s :
  (∀ c, P (f c) = true) → every P (map_chars f s) = true.
Proof.
  intros Hf. induction s as [|c s IH]; [done|]. cbn [map_chars every]. by rewrite Hf, IH.
Qed.

Lemma every_cut P m s : every P s = true → every P (cut_at_match m s) = true.
Proof.
  induction s as [|c s IH]; cbn [cut_at_match every].
  - by destruct (m "").
  - intros [Hc Hs]%andb_true_iff. destruct (m (String c s)); [done|].
    cbn [every]. by rewrite Hc, IH.
Qed.

Lemma every_remove_separators P s :
  every P s = true → every P (remove_separators s) = true.
Proof.
  induction s as [|c s IH]; [done|]. cbn [remove_separators every].
  intros [Hc Hs]%andb_true_iff.
  destruct (Ascii.eqb c "-" || Ascii.eqb c "_"); [by apply IH|].
  cbn [every]. by rewrite Hc, IH.
Qed.

Lemma remove_separators_clean s :
  every (λ c, negb (is_separator c)) (remove_separators s) = true.
Proof.
  induction s as [|c s IH]; [done|]. cbn [remove_separators].
  destruct (Ascii.eqb c "-" || Ascii.eqb c "_") eqn:E; [done|].
  cbn [every]. unfold is_separator at 1. by rewrite E, IH.
Qed.

Lemma remove_separators_id s :
  every (λ c, negb (is_separator c)) s = true → remove_separators s = s.
Proof.
  induction s as [|c s IH]; [done|]. cbn [remove_separators every].
  intros [Hc Hs]%andb_true_iff. apply negb_true_iff in Hc. unfold is_separator in Hc.
  by rewrite Hc, IH.
Qed.

Lemma toLowerCase_id s : every (λ c, negb (is_upper c)) s = true → toLowerCase s = s.
Proof.
  induction s as [|c s IH]; [done|]. cbn [every].
  intros [Hc Hs]%andb_true_iff. apply negb_true_iff in Hc.
  unfold toLowerCase in *. cbn [map_chars]. by rewrite IH, lower_char_id.
Qed.

Lemma toLowerCase_digits d : all_digits d = true → toLowerCase d = d.
Proof.
  induction d as [|c d IH]; [done|]. cbn [all_digits].
  intros [Hc Hd]%andb_true_iff.
  unfold toLowerCase in *. cbn [map_chars]. by rewrite IH, digit_lower_char.
Qed.

(** What [getBaseMarketplaceName] returns is in canonical form: no
    upper-case letter, no hyphen, no underscore. *)
Lemma base_name_canonical name :
  every (λ c, negb (is_upper c) && negb (is_separator c)) (getBaseMarketplaceName name) = true.
Proof.
  destruct name as [|a name]; [reflexivity|].
  unfold getBaseMarketplaceName. apply every_and.
  - apply every_remove_separators, every_cut, every_cut.
    apply every_map_chars. intros c. by rewrite upper_lower_char.
  - apply remove_separators_clean.
Qed.

Lemma digits_with_underscore x z : all_digits (x +:+ String "_" z) = false.
Proof.
  induction x as [|c x IH]; [done|].
  rewrite append_cons. cbn [all_digits]. by rewrite IH, andb_false_r.
Qed.

Lemma digits1_with_underscore x z : digits1 (x +:+ String "_" z) = false.
Proof. destruct x; [done|]. apply (digits_with_underscore (String a x)). Qed.

Lemma match_v_inside c x d : match_v_digits (String c (x +:+ version_suffix d)) = false.
Proof.
  unfold version_suffix. destruct x as [|c' x].
  - change (match_v_digits (String c (String "_" (String "v" d))) = false).
    unfold match_v_digits. change (Ascii.eqb "_" "v" || Ascii.eqb "_" "V") with false.
    by rewrite andb_false_r.
  - change (match_v_digits (String c (String c' (x +:+ String "_" (String "v" d)))) = false).
    unfold match_v_digits. by rewrite digits1_with_underscore, andb_false_r.
Qed.

(** The version pattern matches nowhere before an appended suffix. *)
Lemma cut_version_suffix x d :
  digits1 d = true → cut_at_match match_v_digits (x +:+ version_suffix d) = x.
Proof.
  intros Hd. induction x as [|c x IH].
  - change (cut_at_match match_v_digits (String "_" (String "v" d)) = "").
    cbn [cut_at_match].
    change (match_v_digits (String "_" (String "v" d))) with (true && true && digits1 d).
    by rewrite Hd.
  - rewrite append_cons. cbn [cut_at_match]. by rewrite match_v_inside, IH.
Qed.

Lemma digits1_all d : digits1 d = true → all_digits d = true.
Proof. by destruct d. Qed.

Lemma lower_version_suffix b d :
  digits1 d = true →
  toLowerCase (b +:+ version_suffix d) = toLowerCase b +:+ version_suffix d.
Proof.
  intros Hd%digits1_all. unfold toLowerCase, version_suffix.
  rewrite map_chars_append. f_equal.
  change (String "_" (String "v" (map_chars lower_char d)) = String "_" (String "v" d)).
  do 2 f_equal. by apply toLowerCase_digits.
Qed.

(** X1. Versions of one marketplace get one base name: a name that is not
    empty and has, in lower case, no version suffix of its own has the
    base name of the same name with [_v<digits>] appended. *)
Theorem base_name_ignores_version (base digits : string) :
  base ≠ "" →
  digits1 digits = true →
  unversioned (toLowerCase base) →
  getBaseMarketplaceName (base +:+ version_suffix digits) = getBaseMarketplaceName base.
Proof.
  intros Hne Hd Hun. destruct base as [|c base]; [done|].
  rewrite append_cons. unfold getBaseMarketplaceName.
  change (String c (base +:+ version_suffix digits))
    with (String c base +:+ version_suffix digits).
  rewrite lower_version_suffix, cut_version_suffix by done.
  by rewrite Hun.
Qed.

Lemma base_name_ignores_version_witness :
  getBaseMarketplaceName ("Trade-Port" +:+ version_suffix "12")
  = getBaseMarketplaceName "Trade-Port".
Proof. apply base_name_ignores_version; [discriminate | reflexivity | reflexivity]. Defined.

(** X2. A base name is its own base name, unless it is empty:
    [getBaseMarketplaceName] is idempotent on every name whose base
    name is not the empty string. *)
Theorem base_name_idempotent (name : string) :
  getBaseMarketplaceName name ≠ "" →
  getBaseMarketplaceName (getBaseMarketplaceName name) = getBaseMarketplaceName name.
Proof.
  intros Hne. pose proof (base_name_canonical name) as Hc.
  destruct (getBaseMarketplaceName name) as [|c r] eqn:E; [done|].
  assert (every (λ c, negb (is_upper c)) (String c r) = true) as Hup.
  { revert Hc. apply every_impl. by intros a [? _]%andb_true_iff. }
  assert (every (λ c, negb (is_separator c)) (String c r) = true) as Hsep.
  { revert Hc. apply every_impl. by intros a [_ ?]%andb_true_iff. }
  unfold getBaseMarketplaceName.
  by rewrite (toLowerCase_id _ Hup), (cut_v_digits_id _ Hsep), (cut_digits_id _ Hsep),
    (remove_separators_id _ Hsep).
Qed.

Lemma base_name_idempotent_witness :
  getBaseMarketplaceName (getBaseMarketplaceName "Blue-Move_v2")
  = getBaseMarketplaceName "Blue-Move_v2".
Proof. apply base_name_idempotent. vm_compute. discriminate. Defined.

(** An occurrence of a pattern that has no [c] lies on one side of a [c]. *)
Lemma startsWith_before c x z p :
  every (λ a, negb (Ascii.eqb a c)) p = true →
  startsWith (x +:+ String c z) p = startsWith x p.
Proof.
  revert x. induction p as [|a p IH]; intros x Hp; [done|].
  cbn [every] in Hp. apply andb_true_iff in Hp as [Ha Hp]. apply negb_true_iff in Ha.
  destruct x as [|b x].
  - change (startsWith (String c z) (String a p) = false). cbn [startsWith]. by rewrite Ha.
  - rewrite append_cons. cbn [startsWith]. by rewrite IH.
Qed.

Lemma includes_around c x z p :
  p ≠ "" →
  every (λ a, negb (Ascii.eqb a c)) p = true →
  includes (x +:+ String c z) p = includes x p || includes z p.
Proof.
  intros Hne Hp. induction x as [|b x IH].
  - change (includes (String c z) p = includes "" p || includes z p).
    cbn [includes]. pose proof (startsWith_before c "" z p Hp) as E.
    change ("" +:+ String c z) with (String c z) in E. rewrite E.
    destruct p; [done|]. cbn [startsWith]. by rewrite orb_false_r.
  - rewrite append_cons. cbn [includes].
    change (String b (x +:+ String c z)) with (String b x +:+ String c z).
    rewrite startsWith_before, IH by done. by rewrite orb_assoc.
Qed.

Lemma startsWith_every P s p :
  every P s = true → startsWith s p = true → every P p = true.
Proof.
  revert s. induction p as [|a p IH]; intros [|b s]; cbn [startsWith every]; try done.
  intros [Hb Hs]%andb_true_iff. destruct (Ascii.eqb a b) eqn:E; [|done].
  apply Ascii.eqb_eq in E as ->. intros Hp. by rewrite Hb, (IH s).
Qed.

Lemma includes_every P s p :
  every P s = true → every P p = false → includes s p = false.
Proof.
  intros Hs Hp. induction s as [|b s IH]; cbn [includes].
  - rewrite orb_false_r. apply not_true_is_false. intros H.
    by rewrite (startsWith_every P "" p) in Hp.
  - cbn [every] in Hs. apply andb_true_iff in Hs as [Hb Hs]. rewrite (IH Hs), orb_false_r.
    apply not_true_is_false. intros H.
    rewrite (startsWith_every P (String b s) p) in Hp; [done | | done].
    cbn [every]. by rewrite Hb, Hs.
Qed.

(** A vendor fragment is in the versioned name exactly if it is in the
    name: the suffix holds none. *)
Lemma includes_versioned b d p :
  p ≠ "" →
  every (λ a, negb (Ascii.eqb a "_")) p = true →
  every (λ a, Ascii.eqb a "v" || is_digit a) p = false →
  digits1 d = true →
  includes (toLowerCase (b +:+ version_suffix d)) p = includes (toLowerCase b) p.
Proof.
  intros Hne Hp Hq Hd. rewrite lower_version_suffix by done.
  unfold version_suffix.
  change (toLowerCase b +:+ "_v" +:+ d) with (toLowerCase b +:+ String "_" (String "v" d)).
  rewrite includes_around by done.
  rewrite (includes_every (λ a, Ascii.eqb a "v" || is_digit a) (String "v" d) p);
    [by rewrite orb_false_r | | done].
  cbn [every]. change (Ascii.eqb "v" "v" || is_digit "v") with true. cbn [andb].
  apply digits1_all in Hd. clear -Hd.
  induction d as [|c d IH]; [done|]. cbn [all_digits every] in *.
  apply andb_true_iff in Hd as [Hc Hd]. by rewrite Hc, orb_true_r, IH.
Qed.

(** X3. The display name does not depend on the version suffix: a name
    that is not empty and has no version suffix of its own is formatted
    like the same name with [_v<digits>] appended. *)
Theorem format_ignores_version (base digits : string) :
  base ≠ "" →
  digits1 digits = true →
  unversioned base →
  formatMarketplaceName (base +:+ version_suffix digits) = formatMarketplaceName base.
Proof.
  intros Hne Hd Hun. destruct base as [|c base]; [done|].
  rewrite append_cons. unfold formatMarketplaceName.
  change (String c (base +:+ version_suffix digits))
    with (String c base +:+ version_suffix digits).
  rewrite !includes_versioned by done.
  unfold strip_suffixes. by rewrite cut_version_suffix, Hun.
Qed.

Lemma format_ignores_version_witness :
  formatMarketplaceName ("wapal" +:+ version_suffix "3") = formatMarketplaceName "wapal".
Proof. apply format_ignores_version; [discriminate | reflexivity | reflexivity]. Defined.

(** A display name holds neither hyphen nor underscore. *)
Lemma formatted_clean (name : string) :
  every (λ c, negb (is_separator c)) (formatMarketplaceName name) = true.
Proof.
  destruct (plain name) eqn:Hp.
  - destruct (decide (name = "")) as [->|Hname]; [reflexivity|].
    rewrite (format_plain name Hname Hp).
    apply title_from_clean, separators_clean.
  - destruct (plain_cases name Hp) as [-> | [-> | [-> | ->]]]; reflexivity.
Qed.

End name_facts.


(** ** Images *)

Section more_image_facts.
Import Js Image.

Lemma convertIpfsUrl_not_ipfs url : startsWith (convertIpfsUrl url) "ipfs://" = false.
Proof.
  unfold convertIpfsUrl. destruct url as [|c url]; [done|].
  by destruct (startsWith (String c url) "ipfs://") eqn:E.
Qed.

Lemma convertIpfsUrl_id url : startsWith url "ipfs://" = false → convertIpfsUrl url = url.
Proof. unfold convertIpfsUrl. intros ->. by destruct url. Qed.

(** X4. [convertIpfsUrl] never returns an [ipfs://] address, and a second
    application changes nothing. *)
Theorem convertIpfsUrl_settles (url : string) :
  startsWith (convertIpfsUrl url) "ipfs://" = false
  ∧ convertIpfsUrl (convertIpfsUrl url) = convertIpfsUrl url.
Proof.
  split; [apply convertIpfsUrl_not_ipfs|].
  apply convertIpfsUrl_id, convertIpfsUrl_not_ipfs.
Qed.

Lemma and_then_inv (s next : Step) v :
  (s >>> next) = Returns (Some v) →
  s = Returns (Some v) ∨ (s = Returns None ∧ next = Returns (Some v)).
Proof. destruct s as [[u|]|e]; simpl; intros E; [by left | by right | done]. Qed.

Lemma when_inv guard (s : Step) v :
  when guard s = Returns (Some v) → guard = true ∧ s = Returns (Some v).
Proof. by destruct guard. Qed.

Lemma rewritten_returns url : rewritten (returns (convertIpfsUrl url)).
Proof. intros v [= <-]. apply convertIpfsUrl_not_ipfs. Qed.

Lemma rewritten_when guard s : rewritten s → rewritten (when guard s).
Proof. intros Hs v [_ E]%when_inv. by apply Hs. Qed.

Lemma rewritten_and_then s next : rewritten s → rewritten next → rewritten (s >>> next).
Proof. intros Hs Hn v [E|[_ E]]%and_then_inv; [by apply Hs | by apply Hn]. Qed.

Lemma rewritten_raw_image_step raw : rewritten (raw_image_step raw).
Proof. unfold raw_image_step. repeat case_match; apply rewritten_returns. Qed.

Lemma first_image_field_rewritten m v :
  first_image_field m = Some v → startsWith v "ipfs://" = false.
Proof.
  unfold first_image_field.
  repeat case_match; intros [= <-]; apply convertIpfsUrl_not_ipfs.
Qed.

Lemma rewritten_fetch_linked_json fetch url : rewritten (fetch_linked_json fetch url).
Proof.
  rewrite fetch_linked_json_spec. intros v [= E]. revert E. unfold linked_image.
  repeat case_match; try done. apply first_image_field_rewritten.
Qed.

(** X5. Every address that [getBestImageUrl] returns has gone through the
    [ipfs://] rewrite, except the two CDN fields, which are returned as
    they are. *)
Theorem getBestImageUrl_rewrites (fetch : Fetch) (u : CdnAssetUris)
    (token_uri : option string) (url : string) :
  getBestImageUrl fetch (Some u) token_uri = Returns url →
  startsWith url "ipfs://" = true →
  url = str (cdn_image_uri u) ∨ url = str (cdn_animation_uri u).
Proof.
  unfold getBestImageUrl.
  match goal with
  | |- mbind _ ?chain = _ → _ => destruct chain as [[v|]|e] eqn:E
  end; intros H1 Hipfs; [| |done].
  2: { assert (url = "") as -> by (by injection H1). done. }
  assert (url = v) as -> by (by injection H1). clear H1.
  apply and_then_inv in E as [E|[_ E]].
  { apply when_inv in E as [_ [= <-]]. by left. }
  apply and_then_inv in E as [E|[_ E]].
  { by rewrite (rewritten_when _ _ (rewritten_raw_image_step _) _ E) in Hipfs. }
  apply and_then_inv in E as [E|[_ E]].
  { apply when_inv in E as [_ [= <-]]. by right. }
  assert (startsWith v "ipfs://" = false) as Hv; [|by rewrite Hv in Hipfs].
  revert E.
  match goal with
  | |- ?rest = _ → _ => assert (rewritten rest) as Hr; [|apply Hr]
  end.
  repeat (apply rewritten_and_then || apply rewritten_when);
    auto using rewritten_returns, rewritten_fetch_linked_json.
Qed.

Lemma getBestImageUrl_rewrites_witness :
  "ipfs://QmZ/1.png"
  = str (cdn_image_uri
           {| cdn_image_uri := Some "ipfs://QmZ/1.png"; asset_uri := None;
              cdn_animation_uri := None; raw_animation_uri := None;
              raw_image_uri := Some "ipfs://QmZ/2.png"; cdn_json_uri := None |})
  ∨ "ipfs://QmZ/1.png"
    = str (cdn_animation_uri
             {| cdn_image_uri := Some "ipfs://QmZ/1.png"; asset_uri := None;
                cdn_animation_uri := None; raw_animation_uri := None;
                raw_image_uri := Some "ipfs://QmZ/2.png"; cdn_json_uri := None |}).
Proof. apply (getBestImageUrl_rewrites offline _ None); reflexivity. Defined.

(** X6. With a direct source the network is not consulted and the
    result is the same on every network.  The direct sources are those
    of steps 1 to 5: a CDN image URI, a raw image URI, a CDN animation
    URI, a raw animation URI, or an asset URI whose name has one of the
    image extensions (an asset URI with a video extension is not one of
    them). *)
Theorem getBestImageUrl_direct_without_network (fetch fetch' : Fetch) (u : CdnAssetUris)
    (token_uri : option string) :
  no_direct_source u = false →
  getBestImageUrl fetch (Some u) token_uri = getBestImageUrl fetch' (Some u) token_uri.
Proof.
  unfold no_direct_source, getBestImageUrl. intros Hdirect.
  destruct (truthy (cdn_image_uri u)); [done|].
  destruct (truthy (raw_image_uri u)).
  { simpl. unfold raw_image_step. by repeat case_match. }
  destruct (truthy (cdn_animation_uri u)); [done|].
  destruct (truthy (raw_animation_uri u)); [done|].
  simpl in Hdirect. apply negb_false_iff in Hdirect.
  apply andb_true_iff in Hdirect as [Ha Hi].
  simpl. by rewrite Ha, Hi.
Qed.

Lemma getBestImageUrl_direct_without_network_witness :
  getBestImageUrl offline (Some (only_asset "https://a.example/1.png")) None
  = getBestImageUrl (serving "https://a.example/1.png" {| image := None; image_url := None;
                       imageUrl := None; animation_url := None; animationUrl := None |})
      (Some (only_asset "https://a.example/1.png")) None.
Proof. apply getBestImageUrl_direct_without_network. reflexivity. Defined.

End more_image_facts.

(** ** Placeholders *)

Section process_facts.
Import Js Process.

Lemma with_image_url_same nft : with_image_url nft (NFT.image_url nft) = nft.
Proof. by destruct nft. Qed.

(** X7. [processNFTImageUrl] changes nothing but the image, never leaves the
    image empty, keeps an image that is there, and does the same when
    applied twice. *)
Theorem processNFTImageUrl_fills_image (nft : NFT.t) :
  processNFTImageUrl nft = with_image_url nft (NFT.image_url (processNFTImageUrl nft))
  ∧ Listings.nonempty (NFT.image_url (processNFTImageUrl nft)) = true
  ∧ (Listings.nonempty (NFT.image_url nft) = true → processNFTImageUrl nft = nft)
  ∧ processNFTImageUrl (processNFTImageUrl nft) = processNFTImageUrl nft.
Proof.
  unfold processNFTImageUrl.
  destruct (Listings.nonempty (NFT.image_url nft)) eqn:Hi; simpl.
  - destruct (includes (NFT.image_url nft) "undefined") eqn:Hu; simpl;
      rewrite ?Hi, ?Hu; simpl; by rewrite ?with_image_url_same.
  - split_and!; [reflexivity | reflexivity | done |].
    cbn [NFT.image_url with_image_url].
    change (Listings.nonempty ("https://via.placeholder.com/500x500?text=" +:+ ?x))
      with true.
    by destruct (includes _ "undefined").
Qed.

Lemma processNFTImageUrl_fills_image_witness :
  processNFTImageUrl (sample_nft "Cat" "https://a.example/undefined.png")
  = sample_nft "Cat" "https://a.example/undefined.png".
Proof.
  destruct (processNFTImageUrl_fills_image
              (sample_nft "Cat" "https://a.example/undefined.png")) as (_ & _ & H & _).
  apply H. reflexivity.
Defined.

End process_facts.

(** ** The NFT card *)

Section card_facts.
Import Js Card.

Ltac by_chars c := destruct c as [[] [] [] [] [] [] [] []].

Lemma every_replace_char P c replacement s :
  every P replacement = true →
  every (λ a, Ascii.eqb a c || P a) s = true →
  every P (replace_char c replacement s) = true.
Proof.
  intros Hr. induction s as [|a s IH]; [done|]. cbn [replace_char every].
  intros [Ha Hs]%andb_true_iff. rewrite every_append, (IH Hs), andb_true_r.
  destruct (Ascii.eqb a c); [done|]. cbn [every]. simpl in Ha. by rewrite Ha.
Qed.

Lemma replace_char_id c replacement s :
  every (λ a, negb (Ascii.eqb a c)) s = true → replace_char c replacement s = s.
Proof.
  induction s as [|a s IH]; [done|]. cbn [replace_char every].
  intros [Ha Hs]%andb_true_iff. apply negb_true_iff in Ha. by rewrite Ha, IH.
Qed.

(** The five passes, from the innermost: what each leaves out. *)
Lemma sanitized_clean s :
  every (λ c, negb (is_markup c))
    (replace_char "'" "&#039;"
       (replace_char double_quote "&quot;"
          (replace_char "&" "&amp;"
             (replace_char ">" "&gt;" (replace_char "<" "&lt;" s))))) = true.
Proof.
  set (no_lt := λ a, negb (Ascii.eqb a "<")).
  set (no_angle := λ a, negb (Ascii.eqb a "<") && negb (Ascii.eqb a ">")).
  set (no_double := λ a, no_angle a && negb (Ascii.eqb a double_quote)).
  assert (every no_lt (replace_char "<" "&lt;" s) = true) as H1.
  { apply every_replace_char; [reflexivity|].
    clear. induction s as [|a s IH]; [done|]. cbn [every]. by rewrite IH, orb_negb_r. }
  assert (every no_angle (replace_char ">" "&gt;" (replace_char "<" "&lt;" s)) = true) as H2.
  { apply every_replace_char; [reflexivity|]. revert H1. apply every_impl.
    intros a. unfold no_lt, no_angle. by_chars a; vm_compute; done. }
  assert (every no_angle
            (replace_char "&" "&amp;"
               (replace_char ">" "&gt;" (replace_char "<" "&lt;" s))) = true) as H3.
  { apply every_replace_char; [reflexivity|]. revert H2. apply every_impl.
    intros a Ha. by rewrite Ha, orb_true_r. }
  assert (every no_double
            (replace_char double_quote "&quot;"
               (replace_char "&" "&amp;"
                  (replace_char ">" "&gt;" (replace_char "<" "&lt;" s)))) = true) as H4.
  { apply every_replace_char; [reflexivity|]. revert H3. apply every_impl.
    intros a. unfold no_double, no_angle. by_chars a; vm_compute; done. }
  apply every_replace_char; [reflexivity|]. revert H4. apply every_impl.
  intros a. unfold no_double, no_angle, is_markup. by_chars a; vm_compute; done.
Qed.

(** X8. What [sanitizeText] returns holds no angle bracket and no quote;
    text without these and without ampersand comes back unchanged. *)
Theorem sanitizeText_removes_markup (text : option string) :
  every (λ c, negb (is_markup c)) (sanitizeText text) = true
  ∧ (every (λ c, negb (is_markup c) && negb (Ascii.eqb c "&")) (str text) = true →
     sanitizeText text = str text).
Proof.
  unfold sanitizeText. destruct (truthy text) eqn:Ht.
  - split; [apply sanitized_clean|]. intros Hclean.
    rewrite (replace_char_id "<"), (replace_char_id ">"), (replace_char_id "&"),
      (replace_char_id double_quote), (replace_char_id "'"); [done|..];
      (eapply every_impl; [|exact Hclean]); intros a; cbn beta; unfold is_markup;
      by_chars a; vm_compute; done.
  - split; [done|]. intros _. by destruct text as [[|]|].
Qed.

Lemma sanitizeText_removes_markup_witness :
  sanitizeText (Some "Cool Cat #1") = "Cool Cat #1".
Proof.
  destruct (sanitizeText_removes_markup (Some "Cool Cat #1")) as [_ H].
  apply H. reflexivity.
Defined.

Lemma unreserved_not_colon c : uri_unreserved c = true → is_colon c = false.
Proof. by_chars c; vm_compute; done. Qed.

Lemma hex_high_not_colon c : is_colon (hex_digit (code c / 16)) = false.
Proof. by_chars c; reflexivity. Qed.

Lemma hex_low_not_colon c : is_colon (hex_digit (code c mod 16)) = false.
Proof. by_chars c; reflexivity. Qed.

(** [encodeURIComponent] writes no colon. *)
Lemma encoded_without_colon s :
  every (λ c, negb (is_colon c)) (encodeURIComponent s) = true.
Proof.
  induction s as [|c s IH]; [done|]. cbn [encodeURIComponent].
  destruct (uri_unreserved c) eqn:E; cbn [every].
  - by rewrite (unreserved_not_colon c E), IH.
  - by rewrite hex_high_not_colon, hex_low_not_colon, IH.
Qed.

Lemma ends_in_colon_dirty p :
  ends_in_colon p = true → every (λ c, negb (is_colon c)) p = false.
Proof.
  induction p as [|c p IH]; [done|]. cbn [ends_in_colon every].
  destruct p as [|c' p].
  - intros ->. done.
  - intros Hp. by rewrite (IH Hp), andb_false_r.
Qed.

(** A pattern that ends in a colon, found at the head of a string whose
    tail has no colon, lies within the head. *)
Lemma startsWith_head a t p :
  every (λ c, negb (is_colon c)) t = true →
  ends_in_colon p = true →
  startsWith (a +:+ t) p = true → startsWith a p = true.
Proof.
  intros Ht. revert p. induction a as [|c a IH]; intros p Hp.
  - change ("" +:+ t) with t. intros Hs.
    pose proof (ends_in_colon_dirty p Hp) as Hdirty.
    by rewrite (startsWith_every _ _ _ Ht Hs) in Hdirty.
  - rewrite append_cons. destruct p as [|x p]; [done|]. cbn [startsWith].
    destruct (Ascii.eqb x c); [|done].
    destruct p as [|x' p]; [done|]. by apply IH.
Qed.

Lemma includes_head a t p :
  every (λ c, negb (is_colon c)) t = true →
  ends_in_colon p = true →
  includes (a +:+ t) p = true → includes a p = true.
Proof.
  intros Ht Hp. induction a as [|c a IH].
  - change ("" +:+ t) with t. intros Hi.
    by rewrite (includes_every _ _ _ Ht (ends_in_colon_dirty p Hp)) in Hi.
  - rewrite append_cons. cbn [includes].
    change (String c (a +:+ t)) with (String c a +:+ t).
    intros [Hs|Hi]%orb_true_iff; apply orb_true_iff.
    + left. by apply (startsWith_head (String c a) t).
    + right. by apply IH.
Qed.

(** X9. The placeholder that the data layer generates is an address that the
    card accepts: the card shows it and not the fallback image. *)
Theorem placeholder_is_displayed (text : string) :
  isSafeImageUrl (Listings.placeholder text) = true
  ∧ getImageUrl (Listings.placeholder text) = Listings.placeholder text.
Proof.
  assert (isSafeImageUrl (Listings.placeholder text) = true) as Hsafe.
  { unfold isSafeImageUrl, Listings.placeholder.
    rewrite (startsWith_append "https://via.placeholder.com/500x500?text=") by reflexivity.
    cbn [andb].
    apply andb_true_iff; split; apply negb_true_iff, not_true_is_false;
      intros Hin%includes_head; try done; apply encoded_without_colon. }
  split; [done|]. unfold getImageUrl. rewrite Hsafe.
  reflexivity.
Qed.

End card_facts.

(** ** The wallet list *)

Section wallet_list_facts.
Context {W K : Type} `{Countable K}.
Variable name : W → K.
Import Wallets.

(** The state of the loop: the names seen are the names kept. *)
Lemma visit_invariant (walletList : list W) (kept : list W) (seen : gset K) :
  (∀ k, k ∈ seen ↔ k ∈ name <$> kept) →
  NoDup (name <$> kept) →
  (∀ k, k ∈ (foldl (visit name) (kept, seen) walletList).2
        ↔ k ∈ name <$> (foldl (visit name) (kept, seen) walletList).1)
  ∧ NoDup (name <$> (foldl (visit name) (kept, seen) walletList).1)
  ∧ (∃ added, (foldl (visit name) (kept, seen) walletList).1 = kept ++ added
              ∧ added `sublist_of` walletList)
  ∧ (∀ w, w ∈ walletList →
          name w ∈ name <$> (foldl (visit name) (kept, seen) walletList).1).
Proof.
  revert kept seen. induction walletList as [|w l IH]; intros kept seen Hseen Hnodup.
  { cbn [foldl fst snd].
    split_and!; [exact Hseen | exact Hnodup | | by intros w ?%elem_of_nil].
    exists []. split; [by rewrite app_nil_r | done]. }
  cbn [foldl].
  destruct (decide (name w ∈ seen)) as [Hin|Hnin].
  - assert (visit name (kept, seen) w = (kept, seen)) as ->.
    { unfold visit. cbn [fst snd]. by rewrite decide_True. }
    destruct (IH kept seen Hseen Hnodup) as (H1 & H2 & (added & E & Hsub) & H4).
    split_and!; [exact H1 | exact H2 | |].
    + exists added. split; [exact E | by apply sublist_cons].
    + intros w' [->|Hw']%elem_of_cons; [|by apply H4].
      rewrite E, fmap_app. apply elem_of_app. left. by apply Hseen.
  - assert (visit name (kept, seen) w = (kept ++ [w], {[name w]} ∪ seen)) as ->.
    { unfold visit. cbn [fst snd]. by rewrite decide_False. }
    destruct (IH (kept ++ [w]) ({[name w]} ∪ seen)) as (H1 & H2 & (added & E & Hsub) & H4).
    + intros k. rewrite fmap_app, elem_of_app, elem_of_union, elem_of_singleton, Hseen.
      cbn. rewrite list_elem_of_singleton. tauto.
    + rewrite fmap_app. apply NoDup_app. split_and!; [done | | apply NoDup_singleton].
      intros k Hk ->%list_elem_of_singleton. by apply Hnin, Hseen.
    + split_and!; [exact H1 | exact H2 | |].
      * exists (w :: added). split; [by rewrite E, <- app_assoc | by apply sublist_skip].
      * intros w' [->|Hw']%elem_of_cons; [|by apply H4].
        rewrite E, !fmap_app, !elem_of_app. left. right. cbn. by apply list_elem_of_here.
Qed.

Lemma getUniqueWallets_sublist (walletList : list W) :
  getUniqueWallets name walletList `sublist_of` walletList
  ∧ NoDup (name <$> getUniqueWallets name walletList)
  ∧ (∀ w, w ∈ walletList → name w ∈ name <$> getUniqueWallets name walletList).
Proof.
  unfold getUniqueWallets.
  destruct (visit_invariant walletList [] ∅) as (_ & H2 & (added & E & Hsub) & H4).
  - intros k. cbn. rewrite elem_of_empty, elem_of_nil. tauto.
  - cbn. apply NoDup_nil_2.
  - split_and!; [|done|done]. by rewrite E.
Qed.

(** A list without two wallets of the same name comes back as it is. *)
Lemma getUniqueWallets_fixed (walletList : list W) :
  NoDup (name <$> walletList) → getUniqueWallets name walletList = walletList.
Proof.
  intros Hnodup. unfold getUniqueWallets.
  assert (∀ kept seen,
    (∀ k, k ∈ seen ↔ k ∈ name <$> kept) →
    NoDup (name <$> (kept ++ walletList)) →
    (foldl (visit name) (kept, seen) walletList).1 = kept ++ walletList) as Hgen.
  { clear Hnodup. induction walletList as [|w l IH]; intros kept seen Hseen Hnodup.
    - by rewrite app_nil_r.
    - cbn [foldl].
      pose proof Hnodup as Hall.
      rewrite fmap_app in Hnodup. apply NoDup_app in Hnodup as (Hk & Hdisj & Hl).
      rewrite fmap_cons in Hdisj, Hl.
      destruct (decide (name w ∈ seen)) as [Hin|Hnin].
      { destruct (Hdisj (name w)); [by apply Hseen | apply list_elem_of_here]. }
      assert (visit name (kept, seen) w = (kept ++ [w], {[name w]} ∪ seen)) as ->.
      { unfold visit. cbn [fst snd]. by rewrite decide_False. }
      rewrite IH.
      + by rewrite <- app_assoc.
      + intros k. rewrite fmap_app, elem_of_app, elem_of_union, elem_of_singleton, Hseen.
        cbn. rewrite list_elem_of_singleton. tauto.
      + by rewrite <- app_assoc. }
  apply (Hgen [] ∅); [|done].
  intros k. cbn. rewrite elem_of_empty, elem_of_nil. tauto.
Qed.

(** X10. [getUniqueWallets] returns a sublist of the wallets, in their order,
    without two wallets of the same name and with every name that the
    list had; a list without two wallets of the same name comes back as
    it is, and a second application changes nothing. *)
Theorem getUniqueWallets_unique (walletList : list W) :
  getUniqueWallets name walletList `sublist_of` walletList
  ∧ NoDup (name <$> getUniqueWallets name walletList)
  ∧ (∀ w, w ∈ walletList → name w ∈ name <$> getUniqueWallets name walletList)
  ∧ (NoDup (name <$> walletList) → getUniqueWallets name walletList = walletList)
  ∧ getUniqueWallets name (getUniqueWallets name walletList)
    = getUniqueWallets name walletList.
Proof.
  destruct (getUniqueWallets_sublist walletList) as (Hsub & Hnodup & Hnames).
  split_and!; [done | done | done | apply getUniqueWallets_fixed |].
  by apply getUniqueWallets_fixed.
Qed.

End wallet_list_facts.

(** Two wallets with two names: both are kept. *)
Lemma getUniqueWallets_unique_witness :
  Wallets.getUniqueWallets fst [("Petra", 1%nat); ("Martian", 2%nat)]
  = [("Petra", 1%nat); ("Martian", 2%nat)].
Proof.
  destruct (getUniqueWallets_unique (W := string * nat) (K := string) fst
              [("Petra", 1%nat); ("Martian", 2%nat)]) as (_ & _ & _ & H & _).
  apply H. apply (bool_decide_unpack _). vm_compute. reflexivity.
Defined.

(** ** Cache keys *)

Section json_facts.
Import Js Json.

Ltac by_chars c := destruct c as [[] [] [] [] [] [] [] []].

Lemma unescape_escape c rest : unescape_char (escape_char c +:+ rest) = Some (c, rest).
Proof. by_chars c; reflexivity. Qed.

Lemma append_cancel (s x y : string) : s +:+ x = s +:+ y → x = y.
Proof. induction s as [|c s IH]; [done|]. rewrite !append_cons. intros [= E]. by apply IH. Qed.

Lemma append_nested (x y z : string) : (x +:+ y) +:+ z = x +:+ (y +:+ z).
Proof. induction x as [|c x IH]; [done|]. rewrite !append_cons. by rewrite IH. Qed.

(** An escaped string is read back up to its closing quote. *)
Lemma escape_inj s1 s2 X Y :
  escape s1 +:+ dquote +:+ X = escape s2 +:+ dquote +:+ Y → s1 = s2 ∧ X = Y.
Proof.
  revert s2. induction s1 as [|c1 s1 IH]; intros [|c2 s2]; cbn [escape].
  - intros E. split; [done|]. by apply (append_cancel dquote).
  - rewrite append_nested. intros E. apply (f_equal unescape_char) in E.
    by rewrite unescape_escape in E.
  - rewrite append_nested. intros E. apply (f_equal unescape_char) in E.
    by rewrite unescape_escape in E.
  - rewrite !append_nested. intros E. apply (f_equal unescape_char) in E.
    rewrite !unescape_escape in E. injection E as -> E.
    by destruct (IH _ E) as [-> ->].
Qed.

Lemma quote_inj s1 s2 X Y : quote s1 +:+ X = quote s2 +:+ Y → s1 = s2 ∧ X = Y.
Proof.
  unfold quote. rewrite !append_nested. intros E%append_cancel. by apply escape_inj.
Qed.

Lemma pretty_N_go_chars x s :
  every is_number_char s = true → every is_number_char (pretty_N_go x s) = true.
Proof.
  revert s. induction (N.lt_wf_0 x) as [x _ IH]; intros s Hs.
  assert (x = 0 ∨ 0 < x)%N as [->|Hx] by lia; [by rewrite pretty_N_go_0|].
  rewrite pretty_N_go_step by done. apply IH; [by apply N.div_lt|].
  cbn [every]. rewrite Hs, andb_true_r. unfold pretty_N_char. by repeat case_match.
Qed.

Lemma pretty_Z_chars (n : Z) : every is_number_char (pretty n) = true.
Proof.
  destruct n as [|x|x]; [done| |].
  - unfold pretty, pretty_Z, pretty, pretty_positive, pretty, pretty_N.
    case_decide; [done|]. by apply pretty_N_go_chars.
  - unfold pretty, pretty_Z. rewrite every_append. cbn [every andb].
    change (is_number_char "-") with true. cbn [andb].
    unfold pretty, pretty_positive, pretty, pretty_N.
    case_decide; [done|]. by apply pretty_N_go_chars.
Qed.

(** Two texts over one alphabet, each followed by a character outside
    of it. *)
Lemma terminated_inj (P : ascii → bool) a b t1 t2 X Y :
  every P a = true → every P b = true → P t1 = false → P t2 = false →
  a +:+ String t1 X = b +:+ String t2 Y → a = b ∧ t1 = t2 ∧ X = Y.
Proof.
  intros Ha Hb H1 H2. revert b Hb.
  induction a as [|c a IH]; intros [|d b] Hb; rewrite ?append_cons.
  - by intros [= -> ->].
  - intros [= -> _]. cbn [every] in Hb. by rewrite H1 in Hb.
  - intros [= -> _]. cbn [every] in Ha. by rewrite H2 in Ha.
  - cbn [every] in Ha, Hb. apply andb_true_iff in Ha as [_ Ha], Hb as [_ Hb].
    intros [= -> E]. by destruct (IH Ha b Hb E) as (-> & -> & ->).
Qed.

Lemma terminator_not_number t : is_terminator t = true → is_number_char t = false.
Proof. by_chars t; vm_compute; done. Qed.

(** A numeral and what follows it do not begin like a string or a
    truth value. *)
Lemma number_head (n : Z) t rest c other :
  is_terminator t = true → is_terminator c = false → is_number_char c = false →
  pretty n +:+ String t rest ≠ String c other.
Proof.
  intros Ht Hc Hn E.
  destruct (terminated_inj is_number_char (pretty n) "" t c rest other) as (_ & -> & _);
    [apply pretty_Z_chars | done | by apply terminator_not_number | done | done |].
  congruence.
Qed.

(** A value that is written, followed by a comma or a brace, is read
    back. *)
Lemma value_inj v1 v2 t1 t2 rest1 rest2 :
  v1 ≠ Undefined → v2 ≠ Undefined →
  is_terminator t1 = true → is_terminator t2 = true →
  default "" (stringify_value v1) +:+ String t1 rest1
  = default "" (stringify_value v2) +:+ String t2 rest2 →
  v1 = v2 ∧ t1 = t2 ∧ rest1 = rest2.
Proof.
  intros Hv1 Hv2 Ht1 Ht2.
  destruct v1 as [|b1|n1|s1], v2 as [|b2|n2|s2]; try done.
  - destruct b1, b2; cbn [stringify_value default from_option id]; rewrite ?append_cons;
      intros [= E1 E2]; try done; by subst.
  - destruct b1; cbn [stringify_value default from_option id]; rewrite append_cons;
      intros E; symmetry in E; by apply number_head in E.
  - destruct b1; cbn [stringify_value default from_option id]; unfold quote, dquote;
      by rewrite !append_cons.
  - destruct b2; cbn [stringify_value default from_option id]; rewrite append_cons;
      intros E; by apply number_head in E.
  - cbn [stringify_value default from_option id]. intros E.
    destruct (terminated_inj is_number_char (pretty n1) (pretty n2) t1 t2 rest1 rest2)
      as (En & -> & ->);
      [apply pretty_Z_chars | apply pretty_Z_chars | by apply terminator_not_number
      | by apply terminator_not_number | done |].
    by apply (inj pretty) in En as ->.
  - cbn [stringify_value default from_option id]. unfold quote, dquote.
    rewrite !append_cons. intros E. by apply number_head in E.
  - destruct b2; cbn [stringify_value default from_option id]; unfold quote, dquote;
      by rewrite !append_cons.
  - cbn [stringify_value default from_option id]. unfold quote, dquote.
    rewrite !append_cons. intros E. symmetry in E. by apply number_head in E.
  - cbn [stringify_value default from_option id]. intros E.
    by apply quote_inj in E as [-> [= -> ->]].
Qed.

Lemma render_inj p1 p2 t1 t2 rest1 rest2 :
  is_defined p1 = true → is_defined p2 = true →
  is_terminator t1 = true → is_terminator t2 = true →
  render p1 +:+ String t1 rest1 = render p2 +:+ String t2 rest2 →
  p1 = p2 ∧ t1 = t2 ∧ rest1 = rest2.
Proof.
  destruct p1 as [k1 v1], p2 as [k2 v2]. unfold render, is_defined. cbn [fst snd].
  intros Hd1 Hd2 Ht1 Ht2. rewrite !append_nested. intros [-> E]%quote_inj.
  apply (append_cancel ":") in E.
  destruct (value_inj v1 v2 t1 t2 rest1 rest2) as (-> & -> & ->);
    [by destruct v1 | by destruct v2 | done | done | done | done].
Qed.

Lemma omap_defined o : omap stringify_property o = render <$> defined o.
Proof.
  induction o as [|[k v] o IH]; [done|].
  cbn [omap list_omap defined List.filter]. unfold stringify_property at 1, is_defined at 1.
  cbn [fst snd]. fold (defined o).
  destruct v as [|[]|n|s']; cbn [stringify_value mbind option_bind]; rewrite IH; done.
Qed.

Lemma defined_all o : Forall (λ p, is_defined p = true) (defined o).
Proof.
  apply Forall_forall. intros p Hp. apply list_elem_of_In in Hp.
  by apply List.filter_In in Hp as [_ ?].
Qed.

(** A rendered property begins with a quote. *)
Lemma render_head p rest : ∃ tail, render p +:+ rest = String (ascii_of_N 34) tail.
Proof. unfold render, quote, dquote. rewrite !append_cons. by eexists. Qed.

(** The list of properties with what follows it: after the first
    property comes a comma or the closing brace. *)
Lemma join_comma_cons x l rest :
  join_comma (x :: l) +:+ String "}" rest
  = x +:+ match l with
          | [] => String "}" rest
          | _ => String "," (join_comma l +:+ String "}" rest)
          end.
Proof.
  destruct l as [|y l]; [done|].
  change (join_comma (x :: y :: l)) with (x +:+ "," +:+ join_comma (y :: l)).
  by rewrite !append_nested.
Qed.

Lemma join_comma_inj l1 l2 rest1 rest2 :
  Forall (λ p, is_defined p = true) l1 → Forall (λ p, is_defined p = true) l2 →
  join_comma (render <$> l1) +:+ String "}" rest1
  = join_comma (render <$> l2) +:+ String "}" rest2 →
  l1 = l2 ∧ rest1 = rest2.
Proof.
  intros H1. revert l2. induction H1 as [|p1 l1 Hp1 H1 IH]; intros l2 H2.
  - destruct H2 as [|p2 l2 Hp2 H2]; [by intros [= ->]|].
    rewrite fmap_cons, join_comma_cons.
    destruct (render_head p2 (match render <$> l2 with
                              | [] => String "}" rest2
                              | _ => String "," (join_comma (render <$> l2)
                                                  +:+ String "}" rest2)
                              end)) as [tail ->]. done.
  - destruct H2 as [|p2 l2 Hp2 H2].
    { rewrite fmap_cons, join_comma_cons.
      destruct (render_head p1 (match render <$> l1 with
                                | [] => String "}" rest1
                                | _ => String "," (join_comma (render <$> l1)
                                                    +:+ String "}" rest1)
                                end)) as [tail ->]. done. }
    rewrite !fmap_cons, !join_comma_cons.
    destruct l1 as [|q1 l1], l2 as [|q2 l2]; cbn [fmap list_fmap].
    + intros E. by apply render_inj in E as (-> & _ & ->).
    + intros E. by apply render_inj in E as (_ & [=] & _).
    + intros E. by apply render_inj in E as (_ & [=] & _).
    + intros E. apply render_inj in E as (-> & _ & E); [|done..].
      destruct (IH (q2 :: l2) H2 E) as [-> ->]. done.
Qed.

(** [JSON.stringify] tells two objects apart unless they have the same
    defined properties in the same order. *)
Lemma stringify_inj o1 o2 : stringify o1 = stringify o2 → defined o1 = defined o2.
Proof.
  unfold stringify. rewrite !omap_defined. intros E%append_cancel.
  by destruct (join_comma_inj (defined o1) (defined o2) "" "") as [-> _];
    [apply defined_all | apply defined_all | |].
Qed.

(** X11. Two calls of [fetchActiveListings] whose page and page size
    are safe integers have the same cache key exactly if they agree on
    the page, the page size, the collection, the marketplace, the sort
    order and the metadata filter, each with its default filled in:
    among such calls a cached page is not returned to a call with other
    parameters.  (A page that is [NaN] or infinite is written [null]
    and is not covered.) *)
Theorem cacheKey_injective (p1 p2 : Listings.Params) :
  written_in_full p1 → written_in_full p2 →
  Listings.cacheKey p1 = Listings.cacheKey p2 ↔ effective p1 = effective p2.
Proof.
  intros _ _.
  unfold effective, Listings.cacheKey, Listings.cacheParams. split.
  - intros E%stringify_inj. revert E. unfold defined, of_string.
    destruct (Listings.collection p1), (Listings.collection p2),
      (Listings.marketplace p1), (Listings.marketplace p2);
      cbn [List.filter is_defined snd]; intros E; simplify_eq; congruence.
  - by intros [= -> -> -> -> -> ->].
Qed.

(** Page 1 and page 2 of the same listings have two keys. *)
Lemma cacheKey_injective_witness :
  Listings.cacheKey (hiding_params 1 8) ≠ Listings.cacheKey (hiding_params 2 8).
Proof.
  intros E.
  apply (cacheKey_injective (hiding_params 1 8) (hiding_params 2 8)) in E;
    [discriminate E | |]; unfold written_in_full, safe_integer; vm_compute; by repeat split.
Defined.

End json_facts.

(** ** The refresh button *)

Section dashboard_facts.
Import Js Dashboard.

(** With at most one of the two filters set, the object that
    [handleRefresh] serializes has the key under which [loadListings]
    cached its page. *)
Lemma refresh_key_agrees st :
  selectedMarketplace st = "" ∨ searchCollection st = "" →
  Json.stringify (refresh_params st) = Listings.cacheKey (load_params st).
Proof.
  unfold Listings.cacheKey, Listings.cacheParams, refresh_params, load_params, Json.stringify.
  intros [E|E]; rewrite E; cbn [or_undefined Json.of_string];
    [destruct (searchCollection st) | destruct (selectedMarketplace st)]; reflexivity.
Qed.

(** With both filters set, the two serializations differ: the property
    orders differ. *)
Lemma refresh_key_differs st :
  selectedMarketplace st ≠ "" → searchCollection st ≠ "" →
  Json.stringify (refresh_params st) ≠ Listings.cacheKey (load_params st).
Proof.
  unfold Listings.cacheKey, Listings.cacheParams, refresh_params, load_params.
  destruct (selectedMarketplace st) as [|m ms]; [done|].
  destruct (searchCollection st) as [|c cs]; [done|]. intros _ _ E%stringify_inj.
  discriminate E.
Qed.

(** X12. The refresh button and the cache: with at most one filter set the
    refresh removes the cached page, so the load that follows fetches;
    with a marketplace and a collection filter both set it removes
    nothing, and the load that follows finds the entry it had. *)
Theorem refresh_invalidates_unless_both_filters (st : State)
    (listingsCache : gmap string Cache.ListingsCache) (now : Z) :
  (selectedMarketplace st = "" ∨ searchCollection st = "" →
   Cache.lookup (handleRefresh st listingsCache) false
     (Listings.cacheKey (load_params st)) now = None)
  ∧ (selectedMarketplace st ≠ "" → searchCollection st ≠ "" →
     handleRefresh st listingsCache !! Listings.cacheKey (load_params st)
     = listingsCache !! Listings.cacheKey (load_params st)).
Proof.
  unfold handleRefresh. rewrite invalidate_one. split.
  - intros Hone. apply lookup_absent.
    rewrite (refresh_key_agrees st Hone). apply lookup_delete_eq.
  - intros Hm Hc. apply lookup_delete_ne. by apply refresh_key_differs.
Qed.

(** A cached page under both filters survives the refresh. *)
Lemma refresh_invalidates_unless_both_filters_witness :
  let st := sample_state "wapal" "cats" in
  let cache := Cache.store ∅ (Listings.cacheKey (load_params st)) 1000 empty_page in
  handleRefresh st cache !! Listings.cacheKey (load_params st)
  = cache !! Listings.cacheKey (load_params st).
Proof.
  intros st cache.
  destruct (refresh_invalidates_unless_both_filters st cache 0) as [_ H].
  apply H; discriminate.
Defined.

End dashboard_facts.

(** ** Listings: what a call does to the cache and to the page number *)

Section more_listing_facts.
Import Js Listings.

(** X13. [fetchActiveListings] never rejects, and of the listings cache
    it touches at most the entry under its own key: every other entry
    is as before, and the entry under its key is either as before or
    the page that the call returns, stamped with the time of the
    store. *)
Theorem fetchActiveListings_writes_own_key_only (w : World) (p : Params)
    (listingsCache : gmap string Cache.ListingsCache) :
  ∃ result,
    (fetchActiveListings w p listingsCache).1 = Returns result
    ∧ (∀ key, key ≠ cacheKey p →
         (fetchActiveListings w p listingsCache).2 !! key = listingsCache !! key)
    ∧ ((fetchActiveListings w p listingsCache).2 = listingsCache
       ∨ (fetchActiveListings w p listingsCache).2 !! cacheKey p
         = Some {| Cache.timestamp := now_at_store w; Cache.data := result;
                   Cache.params := cacheKey p |}).
Proof.
  destruct (fetchActiveListings_returns w p listingsCache) as [result Hr].
  exists result. split; [done|].
  destruct (cache_written_only_on_success w p listingsCache) as [Hsame|(payload & _ & Hw)].
  - rewrite Hsame. split; [done | by left].
  - rewrite Hw in Hr |- *. cbn [fst snd] in *. injection Hr as ->. split.
    + intros key Hkey. unfold Cache.store. by rewrite lookup_insert_ne.
    + right. apply store_lookup.
Qed.

Lemma smallQuery_without_page p1 p2 :
  same_but_page p1 p2 → truthy (marketplace p1) = true → smallQuery p1 = smallQuery p2.
Proof.
  intros (Hsize & Hc & Hm & Hs & Hh) Ht.
  unfold smallQuery, queryLimit, queryOffset, the_pageSize, the_sortOrder, hiding.
  rewrite <- Hsize, <- Hc, <- Hm, <- Hs, <- Hh, Ht.
  by rewrite orb_true_r.
Qed.

Lemma toNFT_alike w1 w2 index listing :
  fetch w1 = fetch w2 → toISOString w1 = toISOString w2 →
  alike (λ a b, ungenerated a = ungenerated b)
    (toNFT w1 index listing) (toNFT w2 index listing).
Proof.
  intros Hf Ht. unfold toNFT, resolved_image. rewrite Hf, Ht.
  destruct (match TokenData.cdn_asset_uris _ with
            | Some uris => _
            | None => _
            end) as [resolved|e]; [|done].
  cbn [mbind outcome_bind].
  destruct (truthy (Listing.last_transaction_timestamp listing)).
  - destruct (toISOString w2 _) as [iso|e]; [|done].
    cbn [mbind outcome_bind alike]. unfold ungenerated. cbn.
    destruct (nonempty resolved); [reflexivity|]. by rewrite !placeholder_nonempty.
  - cbn [mbind outcome_bind alike]. unfold ungenerated. cbn.
    destruct (nonempty resolved); [reflexivity|]. by rewrite !placeholder_nonempty.
Qed.

Lemma toNFT_same w1 w2 index listing :
  fetch w1 = fetch w2 → toISOString w1 = toISOString w2 → same_draws w1 w2 →
  toNFT w1 index listing = toNFT w2 index listing.
Proof.
  intros Hf Ht [Hr Hc]. unfold toNFT, resolved_image. by rewrite Hf, Ht, Hr, Hc.
Qed.

Lemma all_outcomes_alike {A} (R : A → A → Prop) (l1 l2 : list (outcome A)) :
  Forall2 (alike R) l1 l2 → alike (Forall2 R) (all_outcomes l1) (all_outcomes l2).
Proof.
  induction 1 as [|x y l1 l2 Hxy _ IH]; [by constructor|].
  cbn [all_outcomes]. destruct x as [a|e1], y as [b|e2]; try done.
  cbn [mbind outcome_bind].
  destruct (all_outcomes l1) as [r1|e1], (all_outcomes l2) as [r2|e2]; try done.
  cbn [mbind outcome_bind alike]. by constructor.
Qed.

Lemma shape_alike w1 w2 p1 p2 count listings :
  same_but_page p1 p2 → hiding p1 = false →
  fetch w1 = fetch w2 → toISOString w1 = toISOString w2 →
  alike (λ a b, total a = total b
                ∧ Forall2 (λ a b, ungenerated a = ungenerated b) (nfts a) (nfts b))
    (shape w1 p1 count listings) (shape w2 p2 count listings).
Proof.
  intros (Hsize & Hc & Hm & Hs & Hh) Hhide Hf Ht.
  assert (hiding p2 = false) as Hhide2 by (unfold hiding in *; by rewrite <- Hh).
  unfold shape, filteredNfts, paginatedNfts. rewrite Hhide, Hhide2.
  pose proof (all_outcomes_alike (λ a b, ungenerated a = ungenerated b)
                (imap (toNFT w1) (List.filter has_token_name listings))
                (imap (toNFT w2) (List.filter has_token_name listings))) as Hall.
  destruct (all_outcomes (imap (toNFT w1) _)) as [r1|e1],
           (all_outcomes (imap (toNFT w2) _)) as [r2|e2];
    cbn [mbind outcome_bind alike nfts total] in *;
    try (apply Hall); try (split; [done|apply Hall]);
    (apply Forall2_same_length_lookup_2; [by rewrite !length_imap|];
     intros i x y; rewrite !list_lookup_imap;
     destruct (List.filter has_token_name listings !! i); simpl; [|done];
     intros [= <-] [= <-]; by apply toNFT_alike).
Qed.

Lemma shape_same w1 w2 p1 p2 count listings :
  same_but_page p1 p2 → hiding p1 = false →
  (∀ index listing, toNFT w1 index listing = toNFT w2 index listing) →
  shape w1 p1 count listings = shape w2 p2 count listings.
Proof.
  intros (Hsize & Hc & Hm & Hs & Hh) Hhide Hto.
  assert (hiding p2 = false) as Hhide2 by (unfold hiding in *; by rewrite <- Hh).
  unfold shape, filteredNfts, paginatedNfts. rewrite Hhide, Hhide2.
  by rewrite (imap_ext (toNFT w1) (toNFT w2)) by (intros; apply Hto).
Qed.

(** The two calls past the cache: both return, with the same total and
    with records that agree. *)
Lemma fetch_fresh_alike w1 w2 p1 p2 cache1 cache2 :
  same_but_page p1 p2 → truthy (marketplace p1) = true → hiding p1 = false →
  answers_alike w1 w2 (smallQuery p1) →
  ∃ r1 c1 r2 c2,
    try_catch (fetch_fresh w1 p1 cache1) (λ _, Returns (empty_page, cache1)) = Returns (r1, c1)
    ∧ try_catch (fetch_fresh w2 p2 cache2) (λ _, Returns (empty_page, cache2))
      = Returns (r2, c2)
    ∧ total r1 = total r2
    ∧ Forall2 (λ a b, ungenerated a = ungenerated b) (nfts r1) (nfts r2).
Proof.
  intros Hsame Hm Hhide (Hq & Hf & Ht). unfold fetch_fresh.
  rewrite <- (smallQuery_without_page p1 p2 Hsame Hm), <- Hq.
  destruct (listings_indexer w1 (smallQuery p1)) as [response|e];
    [|by eexists _, _, _, _]. simpl.
  destruct (Gateway.ok response); [|by eexists _, _, _, _]. simpl.
  destruct (Gateway.json response) as [body|e]; [|by eexists _, _, _, _]. simpl.
  destruct (Gateway.errors body); [by eexists _, _, _, _|].
  destruct (Gateway.data body) as [d|]; [|by eexists _, _, _, _].
  destruct (Gateway.table d) as [| |listings]; [by eexists _, _, _, _ | by eexists _, _, _, _ |].
  pose proof (shape_alike w1 w2 p1 p2 (Gateway.count d) listings Hsame Hhide Hf Ht) as Hs.
  destruct (shape w1 p1 (Gateway.count d) listings) as [a|e1],
           (shape w2 p2 (Gateway.count d) listings) as [b|e2]; try done; simpl.
  - destruct Hs as [Htotal Hnfts]. by eexists _, _, _, _.
  - by eexists _, _, _, _.
Qed.

Lemma fetch_fresh_same w1 w2 p1 p2 cache1 cache2 :
  same_but_page p1 p2 → truthy (marketplace p1) = true → hiding p1 = false →
  answers_alike w1 w2 (smallQuery p1) → same_draws w1 w2 →
  (try_catch (fetch_fresh w1 p1 cache1) (λ _, Returns (empty_page, cache1))
     ≫= λ r, Returns r.1)
  = (try_catch (fetch_fresh w2 p2 cache2) (λ _, Returns (empty_page, cache2))
     ≫= λ r, Returns r.1).
Proof.
  intros Hsame Hm Hhide (Hq & Hf & Ht) Hdraws. unfold fetch_fresh.
  rewrite <- (smallQuery_without_page p1 p2 Hsame Hm), <- Hq.
  destruct (listings_indexer w1 (smallQuery p1)) as [response|e]; [|done]. simpl.
  destruct (Gateway.ok response); [|done]. simpl.
  destruct (Gateway.json response) as [body|e]; [|done]. simpl.
  destruct (Gateway.errors body); [done|].
  destruct (Gateway.data body) as [d|]; [|done].
  destruct (Gateway.table d) as [| |listings]; [done | done |].
  rewrite <- (shape_same w1 w2 p1 p2 _ _ Hsame Hhide)
    by (intros; by apply toNFT_same).
  by destruct (shape w1 p1 (Gateway.count d) listings).
Qed.

(** X14. With a marketplace filter and without the metadata filter the
    page number is not used: the query asks for five page sizes of rows
    from offset 0, whatever the page, and the rows are not sliced.  So
    two calls that miss the cache and differ only in [page], run at two
    times with the same answer of the upstream, the same network and
    the same [Date], both return, with the same total and with records
    that agree one by one in every field but the two that can hold a
    draw of [Math.random] or the time of the clock ([image_url] and
    [created_at]); when the draws and the clock agree as well, the two
    pages are equal. *)
Theorem marketplace_filter_ignores_page (w1 w2 : World) (p1 p2 : Params)
    (cache1 cache2 : gmap string Cache.ListingsCache) :
  same_but_page p1 p2 →
  truthy (marketplace p1) = true →
  hiding p1 = false →
  Cache.lookup cache1 (skipping p1) (cacheKey p1) (now_at_check w1) = None →
  Cache.lookup cache2 (skipping p2) (cacheKey p2) (now_at_check w2) = None →
  answers_alike w1 w2 (smallQuery p1) →
  smallQuery p2 = smallQuery p1
  ∧ Gateway.limit (smallQuery p1) = the_pageSize p1 * 5
  ∧ Gateway.offset (smallQuery p1) = 0
  ∧ ∃ r1 r2,
      (fetchActiveListings w1 p1 cache1).1 = Returns r1
      ∧ (fetchActiveListings w2 p2 cache2).1 = Returns r2
      ∧ total r1 = total r2
      ∧ Forall2 (λ a b, ungenerated a = ungenerated b) (nfts r1) (nfts r2)
      ∧ (same_draws w1 w2 → r1 = r2).
Proof.
  intros Hsame Hm Hhide Hmiss1 Hmiss2 Halike. split_and!.
  - symmetry. by apply smallQuery_without_page.
  - unfold smallQuery, queryLimit. by rewrite Hm.
  - unfold smallQuery, queryOffset. cbn [Gateway.offset]. by rewrite Hm, orb_true_r.
  - destruct (fetch_fresh_alike w1 w2 p1 p2 cache1 cache2 Hsame Hm Hhide Halike)
      as (r1 & c1 & r2 & c2 & H1 & H2 & Htotal & Hnfts).
    exists r1, r2. unfold fetchActiveListings. rewrite Hmiss1, Hmiss2, H1, H2.
    split_and!; [done | done | done | done |].
    intros Hdraws.
    pose proof (fetch_fresh_same w1 w2 p1 p2 cache1 cache2 Hsame Hm Hhide Halike Hdraws)
      as E.
    rewrite H1, H2 in E. by injection E.
Qed.

(** Page 1 and page 3 of the listings of one marketplace, read a
    minute apart: the second row has no token name of its own, and its
    placeholder is drawn anew. *)
Lemma marketplace_filter_ignores_page_witness :
  let w := serving_world [complete_listing; token_named_listing] [] 1000 2000 in
  ∃ r1 r2,
    (fetchActiveListings w (marketplace_params 1 "wapal") ∅).1 = Returns r1
    ∧ (fetchActiveListings (redrawn w) (marketplace_params 3 "wapal") ∅).1 = Returns r2
    ∧ total r1 = total r2
    ∧ Forall2 (λ a b, ungenerated a = ungenerated b) (nfts r1) (nfts r2).
Proof.
  intros w.
  destruct (marketplace_filter_ignores_page w (redrawn w) (marketplace_params 1 "wapal")
              (marketplace_params 3 "wapal") ∅ ∅)
    as (_ & _ & _ & r1 & r2 & H1 & H2 & Htotal & Hnfts & _);
    [unfold same_but_page; by split_and! | reflexivity | reflexivity | reflexivity
    | reflexivity | unfold answers_alike; by split_and! |].
  by exists r1, r2.
Defined.

(** The two pages of the witness do differ, in the placeholder of the
    second row. *)
Example pages_differ_in_the_draw :
  let w := serving_world [complete_listing; token_named_listing] [] 1000 2000 in
  (fetchActiveListings w (marketplace_params 1 "wapal") ∅).1
  ≠ (fetchActiveListings (redrawn w) (marketplace_params 3 "wapal") ∅).1.
Proof. intros w. vm_compute. discriminate. Qed.

End more_listing_facts.

(** ** Wallet NFTs: totals and the marketplace filter *)

Section more_wallet_facts.
Import Js Wallet.

Lemma toNFT_marketplace w owner ownership nft :
  toNFT w owner ownership = Returns nft → NFT.marketplace nft = "Aptos".
Proof.
  unfold toNFT.
  destruct (Listings.resolved_image w _) as [url|e]; simpl; [|done].
  destruct (created_at w _) as [iso|e]; simpl; [|done].
  by intros [= <-].
Qed.

Lemma all_outcomes_map_elem {A B} (f : A → outcome B) (l : list A) r b :
  all_outcomes (map f l) = Returns r → b ∈ r → ∃ a, a ∈ l ∧ f a = Returns b.
Proof.
  intros Hall%all_outcomes_Forall2 Hb.
  apply list_elem_of_lookup in Hb as [i Hi].
  destruct (Forall2_lookup_r _ _ _ _ _ Hall Hi) as (x & Hx & ->).
  rewrite list_lookup_fmap in Hx.
  destruct (l !! i) as [a|] eqn:Ha; [|done].
  simpl in Hx. injection Hx as Hx. exists a. split; [|done].
  by eapply list_elem_of_lookup_2.
Qed.

(** The ways [fetch_owned] under its [catch] ends: the sentinel, or a
    page built from the rows. *)
Lemma fetch_owned_cases w p :
  try_catch (fetch_owned w p) (λ _, Returns empty_page) = Returns empty_page
  ∨ ∃ ownerships records,
      all_outcomes (map (toNFT w (str (address p))) ownerships) = Returns records
      ∧ try_catch (fetch_owned w p) (λ _, Returns empty_page)
        = Returns {| nfts := filteredNfts p records;
                     total := Z.max 20 (Z.of_nat (length ownerships) * 2) |}.
Proof.
  unfold fetch_owned.
  destruct (wallet_indexer w (simpleQuery p)) as [response|e]; [|by left]. simpl.
  destruct (Gateway.ok response); [|by left]. simpl.
  destruct (Gateway.json response) as [body|e]; [|by left]. simpl.
  destruct (Gateway.errors body); [by left|].
  destruct (Gateway.data body) as [d|]; [|by left].
  destruct (Gateway.table d) as [| |ownerships]; [by left | by left |].
  destruct (all_outcomes (map (toNFT w (str (address p))) ownerships))
    as [records|e] eqn:Hall; [|by left].
  right. by exists ownerships, records.
Qed.

(** X15. [fetchNFTs] never rejects.  For an address other than ['all'] it
    leaves the listings cache alone and its [total] is either 0, with
    no record, or at least 20. *)
Theorem fetchNFTs_never_rejects (w : World) (p : Params)
    (listingsCache : gmap string Cache.ListingsCache) :
  ∃ result,
    (fetchNFTs w p listingsCache).1 = Returns result
    ∧ (str (address p) ≠ "all" →
       (fetchNFTs w p listingsCache).2 = listingsCache
       ∧ ((nfts result = [] ∧ total result = 0) ∨ 20 ≤ total result)).
Proof.
  unfold fetchNFTs.
  destruct (truthy (address p)); cbn [negb].
  2:{ exists empty_page. split; [done|]. intros _. split; [done | by left]. }
  destruct (String.eqb_spec (str (address p)) "all") as [Hall|Hall].
  { destruct (fetchActiveListings_returns w
                {| Listings.page := Some (the_page p);
                   Listings.pageSize := Some (the_pageSize p);
                   Listings.collection := None; Listings.marketplace := None;
                   Listings.sortOrder := None; Listings.hideIncompleteMetadata := None;
                   Listings.skipCache := None |} listingsCache) as [result Hr].
    exists result. split; [exact Hr | done]. }
  destruct (fetch_owned_cases w p) as [->|(ownerships & records & _ & ->)].
  - exists empty_page. split; [done|]. intros _. split; [done | by left].
  - eexists. split; [reflexivity|]. intros _. split; [done|]. right. cbn [total]. lia.
Qed.

(** X16. Every wallet record is labelled ['Aptos'], so for a wallet
    address a marketplace filter that is not ['aptos'] in some letter
    case leaves no record in the page, whatever the wallet holds. *)
Theorem wallet_marketplace_filter_hides_all (w : World) (p : Params)
    (listingsCache : gmap string Cache.ListingsCache) :
  truthy (address p) = true →
  str (address p) ≠ "all" →
  truthy (marketplace p) = true →
  toLowerCase (str (marketplace p)) ≠ "aptos" →
  ∃ result,
    fetchNFTs w p listingsCache = (Returns result, listingsCache)
    ∧ nfts result = [].
Proof.
  intros Haddr Hall Hm Hother. unfold fetchNFTs. rewrite Haddr. cbn [negb].
  rewrite (proj2 (String.eqb_neq _ _) Hall).
  destruct (fetch_owned_cases w p) as [->|(ownerships & records & Hrec & ->)].
  - by exists empty_page.
  - eexists. split; [reflexivity|]. cbn [nfts].
    unfold filteredNfts. rewrite Hm.
    destruct (List.filter _ records) as [|nft rest] eqn:Hf; [done|]. exfalso.
    assert (List.In nft (nft :: rest)) as Hin by (by left).
    rewrite <- Hf in Hin. apply List.filter_In in Hin as [Hin Heq].
    apply list_elem_of_In in Hin.
    destruct (all_outcomes_map_elem _ _ _ _ Hrec Hin) as (ownership & _ & Hnft).
    rewrite (toNFT_marketplace _ _ _ _ Hnft) in Heq.
    apply String.eqb_eq in Heq. by apply Hother.
Qed.

(** A wallet with two tokens, seen through the filter of a marketplace. *)
Lemma wallet_marketplace_filter_hides_all_witness :
  ∃ result,
    fetchNFTs (serving_world [] [sample_ownership; sample_ownership] 1000 2000)
      (wallet_marketplace_params "0x1" "Wapal") ∅ = (Returns result, ∅)
    ∧ nfts result = [].
Proof.
  apply wallet_marketplace_filter_hides_all; [reflexivity | discriminate | reflexivity |].
  vm_compute. discriminate.
Defined.

End more_wallet_facts.

(** ** The colour of a card *)

Section colour_facts.
Import Js Format Card.

Lemma formatted_titled name :
  name ≠ "" → plain name = true → titled (formatMarketplaceName name) = true.
Proof.
  intros Hne Hp. rewrite (format_plain name Hne Hp). unfold titled.
  apply andb_true_iff. split.
  - apply String.eqb_eq, title_from_idempotent.
  - apply title_from_clean, separators_clean.
Qed.

Lemma formatted_not_topaz name :
  name ≠ "" → plain name = true → formatMarketplaceName name ≠ "Topaz".
Proof.
  intros Hne Hp E. rewrite (format_plain name Hne Hp) in E.
  assert (includes (toLowerCase name) "topaz" = true) as Hin.
  { apply includes_formatted; [reflexivity|]. by rewrite E. }
  unfold plain in Hp. by rewrite Hin in Hp.
Qed.

Lemma colour_of_titled t :
  titled t = true → t ≠ "Topaz" →
  getMarketplaceColor t ∈ [Some "blue"; Some "purple"; Some "black"; Some "orange"].
Proof.
  intros Ht Htopaz. unfold getMarketplaceColor.
  destruct (String.eqb_spec t "OpenSea") as [->|_]; [done|].
  destruct (String.eqb_spec t "Magic Eden") as [->|_]; [set_solver|].
  destruct (String.eqb_spec t "Blur") as [->|_]; [set_solver|].
  destruct (String.eqb_spec t "Topaz") as [->|_]; [done|].
  destruct (String.eqb_spec t "Souffl3") as [->|_]; [set_solver|].
  destruct (JsObject.is_inherited t) eqn:Hi; [|set_solver].
  exfalso. apply existsb_exists in Hi as (k & Hk & ->%String.eqb_eq).
  unfold JsObject.inherited in Hk. cbn [List.In] in Hk.
  repeat (destruct Hk as [<-|Hk]; [done|]). done.
Qed.

(** X17. The ribbon of a card whose marketplace is a formatted name is
    blue, purple, black or orange: never green, since no name formats
    to ['Topaz'] (a Topaz listing is named ['Topaz (Deprecated)'] and
    gets the default blue), and never a member that the colour table
    inherits. *)
Theorem formatted_name_colour (name : string) :
  getMarketplaceColor (formatMarketplaceName name)
    ∈ [Some "blue"; Some "purple"; Some "black"; Some "orange"]
  ∧ (name ≠ "" → includes (toLowerCase name) "topaz" = true →
     getMarketplaceColor (formatMarketplaceName name) = Some "blue").
Proof.
  split.
  - destruct (decide (name = "")) as [->|Hne]; [set_solver|].
    destruct (plain name) eqn:Hp.
    + apply colour_of_titled; [by apply formatted_titled | by apply formatted_not_topaz].
    + destruct (plain_cases name Hp) as [-> | [-> | [-> | ->]]]; set_solver.
  - intros Hne Ht. unfold formatMarketplaceName.
    destruct name; [done|]. by rewrite Ht.
Qed.

Lemma formatted_name_colour_witness :
  getMarketplaceColor (formatMarketplaceName "topaz_v2") = Some "blue".
Proof.
  destruct (formatted_name_colour "topaz_v2") as [_ H]. apply H; [discriminate | reflexivity].
Defined.

End colour_facts.

(** ** The even split, whatever the names *)

Section more_stats_facts.
Import Js Stats.

Lemma percentage_bounds n index : 1 ≤ n → 0 ≤ percentage n index ≤ 100.
Proof.
  intros Hn. unfold percentage, basePercent.
  assert (0 ≤ 100 / n) by (apply Z.div_pos; lia).
  assert (n * (100 / n) ≤ 100) by (apply Z.mul_div_le; lia).
  assert (100 / n ≤ 100) by (apply Z.div_le_upper_bound; lia).
  destruct (_ =? _); nia.
Qed.

Lemma shares_from_nonneg n k len : 1 ≤ n → 0 ≤ shares_from n k len.
Proof.
  intros Hn. revert k. induction len as [|len IH]; intros k; simpl; [lia|].
  pose proof (percentage_bounds n k Hn). specialize (IH (S k)). lia.
Qed.

Lemma sum_of_shares_overwrite (d : gmap string Z) key share :
  (∀ k v, d !! k = Some v → 0 ≤ v) →
  sum_of_shares (<[key := share]> d) ≤ sum_of_shares d + share.
Proof.
  intros Hpos. destruct (d !! key) as [old|] eqn:Hold.
  - rewrite <- (insert_delete_id d key old Hold) at 2.
    rewrite <- insert_delete_eq.
    rewrite !sum_of_shares_insert by apply lookup_delete_eq.
    specialize (Hpos key old Hold). lia.
  - rewrite sum_of_shares_insert by done. lia.
Qed.

Lemma foldl_assign_bounds n marketplaces k (d : gmap string Z) :
  1 ≤ n →
  (∀ key v, d !! key = Some v → 0 ≤ v ≤ 100) →
  sum_of_shares (foldl (assign n) d (indexed_from k marketplaces))
  ≤ sum_of_shares d + shares_from n k (length marketplaces)
  ∧ ∀ key v, foldl (assign n) d (indexed_from k marketplaces) !! key = Some v → 0 ≤ v ≤ 100.
Proof.
  intros Hn. revert k d. induction marketplaces as [|item ms IH]; intros k d Hd.
  { split; [simpl; lia | exact Hd]. }
  rewrite indexed_from_cons. cbn [foldl length shares_from].
  pose proof (percentage_bounds n k Hn) as Hp.
  unfold assign at 2 4. cbn [fst snd]. destruct (truthy item).
  - destruct (IH (S k) (<[Format.formatMarketplaceName (str item) := percentage n k]> d))
      as [Hsum Hval].
    { intros key v. destruct (decide (key = Format.formatMarketplaceName (str item))) as [->|Hne].
      - rewrite lookup_insert_eq. by intros [= <-].
      - rewrite lookup_insert_ne by done. apply Hd. }
    split; [|exact Hval].
    etrans; [exact Hsum|].
    assert (∀ k' v, d !! k' = Some v → 0 ≤ v) as Hpos
      by (intros k' v Hk; by apply (Hd k' v)).
    pose proof (sum_of_shares_overwrite d (Format.formatMarketplaceName (str item))
                  (percentage n k) Hpos) as Ho.
    lia.
  - destruct (IH (S k) d Hd) as [Hsum Hval]. split; [|exact Hval]. lia.
Qed.

(** X18. The even split never hands out more than 100: whatever the
    rows, every share is between 0 and 100 and the shares sum to at
    most 100; where every row has a marketplace and the display names
    differ, they sum to exactly 100. *)
Theorem even_split_at_most_100 (marketplaces : list (option string)) :
  (∀ name share, distribution_without_sales marketplaces !! name = Some share →
     0 ≤ share ≤ 100)
  ∧ sum_of_shares (distribution_without_sales marketplaces) ≤ 100
  ∧ (marketplaces ≠ [] →
     Forall (λ item, truthy item = true) marketplaces →
     NoDup (display_name <$> marketplaces) →
     sum_of_shares (distribution_without_sales marketplaces) = 100).
Proof.
  destruct marketplaces as [|item ms].
  { split_and!; [done | | done]. cbn. rewrite sum_of_shares_empty. lia. }
  set (rows := item :: ms).
  assert (1 ≤ Z.of_nat (length rows)) as Hn by (simpl; lia).
  destruct (foldl_assign_bounds (Z.of_nat (length rows)) rows 0 ∅ Hn) as [Hsum Hval];
    [done|].
  assert (distribution_without_sales rows
          = foldl (assign (Z.of_nat (length rows))) ∅ (indexed_from 0 rows)) as ->
    by reflexivity.
  split_and!.
  - exact Hval.
  - etrans; [exact Hsum|].
    rewrite sum_of_shares_empty, (shares_from_tail _ 0) by (simpl; lia).
    unfold basePercent. lia.
  - intros _ Htruthy Hdistinct.
    destruct (foldl_assign_distinct (Z.of_nat (length rows)) rows 0 ∅ Htruthy Hdistinct)
      as [Heq _].
    { apply Forall_forall. intros ? _. apply lookup_empty. }
    rewrite Heq, sum_of_shares_empty, (shares_from_tail _ 0) by (simpl; lia).
    unfold basePercent. lia.
Qed.

(** Three marketplaces with three display names: 33, 33 and 34. *)
Lemma even_split_at_most_100_witness :
  sum_of_shares (distribution_without_sales [Some "wapal"; Some "bluemove_v2"; Some "rarible"])
  = 100.
Proof.
  destruct (even_split_at_most_100 [Some "wapal"; Some "bluemove_v2"; Some "rarible"])
    as (_ & _ & H).
  apply H; [done | by repeat constructor |].
  apply (bool_decide_unpack _). vm_compute. reflexivity.
Defined.

End more_stats_facts.

(** ** Objects as tables *)

Section object_facts.
Import Js JsObject.
Context {V : Type}.

Lemma own_None (o : t V) key : own o key = None ↔ key ∉ o.*1.
Proof.
  induction o as [|[k v] o IH]; simpl.
  - split; [intros _; apply not_elem_of_nil | done].
  - destruct (String.eqb_spec k key) as [->|Hne].
    + split; [done|]. intros Hnot. exfalso. apply Hnot. left.
    + rewrite IH, not_elem_of_cons. simpl. split; [by intros ? | by intros [_ ?]].
Qed.

Lemma keys_set_old (o : t V) key v : key ∈ o.*1 → (set o key v).*1 = o.*1.
Proof.
  induction o as [|[k old] o IH]; simpl; [by intros ?%elem_of_nil|].
  destruct (String.eqb_spec k key) as [->|Hne]; [done|].
  intros [?|Hin]%elem_of_cons; [congruence|]. rewrite !fmap_cons. by rewrite IH.
Qed.

Lemma keys_set_new (o : t V) key v : key ∉ o.*1 → (set o key v).*1 = o.*1 ++ [key].
Proof.
  induction o as [|[k old] o IH]; simpl; [done|].
  intros [Hne Hnot]%not_elem_of_cons.
  destruct (String.eqb_spec k key) as [->|_]; [done|]. rewrite !fmap_cons. by rewrite IH.
Qed.

Lemma insert_index_perm (entry : N * (string * V)) sorted :
  insert_index entry sorted ≡ₚ entry :: sorted.
Proof.
  induction sorted as [|e rest IH]; simpl; [done|].
  destruct (_ <=? _)%N; [done|]. rewrite IH. apply Permutation_swap.
Qed.

Lemma sort_index_perm (l : list (N * (string * V))) : foldr insert_index [] l ≡ₚ l.
Proof.
  induction l as [|e l IH]; simpl; [done|]. rewrite insert_index_perm. by rewrite IH.
Qed.

Lemma indexed_part (o : t V) :
  (omap (λ e : string * V, index ← array_index e.1; Some (index, e)) o).*2
  = List.filter (λ e, is_array_index e.1) o.
Proof.
  induction o as [|e o IH]; [done|].
  cbn [omap list_omap List.filter]. unfold is_array_index at 1.
  destruct (array_index e.1); cbn [mbind option_bind]; [rewrite fmap_cons|]; by rewrite IH.
Qed.

Lemma filter_split (p : string * V → bool) (o : t V) :
  List.filter p o ++ List.filter (λ e, negb (p e)) o ≡ₚ o.
Proof.
  induction o as [|e o IH]; simpl; [done|].
  destruct (p e); simpl.
  - by rewrite IH.
  - rewrite <- Permutation_middle. by rewrite IH.
Qed.

(** [Object.entries] lists every own property once. *)
Lemma entries_perm (o : t V) : entries o ≡ₚ o.
Proof.
  unfold entries. rewrite sort_index_perm, indexed_part.
  apply (filter_split (λ e, is_array_index e.1)).
Qed.

End object_facts.

(** ** Marketplace configurations *)

Section config_facts.
Import Js Format Names Configs.

Lemma baseNameOf_canonical n : every is_canonical (baseNameOf n) = true.
Proof.
  unfold baseNameOf. destruct (includes _ "tradeport"); [reflexivity|].
  apply base_name_canonical.
Qed.

Lemma canonical_clean b :
  every is_canonical b = true → every (λ c, negb (is_separator c)) b = true.
Proof. apply every_impl. by intros c [_ ?]%andb_true_iff. Qed.

Lemma format_nonempty_of_clean b :
  every (λ c, negb (is_separator c)) b = true → formatMarketplaceName b ≠ "".
Proof.
  intros Hb. destruct (decide (b = "")) as [->|Hne]; [done|].
  destruct (plain b) eqn:Hp.
  - rewrite (format_plain b Hne Hp), (strip_suffixes_id b Hb).
    destruct b as [|c r]; [done|]. simpl. by destruct (Ascii.eqb c " ").
  - by destruct (plain_cases b Hp) as [-> | [-> | [-> | ->]]].
Qed.

Lemma domain_of_clean b :
  every (λ c, negb (is_separator c)) b = true →
  cut_at_match match_underscore_rest b = b.
Proof.
  induction b as [|c r IH]; [done|]. cbn [every cut_at_match].
  intros [Hc Hr]%andb_true_iff.
  assert (match_underscore_rest (String c r) = false) as ->.
  { unfold match_underscore_rest. unfold is_separator in Hc.
    destruct (Ascii.eqb c "_"); [|done]. by rewrite orb_true_r in Hc. }
  by rewrite IH.
Qed.

Lemma baseNames_cons item rows :
  baseNames (item :: rows)
  = if includes (toLowerCase (or_else item "unknown")) "topaz" then baseNames rows
    else baseNameOf (or_else item "unknown") :: baseNames rows.
Proof.
  unfold baseNames, keptNames, marketplaceNames. rewrite fmap_cons. cbn [List.filter].
  by destruct (includes _ "topaz").
Qed.

Lemma group_skips grouped item :
  includes (toLowerCase (or_else item "unknown")) "topaz" = true →
  group grouped item = Returns grouped.
Proof. unfold group. by intros ->. Qed.

Lemma group_old grouped item :
  includes (toLowerCase (or_else item "unknown")) "topaz" = false →
  baseNameOf (or_else item "unknown") ∈ grouped.*1 →
  ∃ grouped', group grouped item = Returns grouped' ∧ grouped'.*1 = grouped.*1.
Proof.
  intros Ht Hin. unfold group. rewrite Ht.
  destruct (JsObject.own grouped _) as [versionNames|] eqn:Hown.
  - destruct (bool_decide _); eexists; (split; [reflexivity|]); [done|].
    by apply keys_set_old.
  - by apply own_None in Hown.
Qed.

Lemma group_new grouped item :
  includes (toLowerCase (or_else item "unknown")) "topaz" = false →
  baseNameOf (or_else item "unknown") ∉ grouped.*1 →
  JsObject.is_inherited (baseNameOf (or_else item "unknown")) = false →
  ∃ grouped', group grouped item = Returns grouped'
              ∧ grouped'.*1 = grouped.*1 ++ [baseNameOf (or_else item "unknown")].
Proof.
  intros Ht Hnot Hi. unfold group. rewrite Ht.
  apply own_None in Hnot as Hown. rewrite Hown, Hi.
  eexists. split; [reflexivity|]. by apply keys_set_new.
Qed.

Lemma group_throws grouped item :
  includes (toLowerCase (or_else item "unknown")) "topaz" = false →
  baseNameOf (or_else item "unknown") ∉ grouped.*1 →
  JsObject.is_inherited (baseNameOf (or_else item "unknown")) = true →
  ∃ e, group grouped item = Throws e.
Proof.
  intros Ht Hnot Hi. unfold group. rewrite Ht.
  apply own_None in Hnot as Hown. rewrite Hown, Hi. by eexists.
Qed.

(** The grouping, when no base name is an inherited member: one key
    for each base name. *)
Lemma group_all_returns rows grouped :
  Forall (λ b, JsObject.is_inherited b = false) (baseNames rows) →
  NoDup grouped.*1 →
  ∃ grouped',
    group_all grouped rows = Returns grouped'
    ∧ NoDup grouped'.*1
    ∧ ∀ k, k ∈ grouped'.*1 ↔ k ∈ grouped.*1 ∨ k ∈ baseNames rows.
Proof.
  revert grouped. induction rows as [|item rows IH]; intros grouped Hi Hnd.
  { exists grouped. split_and!; [done | done |]. intros k. split; [by left|].
    by intros [?|?%elem_of_nil]. }
  rewrite baseNames_cons in Hi |- *. cbn [group_all].
  destruct (includes (toLowerCase (or_else item "unknown")) "topaz") eqn:Ht.
  { rewrite (group_skips _ _ Ht). simpl. by apply IH. }
  apply Forall_cons in Hi as [Hb Hi].
  destruct (decide (baseNameOf (or_else item "unknown") ∈ grouped.*1)) as [Hin|Hnot].
  - destruct (group_old grouped item Ht Hin) as (g1 & -> & Hk). simpl.
    destruct (IH g1 Hi) as (g2 & Hg & Hnd2 & Hkeys); [by rewrite Hk|].
    exists g2. split_and!; [done | done |]. intros k. rewrite Hkeys, Hk, elem_of_cons.
    split; [intros [?|?]; auto | intros [?|[->|?]]; auto].
  - destruct (group_new grouped item Ht Hnot Hb) as (g1 & -> & Hk). simpl.
    destruct (IH g1 Hi) as (g2 & Hg & Hnd2 & Hkeys).
    { rewrite Hk. apply NoDup_app. split_and!; [done | | apply NoDup_singleton].
      intros k Hk1 ->%list_elem_of_singleton. by apply Hnot. }
    exists g2. split_and!; [done | done |]. intros k.
    rewrite Hkeys, Hk, elem_of_app, list_elem_of_singleton, elem_of_cons.
    split; [intros [[?|?]|?]; auto | intros [?|[?|?]]; auto].
Qed.

Lemma group_all_throws rows grouped base :
  (∀ k, k ∈ grouped.*1 → JsObject.is_inherited k = false) →
  base ∈ baseNames rows → JsObject.is_inherited base = true →
  ∃ e, group_all grouped rows = Throws e.
Proof.
  revert grouped. induction rows as [|item rows IH]; intros grouped Hg Hin Hi.
  { by apply elem_of_nil in Hin. }
  rewrite baseNames_cons in Hin. cbn [group_all].
  destruct (includes (toLowerCase (or_else item "unknown")) "topaz") eqn:Ht.
  { rewrite (group_skips _ _ Ht). simpl. by apply IH. }
  destruct (decide (baseNameOf (or_else item "unknown") ∈ grouped.*1)) as [Hold|Hnot].
  - destruct (group_old grouped item Ht Hold) as (g1 & -> & Hk). simpl.
    apply elem_of_cons in Hin as [->|Hin].
    + specialize (Hg _ Hold). congruence.
    + apply IH; [by rewrite Hk | done | done].
  - destruct (JsObject.is_inherited (baseNameOf (or_else item "unknown"))) eqn:Hb.
    + destruct (group_throws grouped item Ht Hnot Hb) as [e ->]. by exists e.
    + destruct (group_new grouped item Ht Hnot Hb) as (g1 & -> & Hk). simpl.
      apply elem_of_cons in Hin as [->|Hin]; [congruence|].
      apply IH; [|done|done].
      intros k. rewrite Hk, elem_of_app, list_elem_of_singleton.
      intros [?| ->]; [by apply Hg | done].
Qed.

Lemma fetch_configs_answered s rows :
  answers s rows →
  fetch_configs s
  = match rows with
    | [] => Returns (getDefaultMarketplaces s)
    | _ => groupedMarketplaces ← group_all [] rows;
           match groupedMarketplaces with
           | [] => Returns (getDefaultMarketplaces s)
           | _ => Returns (imap (toConfig s) (JsObject.entries groupedMarketplaces))
           end
    end.
Proof.
  intros (response & body & d & Hq & Hok & Hj & He & Hd & Ht).
  unfold fetch_configs. rewrite Hq. simpl. rewrite Hok. simpl. rewrite Hj. simpl.
  rewrite He, Hd. simpl. by rewrite Ht.
Qed.

(** The configurations built from the rows: one for each key of the
    grouping. *)
Lemma configs_from_rows s rows :
  answers s rows →
  baseNames rows ≠ [] →
  Forall (λ b, JsObject.is_inherited b = false) (baseNames rows) →
  ∃ grouped,
    NoDup grouped.*1
    ∧ (∀ k, k ∈ grouped.*1 ↔ k ∈ baseNames rows)
    ∧ fetchMarketplaceConfigs s = imap (toConfig s) (JsObject.entries grouped).
Proof.
  intros Ha Hne Hi. unfold fetchMarketplaceConfigs.
  rewrite (fetch_configs_answered s rows Ha).
  destruct (group_all_returns rows [] Hi) as (grouped & Hg & Hnd & Hkeys);
    [apply NoDup_nil_2|].
  assert (∀ k, k ∈ grouped.*1 ↔ k ∈ baseNames rows) as Hkeys'.
  { intros k. rewrite Hkeys. split; [by intros [?%elem_of_nil|?] | by right]. }
  exists grouped. split_and!; [done | done |].
  destruct rows as [|item rows]; [done|]. rewrite Hg. simpl.
  destruct grouped as [|entry grouped]; [|done].
  destruct (baseNames (item :: rows)) as [|b bs]; [done|].
  exfalso. apply (elem_of_nil b), Hkeys'. left.
Qed.

(** Rows that are all Topaz leave the grouping empty. *)
Lemma only_topaz_defaults s rows :
  answers s rows → baseNames rows = [] →
  fetchMarketplaceConfigs s = getDefaultMarketplaces s.
Proof.
  intros Ha Hnone. unfold fetchMarketplaceConfigs.
  rewrite (fetch_configs_answered s rows Ha).
  destruct rows as [|item rows]; [done|].
  destruct (group_all_returns (item :: rows) []) as (grouped & -> & _ & Hkeys);
    [by rewrite Hnone | apply NoDup_nil_2 |].
  simpl. destruct grouped as [|entry grouped]; [done|].
  exfalso. rewrite Hnone in Hkeys.
  destruct (proj1 (Hkeys entry.1)) as [?%elem_of_nil|?%elem_of_nil]; [|done|done].
  rewrite fmap_cons. left.
Qed.

(** A base name that is an inherited member makes the grouping throw. *)
Lemma inherited_name_defaults s rows base :
  answers s rows → base ∈ baseNames rows → JsObject.is_inherited base = true →
  fetchMarketplaceConfigs s = getDefaultMarketplaces s.
Proof.
  intros Ha Hin Hi. unfold fetchMarketplaceConfigs.
  rewrite (fetch_configs_answered s rows Ha).
  destruct (group_all_throws rows [] base) as [e He]; [by intros k ?%elem_of_nil|done|done|].
  destruct rows as [|item rows]; [done|]. by rewrite He.
Qed.

(** X19. Each failure of the query gives the four default
    configurations, and so do rows that are all Topaz and a row whose
    base name is a member that the grouping object inherits, such as
    ['constructor']. *)
Theorem failures_give_default_marketplaces (s : Services) :
  configs_fail s → fetchMarketplaceConfigs s = getDefaultMarketplaces s.
Proof.
  intros [e Hq | r Hq Hok | r e Hq Hok Hj | r b Hq Hok Hj He | r b Hq Hok Hj He Hd
          | r b d Hq Hok Hj He Hd [Ht|Ht] | rows Ha Hnone | rows base Ha Hin Hi].
  1-7: unfold fetchMarketplaceConfigs, fetch_configs; rewrite Hq; simpl; try done;
    rewrite Hok; simpl; try done; rewrite Hj; simpl; try done; rewrite He; try done;
    rewrite Hd; simpl; try done; by rewrite Ht.
  - by apply only_topaz_defaults with rows.
  - by apply inherited_name_defaults with rows base.
Qed.

(** A marketplace called [Constructor_v2] among the rows. *)
Lemma failures_give_default_marketplaces_witness :
  let s := serving_rows [Some "wapal"; Some "Constructor_v2"] in
  fetchMarketplaceConfigs s = getDefaultMarketplaces s.
Proof.
  intros s. apply failures_give_default_marketplaces.
  apply (configs_inherited_name s [Some "wapal"; Some "Constructor_v2"] "constructor").
  - by eexists _, _, _.
  - vm_compute. set_solver.
  - reflexivity.
Defined.

(** The function gives the defaults, or the query is answered with rows
    from which configurations are built. *)
Lemma configs_defaults_or_rows s :
  fetchMarketplaceConfigs s = getDefaultMarketplaces s
  ∨ ∃ rows, answers s rows ∧ baseNames rows ≠ []
            ∧ Forall (λ b, JsObject.is_inherited b = false) (baseNames rows).
Proof.
  destruct (marketplaces_indexer s) as [response|e] eqn:Hq.
  2: { left. unfold fetchMarketplaceConfigs, fetch_configs. by rewrite Hq. }
  destruct (Gateway.ok response) eqn:Hok.
  2: { left. unfold fetchMarketplaceConfigs, fetch_configs. rewrite Hq. simpl.
       by rewrite Hok. }
  destruct (Gateway.json response) as [body|e] eqn:Hj.
  2: { left. unfold fetchMarketplaceConfigs, fetch_configs. rewrite Hq. simpl.
       rewrite Hok. simpl. by rewrite Hj. }
  destruct (Gateway.errors body) eqn:He.
  { left. unfold fetchMarketplaceConfigs, fetch_configs. rewrite Hq. simpl.
    rewrite Hok. simpl. rewrite Hj. simpl. by rewrite He. }
  assert (∀ t, from_option Gateway.table Gateway.Missing (Gateway.data body) = t →
               t = Gateway.Missing ∨ t = Gateway.NotAnArray →
               fetchMarketplaceConfigs s = getDefaultMarketplaces s) as Hnone.
  { intros t Ht Hcase. unfold fetchMarketplaceConfigs, fetch_configs. rewrite Hq. simpl.
    rewrite Hok. simpl. rewrite Hj. simpl. rewrite He, Ht. by destruct Hcase as [-> | ->]. }
  destruct (Gateway.data body) as [d|] eqn:Hd; [|left; apply (Hnone _ eq_refl); by left].
  destruct (Gateway.table d) as [| |rows] eqn:Ht;
    [left; apply (Hnone _ Ht); by left | left; apply (Hnone _ Ht); by right |].
  assert (answers s rows) as Ha by (by exists response, body, d).
  destruct (decide (baseNames rows = [])) as [Hempty|Hsome];
    [left; by apply only_topaz_defaults with rows|].
  destruct (decide (Forall (λ b, JsObject.is_inherited b = false) (baseNames rows)))
    as [Hall|Hnot].
  - right. by exists rows.
  - left. apply not_Forall_Exists in Hnot; [|apply _].
    apply Exists_exists in Hnot as (base & Hin & Hb).
    apply (inherited_name_defaults s rows base Ha Hin). by apply not_false_is_true.
Qed.

(** X20. [fetchMarketplaceConfigs] never returns an empty list.  Its
    configurations are numbered ['1'], ['2'], ... in order; each has a
    display name that is not empty, is connected, and has a logo and a
    website on one domain, which has no upper-case letter, hyphen or
    underscore. *)
Theorem configs_numbered_and_named (s : Services) :
  fetchMarketplaceConfigs s ≠ []
  ∧ ∀ i c, fetchMarketplaceConfigs s !! i = Some c →
      id c = pretty (Z.of_nat i + 1)
      ∧ name c ≠ ""
      ∧ is_connected c = true
      ∧ ∃ domainName,
          every is_canonical domainName = true
          ∧ logo_url c = "https://" +:+ domainName +:+ ".io/logo.png"
          ∧ website_url c = "https://" +:+ domainName +:+ ".io/".
Proof.
  destruct (configs_defaults_or_rows s) as [Hfail|(rows & Ha & Hne & Hi)].
  { rewrite Hfail. split; [done|].
    intros i c Hc. unfold getDefaultMarketplaces in Hc.
    destruct i as [|[|[|[|i]]]]; simpl in Hc; [| | | |done]; injection Hc as <-;
      (split_and!; [done | done | done |]); cbn [logo_url website_url].
    - by exists "tradeport".
    - by exists "bluemove".
    - by exists "rarible".
    - by exists "wapal". }
  destruct (configs_from_rows s rows Ha Hne Hi) as (grouped & Hnd & Hkeys & ->).
  pose proof (entries_perm grouped) as Hperm. split.
  - intros Hnil. apply (f_equal length) in Hnil.
    rewrite length_imap, Hperm in Hnil. destruct grouped as [|entry grouped]; [|done].
    destruct (baseNames rows) as [|b bs]; [done|].
    apply (elem_of_nil b), Hkeys. left.
  - intros i c Hc. rewrite list_lookup_imap in Hc.
    destruct (JsObject.entries grouped !! i) as [entry|] eqn:He; [|done].
    simpl in Hc. injection Hc as <-.
    assert (entry.1 ∈ baseNames rows) as Hb.
    { apply Hkeys, list_elem_of_fmap. exists entry. split; [done|].
      rewrite <- Hperm. by eapply list_elem_of_lookup_2. }
    assert (every is_canonical entry.1 = true) as Hcanon.
    { unfold baseNames in Hb. apply list_elem_of_fmap in Hb as (n & -> & _).
      apply baseNameOf_canonical. }
    pose proof (canonical_clean _ Hcanon) as Hclean.
    split_and!; [done | by apply format_nonempty_of_clean | done |].
    exists entry.1. cbn [toConfig logo_url website_url].
    by rewrite (domain_of_clean _ Hclean).
Qed.

(** X21. When the query is answered with rows that give a base name,
    none of them an inherited member, there is one configuration for
    each distinct base name of the rows that are not Topaz: as many
    configurations as base names, each named by the display name of
    one of them, and each base name with a configuration. *)
Theorem one_config_per_base_name (s : Services) (rows : list (option string)) :
  answers s rows →
  baseNames rows ≠ [] →
  Forall (λ b, JsObject.is_inherited b = false) (baseNames rows) →
  length (fetchMarketplaceConfigs s) = size (list_to_set (baseNames rows) : gset string)
  ∧ (∀ base, base ∈ baseNames rows →
       ∃ c, c ∈ fetchMarketplaceConfigs s ∧ name c = formatMarketplaceName base)
  ∧ (∀ c, c ∈ fetchMarketplaceConfigs s →
       ∃ base, base ∈ baseNames rows ∧ name c = formatMarketplaceName base).
Proof.
  intros Ha Hne Hi.
  destruct (configs_from_rows s rows Ha Hne Hi) as (grouped & Hnd & Hkeys & ->).
  pose proof (entries_perm grouped) as Hperm. split_and!.
  - rewrite length_imap, Hperm.
    assert ((list_to_set (baseNames rows) : gset string) = list_to_set grouped.*1) as ->.
    { apply set_eq. intros k. rewrite !elem_of_list_to_set. by rewrite Hkeys. }
    rewrite size_list_to_set by done. by rewrite length_fmap.
  - intros base Hb. apply Hkeys, list_elem_of_fmap in Hb as (entry & -> & Hentry).
    rewrite <- Hperm in Hentry. apply list_elem_of_lookup in Hentry as [i Hentry].
    exists (toConfig s i entry). split; [|done].
    apply list_elem_of_lookup. exists i. by rewrite list_lookup_imap, Hentry.
  - intros c [i Hc]%list_elem_of_lookup. rewrite list_lookup_imap in Hc.
    destruct (JsObject.entries grouped !! i) as [entry|] eqn:He; [|done].
    simpl in Hc. injection Hc as <-. exists entry.1. split; [|done].
    apply Hkeys, list_elem_of_fmap. exists entry. split; [done|].
    rewrite <- Hperm. by eapply list_elem_of_lookup_2.
Qed.

(** The two versions of TradePort and one more marketplace: two
    configurations. *)
Lemma one_config_per_base_name_witness :
  length (fetchMarketplaceConfigs
            (serving_rows [Some "tradeport_v1"; Some "wapal"; Some "tradeport_v2"]))
  = 2%nat.
Proof.
  destruct (one_config_per_base_name
              (serving_rows [Some "tradeport_v1"; Some "wapal"; Some "tradeport_v2"])
              [Some "tradeport_v1"; Some "wapal"; Some "tradeport_v2"]) as [H _].
  - by eexists _, _, _.
  - vm_compute. discriminate.
  - vm_compute. by repeat constructor.
  - rewrite H. reflexivity.
Defined.

Lemma configs_nonempty s : fetchMarketplaceConfigs s ≠ [].
Proof.
  destruct (configs_defaults_or_rows s) as [Hfail|(rows & Ha & Hne & Hi)].
  { by rewrite Hfail. }
  destruct (configs_from_rows s rows Ha Hne Hi) as (grouped & Hnd & Hkeys & ->).
  intros Hnil. apply (f_equal length) in Hnil.
  rewrite length_imap, (entries_perm grouped) in Hnil.
  destruct grouped as [|entry grouped]; [|done].
  destruct (baseNames rows) as [|b bs]; [done|].
  apply (elem_of_nil b), Hkeys. left.
Qed.

Lemma configs_names_clean s c :
  c ∈ fetchMarketplaceConfigs s → every (λ a, negb (is_separator a)) (name c) = true.
Proof.
  destruct (configs_defaults_or_rows s) as [Hfail|(rows & Ha & Hne & Hi)].
  { rewrite Hfail. unfold getDefaultMarketplaces.
    intros Hc. repeat (apply elem_of_cons in Hc as [->|Hc]; [reflexivity|]).
    by apply elem_of_nil in Hc. }
  destruct (configs_from_rows s rows Ha Hne Hi) as (grouped & Hnd & Hkeys & ->).
  intros [i Hc]%list_elem_of_lookup. rewrite list_lookup_imap in Hc.
  destruct (JsObject.entries grouped !! i) as [entry|]; [|done].
  simpl in Hc. injection Hc as <-. apply formatted_clean.
Qed.

End config_facts.

(** ** The distribution of last resort *)

Section aggregate_facts.
Import Js Configs Aggregate.

Lemma clean_not_proto name :
  every (λ a, negb (is_separator a)) name = true → String.eqb name "__proto__" = false.
Proof. intros Hc. destruct (String.eqb_spec name "__proto__") as [->|]; done. Qed.

Lemma foldl_assign_config_nonempty n (d : gmap string Z)
    (entries : list (nat * MarketplaceConfig)) :
  entries ≠ [] →
  Forall (λ entry, every (λ a, negb (is_separator a)) (name entry.2) = true) entries →
  foldl (assign_config n) d entries ≠ ∅.
Proof.
  destruct entries as [|e entries _] using rev_ind; [done|].
  intros _ [_ [Hlast _]%Forall_cons]%Forall_app.
  rewrite foldl_snoc. unfold assign_config, set_share.
  rewrite (clean_not_proto _ Hlast). apply insert_non_empty.
Qed.

(** X22. Since [fetchMarketplaceConfigs] never returns an empty list and
    none of its names is [__proto__], the distribution is never empty
    after the step that fills it from the configurations: the default
    distribution that follows in the [try] block is never used, and
    [total_marketplaces] is at least 1. *)
Theorem default_distribution_unused (s : Services) (marketplaceDistribution : gmap string Z)
    (totalActiveListings total_value_usd : Z) :
  let filled := from_configs (fetchMarketplaceConfigs s) marketplaceDistribution in
  let stats := realStats (fetchMarketplaceConfigs s) marketplaceDistribution
                 totalActiveListings total_value_usd in
  or_default filled = filled
  ∧ marketplace_distribution stats = filled
  ∧ 1 ≤ total_marketplaces stats.
Proof.
  intros filled stats.
  assert (filled ≠ ∅) as Hne.
  { unfold filled, from_configs.
    destruct (size marketplaceDistribution =? 0)%nat eqn:Hsize.
    - pose proof (configs_nonempty s) as Hconfigs.
      assert ((0 <? length (fetchMarketplaceConfigs s))%nat = true) as ->.
      { apply Nat.ltb_lt. destruct (fetchMarketplaceConfigs s); [done | simpl; lia]. }
      cbn [andb]. apply foldl_assign_config_nonempty.
      + intros Hnil. apply (f_equal length) in Hnil. rewrite length_imap in Hnil.
        by destruct (fetchMarketplaceConfigs s).
      + apply Forall_forall. intros entry [i Hentry]%list_elem_of_lookup.
        rewrite list_lookup_imap in Hentry.
        destruct (fetchMarketplaceConfigs s !! i) as [c|] eqn:Hc; [|done].
        simpl in Hentry. injection Hentry as <-. simpl.
        apply (configs_names_clean s). by eapply list_elem_of_lookup_2.
    - cbn [andb]. intros Hd. apply Nat.eqb_neq in Hsize. apply Hsize.
      rewrite Hd. apply map_size_empty. }
  assert (size filled ≠ 0%nat) as Hsize by (by intros ?%map_size_empty_iff).
  assert (or_default filled = filled) as Hor.
  { unfold or_default. by rewrite (proj2 (Nat.eqb_neq _ _) Hsize). }
  split_and!; [done | exact Hor |].
  unfold stats, realStats. cbn [total_marketplaces]. fold filled. rewrite Hor. lia.
Qed.

End aggregate_facts.
